(** * DeFi Language Support: the language server of [server/src/server.ts]

    A shallow embedding of the server's annotation pipeline: the two regular
    expression scanners, the local validators, the ENS lookups, the validation
    pass that publishes diagnostics, the code-lens handler and the quick-fix
    handler, followed by the properties proved about them.

    Conventions.
    - A JavaScript string is a [string]; offsets count characters.  Every
      character the two patterns and [getCodeActions] look at is ASCII.
    - A call that may throw, and a promise that may reject, has type
      [Result A]: [Ok a] is a normal return (a fulfilled promise), [Throw e]
      an exception (a rejected promise).  [await] of a rejected promise
      rethrows, so [bind] models both sequencing and [await]; the server
      awaits every lookup before it goes on, so a pass is sequential.
    - The module-level variables [ens], [web3provider] and
      [amberdataApiKeySetting] are the fields of a [Server] that a pass
      takes and returns; a variable that has not been assigned is [None].
    - The setting [maxNumberOfProblems] is an integer, possibly negative.
    - The packages the server requires ([web3], [ethereum-ens],
      [ethereumjs-util], [ethereumjs-wallet]) and the [TextDocument] object
      are interfaces: type classes and records of operations.  The general
      properties hold for every implementation; reference implementations
      ([web3.utils] over Keccak-256, a full-text document) run the model on
      concrete documents.
    - Console logging has no influence on any value the server returns or
      publishes and is left out. *)

From Stdlib Require Import String Ascii List ZArith NArith Bool Arith Lia DecimalString Sorted.
Import ListNotations.
Open Scope string_scope.

(** ** JavaScript values *)

Inductive Result (A : Type) : Type :=
| Ok (a : A)
| Throw (e : string).
Arguments Ok {A} a.
Arguments Throw {A} e.

Definition bind {A B : Type} (m : Result A) (k : A -> Result B) : Result B :=
  match m with
  | Ok a => k a
  | Throw e => Throw e
  end.

Definition mapResult {A B : Type} (f : A -> B) (m : Result A) : Result B :=
  match m with
  | Ok a => Ok (f a)
  | Throw e => Throw e
  end.

(** [try { m } catch (e) { h e }], and [p.catch(h)] on a promise. *)
Definition catch {A : Type} (m : Result A) (h : string -> Result A) : Result A :=
  match m with
  | Ok a => Ok a
  | Throw e => h e
  end.

Declare Scope js_scope.
Delimit Scope js_scope with js.
Notation "x <- m ;; k" := (bind m (fun x => k))
  (at level 61, m at next level, right associativity) : js_scope.
Open Scope js_scope.

(** Character classes of the regular expressions. *)
Definition inRange (lo hi c : ascii) : bool :=
  Nat.leb (nat_of_ascii lo) (nat_of_ascii c) && Nat.leb (nat_of_ascii c) (nat_of_ascii hi).
Arguments inRange (lo hi c)%_char.

Definition isDigit (c : ascii) : bool := inRange "0" "9" c.
Definition isLower (c : ascii) : bool := inRange "a" "z" c.
Definition isUpper (c : ascii) : bool := inRange "A" "Z" c.

(** [[0-9a-fA-F]] *)
Definition isHexDigit (c : ascii) : bool :=
  isDigit c || inRange "a" "f" c || inRange "A" "F" c.

(** [\w], that is [[A-Za-z0-9_]] *)
Definition isWordChar (c : ascii) : bool :=
  isDigit c || isLower c || isUpper c || Ascii.eqb c "_"%char.

Definition charToLowerCase (c : ascii) : ascii :=
  if isUpper c then ascii_of_nat (nat_of_ascii c + 32) else c.

Definition charToUpperCase (c : ascii) : ascii :=
  if isLower c then ascii_of_nat (nat_of_ascii c - 32) else c.

Fixpoint mapString (f : ascii -> ascii) (s : string) : string :=
  match s with
  | EmptyString => EmptyString
  | String c s' => String (f c) (mapString f s')
  end.

Definition toLowerCase : string -> string := mapString charToLowerCase.

Fixpoint allChars (p : ascii -> bool) (s : string) : bool :=
  match s with
  | EmptyString => true
  | String c s' => p c && allChars p s'
  end.

(** [s.startsWith(p)] *)
Fixpoint startsWith (s p : string) {struct p} : bool :=
  match p, s with
  | EmptyString, _ => true
  | String c p', String d s' => Ascii.eqb c d && startsWith s' p'
  | String _ _, EmptyString => false
  end.

(** [s.substring(n)]: the characters from offset [n] on. *)
Fixpoint substringFrom (n : nat) (s : string) : string :=
  match n, s with
  | 0, _ => s
  | S n', String _ s' => substringFrom n' s'
  | S _, EmptyString => EmptyString
  end.

(** The first [n] characters of [s]. *)
Fixpoint takeString (n : nat) (s : string) : string :=
  match n, s with
  | S n', String c s' => String c (takeString n' s')
  | _, _ => EmptyString
  end.

(** [s.substring(i, j)] for [i <= j]. *)
Definition slice (i j : nat) (s : string) : string := takeString (j - i) (substringFrom i s).

(** The double quote, for the messages that embed one. *)
Definition dquote : string := String (ascii_of_nat 34) EmptyString.

(** ** Keccak-256

    [web3.utils.sha3] on a string that is not 0x-prefixed hashes its bytes
    with Keccak-256 (rate 136 bytes, padding [0x01 .. 0x80]).  Lanes are
    64-bit words kept in [N]; the state is the list of its 25 lanes, lane
    [(x, y)] at index [x + 5 * y]. *)
Module Keccak.

Definition mask64 : N := N.ones 64.

Definition rotl (x n : N) : N :=
  N.land (N.lor (N.shiftl x n) (N.shiftr x (64 - n))) mask64.

Definition lane (s : list N) (i : nat) : N := nth i s 0%N.

Definition roundConstants : list N :=
  [ 0x0000000000000001; 0x0000000000008082; 0x800000000000808A;
    0x8000000080008000; 0x000000000000808B; 0x0000000080000001;
    0x8000000080008081; 0x8000000000008009; 0x000000000000008A;
    0x0000000000000088; 0x0000000080008009; 0x000000008000000A;
    0x000000008000808B; 0x800000000000008B; 0x8000000000008089;
    0x8000000000008003; 0x8000000000008002; 0x8000000000000080;
    0x000000000000800A; 0x800000008000000A; 0x8000000080008081;
    0x8000000000008080; 0x0000000080000001; 0x8000000080008008 ]%N.

Definition rotationOffsets : list N :=
  [  0;  1; 62; 28; 27;
    36; 44;  6; 55; 20;
     3; 10; 43; 25; 39;
    41; 45; 15; 21;  8;
    18;  2; 61; 56; 14 ]%N.

Definition indices : list nat := seq 0 25.

Definition theta (s : list N) : list N :=
  let c := map (fun x => N.lxor (lane s x) (N.lxor (lane s (x + 5))
                 (N.lxor (lane s (x + 10)) (N.lxor (lane s (x + 15)) (lane s (x + 20))))))
               (seq 0 5) in
  let d := map (fun x => N.lxor (lane c ((x + 4) mod 5)) (rotl (lane c ((x + 1) mod 5)) 1))
               (seq 0 5) in
  map (fun i => N.lxor (lane s i) (lane d (i mod 5))) indices.

Definition rhoPi (s : list N) : list N :=
  map (fun i => let x := i mod 5 in let y := i / 5 in
                let src := (x + 3 * y) mod 5 + 5 * x in
                rotl (lane s src) (lane rotationOffsets src)) indices.

Definition chi (s : list N) : list N :=
  map (fun i => let x := i mod 5 in let y := i / 5 in
                N.lxor (lane s i)
                       (N.ldiff (lane s ((x + 2) mod 5 + 5 * y))
                                (lane s ((x + 1) mod 5 + 5 * y)))) indices.

Definition iota (rc : N) (s : list N) : list N :=
  match s with
  | [] => []
  | l :: s' => N.lxor l rc :: s'
  end.

Definition round (s : list N) (rc : N) : list N := iota rc (chi (rhoPi (theta s))).

Definition permute (s : list N) : list N := fold_left round roundConstants s.

Definition rate : nat := 136.

(** Little-endian bytes to a lane and back. *)
Fixpoint laneOfBytes (bs : list N) : N :=
  match bs with
  | [] => 0
  | b :: bs' => b + 256 * laneOfBytes bs'
  end%N.

Fixpoint bytesOfLane (n : nat) (l : N) : list N :=
  match n with
  | 0 => []
  | S n' => (l mod 256)%N :: bytesOfLane n' (l / 256)%N
  end.

Fixpoint lanesOfBytes (n : nat) (bs : list N) : list N :=
  match n with
  | 0 => []
  | S n' => laneOfBytes (firstn 8 bs) :: lanesOfBytes n' (skipn 8 bs)
  end.

(** The pad10*1 padding of Keccak (before SHA-3 added its suffix bits). *)
Definition pad (bs : list N) : list N :=
  let q := rate - length bs mod rate in
  if Nat.eqb q 1 then bs ++ [0x81%N]
  else bs ++ [0x01%N] ++ repeat 0%N (q - 2) ++ [0x80%N].

Definition absorbBlock (s : list N) (block : list N) : list N :=
  let ls := lanesOfBytes 17 block in
  permute (map (fun i => N.lxor (lane s i) (lane ls i)) indices).

Fixpoint absorb (blocks : nat) (s : list N) (bs : list N) : list N :=
  match blocks with
  | 0 => s
  | S n => absorb n (absorbBlock s (firstn rate bs)) (skipn rate bs)
  end.

Definition keccak256 (bs : list N) : list N :=
  let p := pad bs in
  let s := absorb (length p / rate) (repeat 0%N 25) p in
  flat_map (bytesOfLane 8) (firstn 4 s).

Definition hexDigit (n : N) : ascii :=
  ascii_of_N (if (n <? 10)%N then 48 + n else 87 + n)%N.

Fixpoint hexOfBytes (bs : list N) : string :=
  match bs with
  | [] => EmptyString
  | b :: bs' => String (hexDigit (b / 16)) (String (hexDigit (b mod 16)) (hexOfBytes bs'))
  end.

Definition bytesOfString (s : string) : list N := map N_of_ascii (list_ascii_of_string s).

(** The lowercase hexadecimal digest, without the [0x] that [sha3] adds and
    its callers strip. *)
Definition sha3 (s : string) : string := hexOfBytes (keccak256 (bytesOfString s)).

End Keccak.

(** ** Language Server Protocol data *)

Record Position := { line : nat; character : nat }.

(** [{ start, end }]; [end] is a keyword of Rocq, hence [end_]. *)
Record Range := { start : Position; end_ : Position }.

(** [interface StringLocation] *)
Record StringLocation := { range : Range; content : string }.

Inductive DiagnosticSeverity := Error | Warning | Information | Hint.

(** [code?: number | string] *)
Inductive DiagnosticCode :=
| CodeNumber (n : Z)
| CodeString (s : string).

Record Location := { loc_uri : string; loc_range : Range }.

Record DiagnosticRelatedInformation := { location : Location; info_message : string }.

Record Diagnostic := {
  severity : DiagnosticSeverity;
  diag_range : Range;
  message : string;
  source : string;
  code : option DiagnosticCode;
  relatedInformation : option (list DiagnosticRelatedInformation)
}.

Record PublishDiagnosticsParams := { pub_uri : string; diagnostics : list Diagnostic }.

Record Command := { cmd_title : string; command : string; arguments : list string }.

(** [data] is the array [[codeLensType, network, content]]. *)
Record CodeLens := {
  lens_range : Range;
  lens_command : option Command;
  lens_data : list string
}.

Record TextEdit := { edit_range : Range; newText : string }.

(** [changes] is an object used as a map from document URI to edits; the
    server only ever builds it with one key. *)
Record WorkspaceEdit := { changes : list (string * list TextEdit) }.

Inductive CodeActionKind := QuickFix.

Record CodeAction := {
  title : string;
  kind : CodeActionKind;
  edit : WorkspaceEdit;
  action_diagnostics : list Diagnostic
}.

(** The [TextDocument] object of the document manager: the server calls
    [getText()], [positionAt(offset)] and reads [uri]. *)
Record TextDocument := {
  uri : string;
  getText : string;
  positionAt : nat -> Position
}.

(** ** Constants of the server *)

Definition NAME : string := "DeFi Language Support".

Definition DIAGNOSTIC_TYPE_NOT_VALID_ADDRESS : string := "NotValidAddress".
Definition DIAGNOSTIC_TYPE_NOT_CHECKSUM_ADDRESS : string := "NotChecksumAddress".
Definition DIAGNOSTIC_TYPE_CONVERT_ENS_NAME : string := "ConvertENSName".

Definition CODE_LENS_TYPE_ETH_ADDRESS : string := "EthAddress".
Definition CODE_LENS_TYPE_ETH_PRIVATE_KEY : string := "EthPrivateKey".

Definition MAINNET : string := "mainnet".
Definition ROPSTEN : string := "ropsten".
Definition KOVAN : string := "kovan".
Definition RINKEBY : string := "rinkeby".
Definition GOERLI : string := "goerli".
Definition NETWORKS : list string := [MAINNET; ROPSTEN; KOVAN; RINKEBY; GOERLI].

Record DefiSettings := {
  maxNumberOfProblems : Z;
  infuraProjectId : string;
  infuraProjectSecret : string;
  amberdataApiKey : string
}.

Definition defaultSettings : DefiSettings :=
  {| maxNumberOfProblems := 1000; infuraProjectId := ""; infuraProjectSecret := "";
     amberdataApiKey := "" |}.

(** ** The packages the server requires *)

(** [web3.utils]: [isAddress] answers, [toChecksumAddress] throws on a string
    that is not address-shaped. *)
Class Web3Utils := {
  isAddress : string -> bool;
  toChecksumAddress : string -> Result string
}.

(** [EthUtil.toBuffer], [Wallet.fromPrivateKey] (whose wallet the server
    drops) and [web3.eth.accounts.privateKeyToAccount(key).address]. *)
Class KeyLibrary := {
  toBuffer : string -> Result (list Byte.byte);
  fromPrivateKey : list Byte.byte -> Result unit;
  privateKeyToAccount_address : string -> Result string
}.

(** The object that the call [ens.resolver(name)] returns: its [addr()] is
    a promise that is fulfilled with a string or rejected. *)
Record Resolver := { resolver_addr : Result string }.

(** An [ethereum-ens] client as the server uses it.  [ens.resolver(name)] is
    an ordinary call, evaluated before any promise exists: it returns a
    resolver object or throws (the package refuses a name that it cannot
    normalise).  [reverse_name] is the promise [ens.reverse(address).name()];
    the server evaluates [ens.reverse] only on strings that [isAddress]
    accepted or that it put into a lens itself. *)
Record ENS := {
  reverse_name : string -> Result string;
  resolver : string -> Result Resolver
}.

(** What [new ENS(new Web3.providers.HttpProvider(url))] reaches: the naming
    service behind a provider URL. *)
Definition Network := string -> ENS.

(** The module-level variables that are assigned at run time.  A variable
    declared without initialiser is [undefined] until then: [None]. *)
Record Server := {
  hasDiagnosticRelatedInformationCapability : bool;
  web3provider : option string;
  ens : option ENS;
  amberdataApiKeySetting : option string
}.

Definition initialServer : Server :=
  {| hasDiagnosticRelatedInformationCapability := false;
     web3provider := None; ens := None; amberdataApiKeySetting := None |}.

(** ** The scanners *)

(** The two regular expressions, [/0x[0-9a-fA-F]{40}\b/g] and
    [/[0-9a-fA-F]{64}\b/g]. *)
Inductive Pattern := AddressPattern | PrivateKeyPattern.

(** [[0-9a-fA-F]{n}] at the head of [s]: the digits and what follows. *)
Fixpoint hexDigits (n : nat) (s : string) : option (string * string) :=
  match n with
  | 0 => Some (EmptyString, s)
  | S n' =>
      match s with
      | String c s' =>
          if isHexDigit c then
            match hexDigits n' s' with
            | Some (m, rest) => Some (String c m, rest)
            | None => None
            end
          else None
      | EmptyString => None
      end
  end.

Definition firstChar (s : string) : option ascii :=
  match s with
  | String c _ => Some c
  | EmptyString => None
  end.

Fixpoint lastChar (s : string) : option ascii :=
  match s with
  | EmptyString => None
  | String c EmptyString => Some c
  | String _ s' => lastChar s'
  end.

Definition isWord (c : option ascii) : bool :=
  match c with
  | Some c => isWordChar c
  | None => false
  end.

(** [\b] between [prev] and [next] ([None] outside the text). *)
Definition wordBoundary (prev next : option ascii) : bool :=
  xorb (isWord prev) (isWord next).

(** A match of the pattern starting at the head of [s]: [m[0]]. *)
Definition matchHere (p : Pattern) (s : string) : option string :=
  match p with
  | AddressPattern =>
      match s with
      | String "0" (String "x" s') =>
          match hexDigits 40 s' with
          | Some (m, rest) =>
              if wordBoundary (lastChar m) (firstChar rest) then Some ("0x" ++ m) else None
          | None => None
          end
      | _ => None
      end
  | PrivateKeyPattern =>
      match hexDigits 64 s with
      | Some (m, rest) =>
          if wordBoundary (lastChar m) (firstChar rest) then Some m else None
      | None => None
      end
  end.

(** The leftmost match in [s], whose head is at offset [index] of the text. *)
Fixpoint search (p : Pattern) (s : string) (index : nat) : option (nat * string) :=
  match matchHere p s with
  | Some m => Some (index, m)
  | None =>
      match s with
      | String _ s' => search p s' (S index)
      | EmptyString => None
      end
  end.

(** [pattern.exec(text)] for a global pattern: the search starts at
    [lastIndex]; a match [(m.index, m[0])] moves [lastIndex] past itself, a
    failure resets it to 0.  The result is paired with the new [lastIndex]. *)
Definition exec (p : Pattern) (text : string) (lastIndex : nat)
  : option (nat * string) * nat :=
  if Nat.ltb (String.length text) lastIndex then (None, 0)
  else
    match search p (substringFrom lastIndex text) lastIndex with
    | Some (index, m) => (Some (index, m), index + String.length m)
    | None => (None, 0)
    end.

(** The loop shared by the two scanners,
    [while ((m = pattern.exec(text)) && problems < 100) { ...; locations.push(location); }].
    Its body never assigns [problems].  [fuel] bounds the iterations; [None]
    is a loop that has not left after [fuel] of them. *)
Fixpoint scanLoop (fuel : nat) (p : Pattern) (contentOf : string -> string)
    (textDocument : TextDocument) (lastIndex problems : nat)
    (locations : list StringLocation) : option (list StringLocation) :=
  match fuel with
  | 0 => None
  | S fuel' =>
      match exec p (getText textDocument) lastIndex with
      | (Some (index, m), lastIndex') =>
          if Nat.ltb problems 100 then
            let location :=
              {| range := {| start := positionAt textDocument index;
                             end_ := positionAt textDocument (index + String.length m) |};
                 content := contentOf m |} in
            scanLoop fuel' p contentOf textDocument lastIndex' problems
                     (locations ++ [location])%list
          else Some locations
      | (None, _) => Some locations
      end
  end.

(** Every match is at least one character long, so the loop leaves within
    [length text + 1] iterations ([scanLoop_returns] below). *)
Definition scan (p : Pattern) (contentOf : string -> string) (textDocument : TextDocument)
  : list StringLocation :=
  match scanLoop (S (String.length (getText textDocument))) p contentOf textDocument 0 0 [] with
  | Some locations => locations
  | None => []
  end.

(** append 0x to the front of a hex string if it doesn't start with it *)
Definition normalizeHex (hex : string) : string :=
  if negb (startsWith hex "0x") then "0x" ++ hex else hex.

(** find all possible Ethereum addresses *)
Definition findPossibleEthereumAddresses (textDocument : TextDocument) : list StringLocation :=
  scan AddressPattern (fun m => m) textDocument.

Definition findPossiblePrivateKeys (textDocument : TextDocument) : list StringLocation :=
  scan PrivateKeyPattern normalizeHex textDocument.

(** ** Validators, lookups and handlers *)

Section Handlers.

Context {web3 : Web3Utils} {keys : KeyLibrary}.

Definition isValidEthereumAddress (address : string) : bool := isAddress address.

(** [try { toBuffer; fromPrivateKey } catch (e) { return false; } return true;] *)
Definition isPrivateKey (possiblePrivateKey : string) : Result bool :=
  catch (privateKeyBuffer <- toBuffer possiblePrivateKey ;;
         _ <- fromPrivateKey privateKeyBuffer ;;
         Ok true)
        (fun _ => Ok false).

Definition toPublicKey (privateKey : string) : Result string :=
  privateKeyToAccount_address privateKey.

Definition ZERO_ADDRESS : string := "0x0000000000000000000000000000000000000000".

(** Reading a property of the undefined [ens] throws a [TypeError] before
    any promise exists, so no [.catch] handler sees it. *)
Definition ensUndefined (property : string) : string :=
  "TypeError: Cannot read property '" ++ property ++ "' of undefined".

(** [await ens.resolver(name).addr().then(...).catch(...)]: the [.catch]
    handler sees the rejection of the promise of [addr()], not what the call
    [ens.resolver(name)] throws. *)
Definition ENSLookup (ens : option ENS) (name : string) : Result string :=
  let result := "" in
  match ens with
  | None => Throw (ensUndefined "resolver")
  | Some client =>
      found <- resolver client name ;;
      catch (addr <- resolver_addr found ;;
             Ok (if negb (String.eqb addr ZERO_ADDRESS) then addr else result))
            (fun _ => Ok result)
  end.

Definition reverseENSLookup (ens : option ENS) (address : string) : Result string :=
  let result := "" in
  match ens with
  | None => Throw (ensUndefined "reverse")
  | Some client =>
      catch (name <- reverse_name client address ;;
             (* then forward ENS lookup to validate *)
             addr <- ENSLookup ens name ;;
             mine <- toChecksumAddress address ;;
             theirs <- toChecksumAddress addr ;;
             Ok (if String.eqb mine theirs then name else result))
            (fun _ => Ok result)
  end.

(** *** The validation pass *)

(** The object literal that the closure [addDiagnostic] of
    [validateTextDocument] builds, with [relatedInformation] when the client
    supports it. *)
Definition makeDiagnostic (server : Server) (textDocument : TextDocument)
    (element : StringLocation) (message details : string)
    (severity : DiagnosticSeverity) (code : string) : Diagnostic :=
  {| severity := severity;
     diag_range := range element;
     message := message;
     source := NAME;
     code := Some (CodeString code);
     relatedInformation :=
       if hasDiagnosticRelatedInformationCapability server then
         Some [ {| location := {| loc_uri := uri textDocument;
                                  loc_range := range element |};
                   info_message := details |} ]
       else None |}.

(** [addDiagnostic]: the array after [diagnostics.push(diagnostic)]. *)
Definition addDiagnostic (server : Server) (textDocument : TextDocument)
    (diagnostics : list Diagnostic) (element : StringLocation)
    (message details : string) (severity : DiagnosticSeverity) (code : string)
  : list Diagnostic :=
  (diagnostics
     ++ [makeDiagnostic server textDocument element message details severity code])%list.

(** The body of the [for] loop under its guard [problems < maxNumberOfProblems]. *)
Definition validateElement (server : Server) (textDocument : TextDocument)
    (diagnostics : list Diagnostic) (element : StringLocation)
  : Result (list Diagnostic) :=
  if negb (isValidEthereumAddress (content element)) then
    Ok (addDiagnostic server textDocument diagnostics element
          (content element ++ " is not a valid Ethereum address")
          "The string appears to be an Ethereum address but fails checksum."
          Error DIAGNOSTIC_TYPE_NOT_VALID_ADDRESS)
  else
    checksumAddress <- toChecksumAddress (content element) ;;
    let diagnostics :=
      if negb (String.eqb (content element) checksumAddress) then
        addDiagnostic server textDocument diagnostics element
          (content element ++ " is not a checksum address")
          "Use a checksum address as a best practice to ensure the address is valid."
          Warning (DIAGNOSTIC_TYPE_NOT_CHECKSUM_ADDRESS ++ checksumAddress)
      else diagnostics in
    ensName <- reverseENSLookup (ens server) (content element) ;;
    Ok (if negb (String.eqb ensName "") then
          addDiagnostic server textDocument diagnostics element
            (content element ++ " can be converted to its ENS name " ++ dquote ++ ensName ++ dquote)
            "Convert the Ethereum address to its ENS name for better readability."
            Hint (DIAGNOSTIC_TYPE_CONVERT_ENS_NAME ++ ensName)
        else diagnostics).

(** [for (var i = 0; i < possibleEthereumAddresses.length; i++)], on the
    elements from [i] on. *)
Fixpoint validateLoop (server : Server) (textDocument : TextDocument)
    (maxNumberOfProblems : Z) (elements : list StringLocation)
    (problems : nat) (diagnostics : list Diagnostic) : Result (list Diagnostic) :=
  match elements with
  | [] => Ok diagnostics
  | element :: rest =>
      if (Z.of_nat problems <? maxNumberOfProblems)%Z then
        diagnostics' <- validateElement server textDocument diagnostics element ;;
        validateLoop server textDocument maxNumberOfProblems rest (S problems) diagnostics'
      else
        validateLoop server textDocument maxNumberOfProblems rest problems diagnostics
  end.

(** The assignments at the head of the pass.  Both disjuncts of the first
    test read [infuraProjectId]. *)
Definition configure (net : Network) (server : Server) (settings : DefiSettings) : Server :=
  let server :=
    if String.eqb (infuraProjectId settings) "" || String.eqb (infuraProjectId settings) "" then
      server
    else
      let url := "https://:" ++ infuraProjectSecret settings ++ "@mainnet.infura.io/v3/"
                   ++ infuraProjectId settings in
      {| hasDiagnosticRelatedInformationCapability :=
           hasDiagnosticRelatedInformationCapability server;
         web3provider := Some url;
         ens := Some (net url);
         amberdataApiKeySetting := amberdataApiKeySetting server |} in
  if String.eqb (amberdataApiKey settings) "" then server
  else
    {| hasDiagnosticRelatedInformationCapability :=
         hasDiagnosticRelatedInformationCapability server;
       web3provider := web3provider server;
       ens := ens server;
       amberdataApiKeySetting := Some (amberdataApiKey settings) |}.

(** One pass over a document with the settings [getDocumentSettings]
    delivered: the server's variables afterwards, and either the argument
    of [connection.sendDiagnostics] or the exception that rejected the
    pass before that call. *)
Definition validateTextDocument (net : Network) (server : Server)
    (settings : DefiSettings) (textDocument : TextDocument)
  : Server * Result PublishDiagnosticsParams :=
  let server := configure net server settings in
  let diagnostics := [] in
  let possibleEthereumAddresses := findPossibleEthereumAddresses textDocument in
  (server,
   diagnostics <- validateLoop server textDocument (maxNumberOfProblems settings)
                    possibleEthereumAddresses 0 diagnostics ;;
   Ok {| pub_uri := uri textDocument; diagnostics := diagnostics |}).

(** *** Code lenses *)

(** [NETWORKS.forEach(network => codeLenses.push(...))] *)
Definition pushEthereumAddressCodeLenses (codeLensType : string) (range : Range)
    (content : string) (codeLenses : list CodeLens) : list CodeLens :=
  fold_left
    (fun codeLenses network =>
       (codeLenses ++ [ {| lens_range := range; lens_command := None;
                           lens_data := [codeLensType; network; content] |} ])%list)
    NETWORKS codeLenses.

Definition pushAddressLenses (codeLenses : list CodeLens) (element : StringLocation)
  : list CodeLens :=
  if isValidEthereumAddress (content element) then
    pushEthereumAddressCodeLenses CODE_LENS_TYPE_ETH_ADDRESS (range element)
      (content element) codeLenses
  else codeLenses.

Definition pushPrivateKeyLenses (codeLenses : Result (list CodeLens))
    (element : StringLocation) : Result (list CodeLens) :=
  codeLenses <- codeLenses ;;
  isKey <- isPrivateKey (content element) ;;
  if isKey then
    address <- toPublicKey (content element) ;;
    Ok (pushEthereumAddressCodeLenses CODE_LENS_TYPE_ETH_PRIVATE_KEY (range element)
          address codeLenses)
  else Ok codeLenses.

(** The [onCodeLens] handler on [documents.get(uri)]. *)
Definition onCodeLens (textDocument : option TextDocument) : Result (list CodeLens) :=
  match textDocument with
  | Some textDocument =>
      let codeLenses := [] in
      (* Ethereum addresses *)
      let codeLenses :=
        fold_left pushAddressLenses (findPossibleEthereumAddresses textDocument) codeLenses in
      (* Private keys to public addresses *)
      fold_left pushPrivateKeyLenses (findPossiblePrivateKeys textDocument) (Ok codeLenses)
  | None => Ok []
  end.

End Handlers.

(** ** Quick fixes *)

(** [String(diagnostic.code)] *)
Definition String_ (code : option DiagnosticCode) : string :=
  match code with
  | None => "undefined"
  | Some (CodeString s) => s
  | Some (CodeNumber n) => NilZero.string_of_int (Z.to_int n)
  end.

Definition getQuickFix (diagnostic : Diagnostic) (title : string) (range : Range)
    (replacement : string) (textDocument : TextDocument) : CodeAction :=
  let textEdit := {| edit_range := range; newText := replacement |} in
  let workspaceEdit := {| changes := [(uri textDocument, [textEdit])] |} in
  {| title := title; kind := QuickFix; edit := workspaceEdit;
     action_diagnostics := [diagnostic] |}.

(** The callback of [diagnostics.forEach] in [getCodeActions]. *)
Definition pushQuickFix (textDocument : TextDocument) (codeActions : list CodeAction)
    (diagnostic : Diagnostic) : list CodeAction :=
  if startsWith (String_ (code diagnostic)) DIAGNOSTIC_TYPE_NOT_CHECKSUM_ADDRESS then
    let title := "Convert to checksum address" in
    let range := diag_range diagnostic in
    let replacement :=
      substringFrom (String.length DIAGNOSTIC_TYPE_NOT_CHECKSUM_ADDRESS)
                    (String_ (code diagnostic)) in
    (codeActions ++ [getQuickFix diagnostic title range replacement textDocument])%list
  else if startsWith (String_ (code diagnostic)) DIAGNOSTIC_TYPE_CONVERT_ENS_NAME then
    let replacement :=
      substringFrom (String.length DIAGNOSTIC_TYPE_CONVERT_ENS_NAME)
                    (String_ (code diagnostic)) in
    let title := "Convert to ENS name " ++ dquote ++ replacement ++ dquote in
    let range := diag_range diagnostic in
    (codeActions ++ [getQuickFix diagnostic title range replacement textDocument])%list
  else codeActions.

Definition getCodeActions (diagnostics : list Diagnostic) (textDocument : TextDocument)
  : list CodeAction :=
  fold_left (pushQuickFix textDocument) diagnostics [].

(** The [onCodeAction] handler on [documents.get(uri)] and [context.diagnostics]. *)
Definition onCodeAction (textDocument : option TextDocument) (diagnostics : list Diagnostic)
  : list CodeAction :=
  match textDocument with
  | None => []
  | Some textDocument => getCodeActions diagnostics textDocument
  end.

(** ** Descriptions used in the statements *)

(** One unresolved lens per supported network, each on [range]: what the
    code-lens handler is expected to add for one span. *)
Definition lensPerNetwork (codeLensType : string) (range : Range) (content : string)
  : list CodeLens :=
  map (fun network =>
         {| lens_range := range; lens_command := None;
            lens_data := [codeLensType; network; content] |})
      NETWORKS.

Definition isWarning (diagnostic : Diagnostic) : bool :=
  match severity diagnostic with
  | Warning => true
  | _ => false
  end.

(** The lenses expected for one address span and for one private-key span. *)
Definition addressLenses {web3 : Web3Utils} (element : StringLocation) : list CodeLens :=
  if isValidEthereumAddress (content element) then
    lensPerNetwork CODE_LENS_TYPE_ETH_ADDRESS (range element) (content element)
  else [].

Definition privateKeyLenses {keys : KeyLibrary} (element : StringLocation) : list CodeLens :=
  match isPrivateKey (content element), toPublicKey (content element) with
  | Ok true, Ok address =>
      lensPerNetwork CODE_LENS_TYPE_ETH_PRIVATE_KEY (range element) address
  | _, _ => []
  end.

(** What a match of either pattern looks like: the text continues with the
    match, which is a run of hex digits, after [0x] for an address. *)
Definition matchShape (p : Pattern) (m : string) : Prop :=
  match p with
  | AddressPattern =>
      exists digits, m = "0x" ++ digits /\ String.length digits = 40
                     /\ allChars isHexDigit digits = true
  | PrivateKeyPattern => String.length m = 64 /\ allChars isHexDigit m = true
  end.

Definition matchLength (p : Pattern) : nat :=
  match p with
  | AddressPattern => 42
  | PrivateKeyPattern => 64
  end.

(** The span the loop pushes for a match. *)
Definition locationOf (contentOf : string -> string) (textDocument : TextDocument)
    (index : nat) (m : string) : StringLocation :=
  {| range := {| start := positionAt textDocument index;
                 end_ := positionAt textDocument (index + String.length m) |};
     content := contentOf m |}.

(** A text laid out as address tokens, each followed by a gap of characters
    that are not word characters; only the last gap may be empty. *)
Definition isGap (gap : string) : bool := allChars (fun c => negb (isWordChar c)) gap.

Fixpoint render (pieces : list (string * string)) : string :=
  match pieces with
  | [] => EmptyString
  | (token, gap) :: rest => token ++ gap ++ render rest
  end.

Fixpoint wellSeparated (pieces : list (string * string)) : Prop :=
  match pieces with
  | [] => True
  | (token, gap) :: rest =>
      matchShape AddressPattern token /\ isGap gap = true
      /\ (gap = EmptyString -> rest = []) /\ wellSeparated rest
  end.

(** The spans of the tokens of such a text, the first token at [offset]. *)
Fixpoint expectedSpans (textDocument : TextDocument) (offset : nat)
    (pieces : list (string * string)) : list StringLocation :=
  match pieces with
  | [] => []
  | (token, gap) :: rest =>
      locationOf (fun m => m) textDocument offset token
      :: expectedSpans textDocument (offset + 42 + String.length gap) rest
  end.

(** ** Reference implementations

    The operations of [web3.utils] as web3.js 1.x implements them, a
    [TextDocument] computed from its text, and the key functions of
    [ethereumjs-util] and [ethereumjs-wallet].  They run the model on
    concrete documents; no general property below depends on them. *)
Module Reference.

(** [s.replace(/^0x/i, '')] *)
Definition stripHexPrefix (s : string) : string :=
  match s with
  | String "0" (String c rest) =>
      if Ascii.eqb c "x" || Ascii.eqb c "X" then rest else s
  | _ => s
  end.

Definition isLowerHex (c : ascii) : bool := isDigit c || inRange "a" "f" c.
Definition isUpperHex (c : ascii) : bool := isDigit c || inRange "A" "F" c.

(** [/^(0x)?[0-9a-f]{40}$/i.test(address)] *)
Definition addressShaped (address : string) : bool :=
  let digits := stripHexPrefix address in
  Nat.eqb (String.length digits) 40 && allChars isHexDigit digits.

(** [parseInt(c, 16)] on one character; [NaN] compares false both ways and is
    never met on a digest. *)
Definition hexValue (c : ascii) : nat :=
  if isDigit c then nat_of_ascii c - 48
  else if inRange "a" "f" c then nat_of_ascii c - 87
  else if inRange "A" "F" c then nat_of_ascii c - 55
  else 0.

(** The loop of [checkAddressChecksum] over the digits and the digest. *)
Fixpoint caseMatches (address hash : string) : bool :=
  match address, hash with
  | String a address', String h hash' =>
      if (Nat.ltb 7 (hexValue h) && negb (Ascii.eqb (charToUpperCase a) a))
         || (Nat.leb (hexValue h) 7 && negb (Ascii.eqb (charToLowerCase a) a))
      then false
      else caseMatches address' hash'
  | _, _ => true
  end.

Definition checkAddressChecksum (address : string) : bool :=
  let address := stripHexPrefix address in
  caseMatches address (Keccak.sha3 (toLowerCase address)).

Definition isAddress (address : string) : bool :=
  if negb (addressShaped address) then false
  else if allChars isLowerHex (stripHexPrefix address)
          || allChars isUpperHex (stripHexPrefix address) then true
  else checkAddressChecksum address.

(** The loop of [toChecksumAddress]. *)
Fixpoint applyCase (address hash : string) : string :=
  match address, hash with
  | String a address', String h hash' =>
      String (if Nat.ltb 7 (hexValue h) then charToUpperCase a else a)
             (applyCase address' hash')
  | _, _ => EmptyString
  end.

Definition toChecksumAddress (address : string) : Result string :=
  if negb (addressShaped address) then
    Throw ("Given address " ++ dquote ++ address ++ dquote ++ " is not a valid Ethereum address.")
  else
    let address := stripHexPrefix (toLowerCase address) in
    Ok ("0x" ++ applyCase address (Keccak.sha3 address)).

Definition web3 : Web3Utils := Build_Web3Utils isAddress toChecksumAddress.

(** [positionAt] of a full-text document: lines end at a line feed, a
    carriage return, or the pair of them; an offset past the end is clamped. *)
Fixpoint positionFrom (s : string) (offset line character : nat) : Position :=
  match offset, s with
  | S offset', String c s' =>
      if Ascii.eqb c (ascii_of_nat 10) then positionFrom s' offset' (S line) 0
      else if Ascii.eqb c (ascii_of_nat 13) then
        match s' with
        | String c' _ =>
            if Ascii.eqb c' (ascii_of_nat 10) then positionFrom s' offset' line (S character)
            else positionFrom s' offset' (S line) 0
        | EmptyString => positionFrom s' offset' (S line) 0
        end
      else positionFrom s' offset' line (S character)
  | _, _ => {| line := line; character := character |}
  end.

(** [TextDocument.create(uri, languageId, version, content)] *)
Definition createTextDocument (uri text : string) : TextDocument :=
  {| uri := uri; getText := text; positionAt := fun offset => positionFrom text offset 0 0 |}.

(** [Buffer.from(digits, 'hex')] on an even number of hexadecimal digits. *)
Fixpoint bytesOfHex (digits : string) : list Byte.byte :=
  match digits with
  | String hi (String lo rest) =>
      byte_of_ascii (ascii_of_nat (16 * hexValue hi + hexValue lo)) :: bytesOfHex rest
  | _ => []
  end.

Definition padToEven (digits : string) : string :=
  if Nat.even (String.length digits) then digits else String "0" digits.

(** [EthUtil.toBuffer] on a string: only [/^0x[0-9A-Fa-f]*$/] converts. *)
Definition toBuffer (v : string) : Result (list Byte.byte) :=
  match v with
  | String "0" (String "x" digits) =>
      if allChars isHexDigit digits then Ok (bytesOfHex (padToEven digits))
      else Throw "Cannot convert string to buffer. toBuffer only supports 0x-prefixed hex strings"
  | _ => Throw "Cannot convert string to buffer. toBuffer only supports 0x-prefixed hex strings"
  end.

(** The order of the group of secp256k1. *)
Definition curveOrder : N :=
  0xFFFFFFFFFFFFFFFFFFFFFFFFFFFFFFFEBAAEDCE6AF48A03BBFD25E8CD0364141%N.

Definition bigEndian (bs : list Byte.byte) : N :=
  fold_left (fun acc b => (256 * acc + Byte.to_N b)%N) bs 0%N.

(** [Wallet.fromPrivateKey]: 32 bytes that read as a number in [1, n - 1]. *)
Definition fromPrivateKey (privateKey : list Byte.byte) : Result unit :=
  if Nat.eqb (List.length privateKey) 32
     && N.ltb 0 (bigEndian privateKey) && N.ltb (bigEndian privateKey) curveOrder
  then Ok tt
  else Throw "Private key does not satisfy the curve requirements (ie. it is invalid)".

(** Key pairs of the web3.js documentation.  Deriving an address takes a
    multiplication on the curve, which is not modelled: the reference
    answers for the keys listed here and throws for any other. *)
Definition knownAccounts : list (string * string) :=
  [ ("0x348ce564d427a3311b6536bbcff9390d69395b06ed6c486954e971d960fe8709",
     "0xb8CE9ab6943e0eCED004cDe8e3bBed6568B2Fa01") ].

Definition privateKeyToAccount_address (privateKey : string) : Result string :=
  match find (fun account => String.eqb (fst account) (toLowerCase privateKey)) knownAccounts with
  | Some account => Ok (snd account)
  | None => Throw "key pair outside the reference table"
  end.

Definition keys : KeyLibrary :=
  Build_KeyLibrary toBuffer fromPrivateKey privateKeyToAccount_address.

End Reference.


(** ** Concrete documents, settings and naming services *)
Module Fixtures.

Definition lowerAddress : string := "0xd8da6bf26964af9d7eed9e03e53415d37aa96045".
Definition checksumAddress : string := "0xd8dA6BF26964aF9D7eEd9e03E53415D37aA96045".
Definition otherLowerAddress : string := "0x5aaeb6053f3e94c9b9a09f33669435e7ef1beaed".
Definition privateKey : string :=
  "348ce564d427a3311b6536bbcff9390d69395b06ed6c486954e971d960fe8709".

(** A naming service on which every call is rejected. *)
Definition unreachable : ENS :=
  {| reverse_name := fun _ => Throw "network error";
     resolver := fun _ => Ok {| resolver_addr := Throw "network error" |} |}.

(** A naming service holding one record, consistent in both directions. *)
Definition oneRecord : ENS :=
  {| reverse_name := fun address =>
       if String.eqb (toLowerCase address) lowerAddress then Ok "vitalik.eth"
       else Throw "no reverse record";
     resolver := fun name =>
       Ok {| resolver_addr :=
               if String.eqb name "vitalik.eth" then Ok checksumAddress
               else Throw "no resolver" |} |}.

(** A reverse record that names somebody else's name: the forward lookup of
    [vitalik.eth] gives another address than the one asked about. *)
Definition spoofed : ENS :=
  {| reverse_name := fun _ => Ok "vitalik.eth";
     resolver := resolver oneRecord |}.

(** The same record on a client that refuses, in the call [ens.resolver]
    itself, every name with a character other than a letter, a digit, a
    hyphen or a dot, as the name normalisation of [ethereum-ens] does. *)
Definition isNameChar (c : ascii) : bool :=
  isDigit c || isLower c || isUpper c || Ascii.eqb c "-"%char || Ascii.eqb c "."%char.

Definition refusing : ENS :=
  {| reverse_name := reverse_name oneRecord;
     resolver := fun name =>
       if allChars isNameChar name then resolver oneRecord name
       else Throw ("Error: Illegal char in " ++ name) |}.

(** Infura credentials set, and room for a single problem. *)
Definition capOne : DefiSettings :=
  {| maxNumberOfProblems := 1; infuraProjectId := "id"; infuraProjectSecret := "secret";
     amberdataApiKey := "" |}.

Definition oneAddress : TextDocument :=
  Reference.createTextDocument "file:///one.txt" ("addr: " ++ lowerAddress).

Definition twoAddresses : TextDocument :=
  Reference.createTextDocument "file:///two.txt"
    (lowerAddress ++ String (ascii_of_nat 10) otherLowerAddress).

Definition addressAndKey : TextDocument :=
  Reference.createTextDocument "file:///keys.txt"
    ("to " ++ lowerAddress ++ " key " ++ privateKey).

Fixpoint repeatString (n : nat) (s : string) : string :=
  match n with
  | 0 => EmptyString
  | S n' => s ++ repeatString n' s
  end.

Definition checksumForm : TextDocument :=
  Reference.createTextDocument "file:///checksum.txt" ("addr: " ++ checksumAddress).

(** The checksum form with its first letter capitalised. *)
Definition wrongCapital : TextDocument :=
  Reference.createTextDocument "file:///capital.txt"
    "addr: 0xD8dA6BF26964aF9D7eEd9e03E53415D37aA96045".

(** An address token followed by a letter that is not a hex digit. *)
Definition followedByLetter : TextDocument :=
  Reference.createTextDocument "file:///letter.txt" (lowerAddress ++ "g").

(** 101 address tokens, one per line. *)
Definition manyAddresses : TextDocument :=
  Reference.createTextDocument "file:///many.txt"
    (repeatString 101 (lowerAddress ++ String (ascii_of_nat 10) EmptyString)).

End Fixtures.

(** ** Resolving code lenses *)

(** [interface Token], with the field types it declares. *)
Record Token := {
  token_name : string;
  token_symbol : string;
  token_address : string;
  marketCap : string;
  price : string;
  totalSupply : string;
  tradeVolume : string;
  uniqueAddresses : option string
}.

Definition getTokenName (token : Token) : string :=
  token_name token ++ " (" ++ token_symbol token ++ ")".

(** [Command.create(title, command, ...args)] *)
Definition Command_create (title command : string) (args : list string) : Command :=
  {| cmd_title := title; command := command; arguments := args |}.

(** [data[i]] of a lens; [undefined] past the end of the array. *)
Definition dataAt (codeLens : CodeLens) (i : nat) : option string :=
  nth_error (lens_data codeLens) i.

(** [x === CONSTANT] for an [x] that may be [undefined]. *)
Definition isString (x : option string) (constant : string) : bool :=
  match x with
  | Some s => String.eqb s constant
  | None => false
  end.

Definition withCommand (codeLens : CodeLens) (command : Command) : CodeLens :=
  {| lens_range := lens_range codeLens; lens_command := Some command;
     lens_data := lens_data codeLens |}.

Section Resolve.

Context {web3 : Web3Utils}.

(** What [await getToken(address)] yields: the token of the market API for
    the address, [None] for [undefined].  The body of [getToken] (an HTTP
    request and the JSON it returns) is outside this model; the handler is
    modelled for every outcome of it. *)
Variable getToken : string -> Result (option Token).

(** The [onCodeLensResolve] handler. *)
Definition onCodeLensResolve (server : Server) (codeLens : CodeLens) : Result CodeLens :=
  let codeLensType := dataAt codeLens 0 in
  let network := dataAt codeLens 1 in
  match dataAt codeLens 2 with
  | None => Throw "TypeError: Cannot read property 'toString' of undefined"
  | Some address =>
      if isString network MAINNET then
        (* reverse ENS lookup *)
        ensName <- reverseENSLookup (ens server) address ;;
        (* token lookup *)
        token <- getToken address ;;
        let prefix := "" in
        let prefix := if negb (String.eqb ensName "") then prefix ++ ensName ++ " | "
                      else prefix in
        let isToken := match token with Some _ => true | None => false end in
        let prefix := match token with
                      | Some token => prefix ++ getTokenName token ++ " | "
                      | None => prefix
                      end in
        if isString codeLensType CODE_LENS_TYPE_ETH_ADDRESS then
          Ok (withCommand codeLens
                (Command_create
                   (prefix ++ "Ethereum " ++ (if isToken then "token" else "address")
                      ++ " (mainnet): " ++ address)
                   "etherscan.show.url" ["https://etherscan.io/address/" ++ address]))
        else if isString codeLensType CODE_LENS_TYPE_ETH_PRIVATE_KEY then
          Ok (withCommand codeLens
                (Command_create
                   (prefix ++ "Private key for Ethereum "
                      ++ (if isToken then "token" else "address")
                      ++ " (mainnet): " ++ address)
                   "etherscan.show.url" ["https://etherscan.io/address/" ++ address]))
        else Ok codeLens
      else if isString network ROPSTEN then
        Ok (withCommand codeLens
              (Command_create "(ropsten)" "etherscan.show.url"
                 ["https://ropsten.etherscan.io/address/" ++ address]))
      else if isString network KOVAN then
        Ok (withCommand codeLens
              (Command_create "(kovan)" "etherscan.show.url"
                 ["https://kovan.etherscan.io/address/" ++ address]))
      else if isString network RINKEBY then
        Ok (withCommand codeLens
              (Command_create "(rinkeby)" "etherscan.show.url"
                 ["https://rinkeby.etherscan.io/address/" ++ address]))
      else if isString network GOERLI then
        Ok (withCommand codeLens
              (Command_create "(goerli)" "etherscan.show.url"
                 ["https://goerli.etherscan.io/address/" ++ address]))
      else Ok codeLens
  end.

End Resolve.

(** The page a resolved lens opens. *)
Definition etherscanUrl (network address : string) : string :=
  if String.eqb network MAINNET then "https://etherscan.io/address/" ++ address
  else "https://" ++ network ++ ".etherscan.io/address/" ++ address.

(** ** Hovering *)

(** [s.substring(a, b)] for arbitrary numbers: both ends are clamped to the
    string, and swapped when they come in the wrong order. *)
Definition clampIndex (len : nat) (i : Z) : nat :=
  Z.to_nat (Z.min (Z.max i 0) (Z.of_nat len)).

Definition substring (s : string) (a b : Z) : string :=
  let a := clampIndex (String.length s) a in
  let b := clampIndex (String.length s) b in
  slice (Nat.min a b) (Nat.max a b) s.

(** [/[^0-9a-zA-Z.]{1}/g]: one character that is not alphanumeric or dot. *)
Definition isBoundaryChar (c : ascii) : bool :=
  negb (isDigit c || isLower c || isUpper c || Ascii.eqb c ".").

Fixpoint firstIndexWhere (isMatch : ascii -> bool) (s : string) : option nat :=
  match s with
  | EmptyString => None
  | String c s' =>
      if isMatch c then Some 0
      else match firstIndexWhere isMatch s' with
           | Some i => Some (S i)
           | None => None
           end
  end.

Fixpoint lastIndexWhere (isMatch : ascii -> bool) (s : string) : option nat :=
  match s with
  | EmptyString => None
  | String c s' =>
      match lastIndexWhere isMatch s' with
      | Some i => Some (S i)
      | None => if isMatch c then Some 0 else None
      end
  end.

(** [indexOfRegex] and [lastIndexOfRegex] of the package [index-of-regex],
    for a pattern that matches one character of a class: the offset of the
    first, respectively last, match, and -1 when there is none. *)
Definition indexOfRegex (s : string) (isMatch : ascii -> bool) : Z :=
  match firstIndexWhere isMatch s with
  | Some i => Z.of_nat i
  | None => (-1)%Z
  end.

Definition lastIndexOfRegex (s : string) (isMatch : ascii -> bool) : Z :=
  match lastIndexWhere isMatch s with
  | Some i => Z.of_nat i
  | None => (-1)%Z
  end.

Definition getWord (text : string) (index : Z) : string :=
  let beginSubstring := substring text 0 index in
  let endSubstring := substring text index (Z.of_nat (String.length text)) in
  (* boundaries are: not alphanumeric or dot *)
  let first := (lastIndexOfRegex beginSubstring isBoundaryChar + 1)%Z in
  let last := (index + indexOfRegex endSubstring isBoundaryChar)%Z in
  substring text
    (if negb (Z.eqb first (-1)) then first else 0%Z)
    (if negb (Z.eqb last (-1)) then last else (Z.of_nat (String.length text) - 1)%Z).

(** The document object with the two further methods the hover handler
    calls: [getText(range)] and [offsetAt(position)]. *)
Record TextDocumentLines := {
  asTextDocument : TextDocument;
  getTextIn : Range -> string;
  offsetAt : Position -> nat
}.

Record Hover := { contents : string }.

Section Hovering.

Context {web3 : Web3Utils} {keys : KeyLibrary}.

(** What [await getHoverMarkdownForAddress(address)] yields.  Its body
    formats balances and prices with floating-point arithmetic and is
    outside this model; the handler is modelled for every outcome of it. *)
Variable getHoverMarkdownForAddress : string -> Result string.

(** The word under the cursor: the text of the cursor's line, up to the
    start of the next line, and the cursor's offset in it. *)
Definition hoveredWord (textDocument : TextDocumentLines) (position : Position) : string :=
  let start := {| line := line position; character := 0 |} in
  let end_ := {| line := line position + 1; character := 0 |} in
  let text := getTextIn textDocument {| start := start; end_ := end_ |} in
  let index := (Z.of_nat (offsetAt textDocument position)
                - Z.of_nat (offsetAt textDocument start))%Z in
  getWord text index.

(** The [onHover] handler on [documents.get(uri)] and the position. *)
Definition onHover (server : Server) (textDocument : option TextDocumentLines)
    (position : Position) : Result Hover :=
  match textDocument with
  | Some textDocument =>
      let word := hoveredWord textDocument position in
      let buf := "" in
      buf <-
        (if isValidEthereumAddress word then
           (* Display Ethereum address, ENS name, mainnet ETH and DAI balances *)
           getHoverMarkdownForAddress word
         else
           let normalized := normalizeHex word in
           isKey <- isPrivateKey normalized ;;
           if isKey then
             (* Convert to public key then display *)
             address <- toPublicKey normalized ;;
             getHoverMarkdownForAddress address
           else
             (* If it's not a private key, check if it has an ENS name *)
             address <- ENSLookup (ens server) word ;;
             if negb (String.eqb address "") then getHoverMarkdownForAddress address
             else Ok buf) ;;
      Ok {| contents := buf |}
  | None => Ok {| contents := "" |}
  end.

End Hovering.

(** ** Further descriptions *)

(** A run of characters that are alphanumeric or dots. *)
Definition isWordText (word : string) : bool :=
  allChars (fun c => negb (isBoundaryChar c)) word.

(** A text before a word: empty, or ending in a boundary character. *)
Definition endsAtBoundary (before : string) : Prop :=
  before = EmptyString
  \/ exists before' c, before = before' ++ String c EmptyString /\ isBoundaryChar c = true.

(** The title of a resolved mainnet lens. *)
Definition mainnetTitle (ensName : string) (token : option Token)
    (codeLensType address : string) : string :=
  (if String.eqb ensName "" then "" else ensName ++ " | ")
    ++ match token with
       | Some token => token_name token ++ " (" ++ token_symbol token ++ ") | "
       | None => ""
       end
    ++ (if String.eqb codeLensType CODE_LENS_TYPE_ETH_ADDRESS then ""
        else "Private key for ")
    ++ "Ethereum "
    ++ match token with Some _ => "token" | None => "address" end
    ++ " (mainnet): " ++ address.

(** What every lens of [onCodeLens] looks like. *)
Definition emittedLens (codeLens : CodeLens) : Prop :=
  exists codeLensType network address,
    In codeLensType [CODE_LENS_TYPE_ETH_ADDRESS; CODE_LENS_TYPE_ETH_PRIVATE_KEY]
    /\ In network NETWORKS
    /\ lens_command codeLens = None
    /\ lens_data codeLens = [codeLensType; network; address].


(** The matches of a pattern in a text taken leftmost first and without
    overlap, from offset [from] on: each is the first match at or after the
    end of the one before, and no match starts after the last. *)
Fixpoint leftmostFrom (p : Pattern) (text : string) (from : nat)
    (matches : list (nat * string)) : Prop :=
  match matches with
  | [] => forall k, from <= k -> matchHere p (substringFrom k text) = None
  | (index, m) :: rest =>
      from <= index
      /\ (forall k, from <= k < index -> matchHere p (substringFrom k text) = None)
      /\ matchHere p (substringFrom index text) = Some m
      /\ leftmostFrom p text (index + String.length m) rest
  end.

Definition isHint (diagnostic : Diagnostic) : bool :=
  match severity diagnostic with
  | Hint => true
  | _ => false
  end.

(** The [changes] of a quick fix that replaces [range] by [text] in the
    document [textDocument]. *)
Definition replacement (textDocument : TextDocument) (range : Range) (text : string)
  : list (string * list TextEdit) :=
  [(uri textDocument, [ {| edit_range := range; newText := text |} ])].

(** ** Documents with lines *)

Module Lines.

Definition LF : ascii := ascii_of_nat 10.
Definition CR : ascii := ascii_of_nat 13.

(** The offsets at which a line starts after offset [i]: one past each line
    feed, and one past each carriage return that no line feed follows. *)
Fixpoint lineOffsetsFrom (text : string) (i : nat) : list nat :=
  match text with
  | EmptyString => []
  | String ch rest =>
      if Ascii.eqb ch LF then S i :: lineOffsetsFrom rest (S i)
      else if Ascii.eqb ch CR then
        match rest with
        | String next _ =>
            if Ascii.eqb next LF then lineOffsetsFrom rest (S i)
            else S i :: lineOffsetsFrom rest (S i)
        | EmptyString => [S i]
        end
      else lineOffsetsFrom rest (S i)
  end.

Definition getLineOffsets (text : string) : list nat := 0 :: lineOffsetsFrom text 0.

(** [offsetAt(position)] of a full-text document: a line past the last is
    the end of the text, a character past the end of its line is the start
    of the next line. *)
Definition offsetAt (text : string) (position : Position) : nat :=
  let lineOffsets := getLineOffsets text in
  if Nat.leb (List.length lineOffsets) (line position) then String.length text
  else
    let lineOffset := nth (line position) lineOffsets 0 in
    let nextLineOffset :=
      if Nat.ltb (line position + 1) (List.length lineOffsets)
      then nth (line position + 1) lineOffsets 0
      else String.length text in
    Nat.max (Nat.min (lineOffset + character position) nextLineOffset) lineOffset.

(** [getText(range)] *)
Definition getTextIn (text : string) (range : Range) : string :=
  substring text (Z.of_nat (offsetAt text (start range))) (Z.of_nat (offsetAt text (end_ range))).

(** [TextDocument.create(uri, languageId, version, content)] with the
    methods the hover handler calls. *)
Definition createTextDocument (uri text : string) : TextDocumentLines :=
  Build_TextDocumentLines (Reference.createTextDocument uri text)
    (getTextIn text) (offsetAt text).

End Lines.

(** The line of a position, as the hover handler reads it: from the start
    of the line to the start of the next one. *)
Definition lineOf (position : Position) : Range :=
  {| start := {| line := line position; character := 0 |};
     end_ := {| line := line position + 1; character := 0 |} |}.

(** The cursor is in the word [word] of its line, or at one of its ends,
    and the word is followed by a boundary character. *)
Definition cursorInWord (textDocument : TextDocumentLines) (position : Position)
    (word : string) : Prop :=
  exists before b after k,
    getTextIn textDocument (lineOf position) = before ++ word ++ String b after
    /\ offsetAt textDocument position
       = offsetAt textDocument (start (lineOf position)) + String.length before + k
    /\ endsAtBoundary before
    /\ isWordText word = true
    /\ isBoundaryChar b = true
    /\ k <= String.length word.

(** ** Document settings *)

(** A [Map] with string keys, in insertion order: [get], [set], [delete]. *)
Definition Map (V : Type) : Type := list (string * V).

Fixpoint Map_get {V : Type} (m : Map V) (key : string) : option V :=
  match m with
  | [] => None
  | (k, v) :: rest => if String.eqb k key then Some v else Map_get rest key
  end.

Fixpoint Map_set {V : Type} (m : Map V) (key : string) (value : V) : Map V :=
  match m with
  | [] => [(key, value)]
  | (k, v) :: rest =>
      if String.eqb k key then (k, value) :: rest else (k, v) :: Map_set rest key value
  end.

Definition Map_delete {V : Type} (m : Map V) (key : string) : Map V :=
  filter (fun entry => negb (String.eqb (fst entry) key)) m.

(** The variables behind [getDocumentSettings]: [hasConfigurationCapability],
    [globalSettings] and the cache [documentSettings], whose values are the
    promises of the client's answers, settled or rejected.  [requested]
    records the [scopeUri] of every [workspace/configuration] request sent
    to the client, oldest first. *)
Record SettingsStore := {
  hasConfigurationCapability : bool;
  globalSettings : DefiSettings;
  documentSettings : Map (Result DefiSettings);
  requested : list string
}.

(** The notifications that reach the settings. *)
Inductive Notification :=
| DidChangeContent (uri : string)
| DidClose (uri : string)
| DidChangeConfiguration (settings : option (option DefiSettings)) (all : list string).

Section Settings.

(** [connection.workspace.getConfiguration({ scopeUri, section: 'defi' })]:
    the client's answer to the request with this scope, given the number of
    requests sent before it. *)
Variable getConfiguration : nat -> string -> Result DefiSettings.

Definition getDocumentSettings (store : SettingsStore) (resource : string)
  : SettingsStore * Result DefiSettings :=
  if negb (hasConfigurationCapability store) then (store, Ok (globalSettings store))
  else
    match Map_get (documentSettings store) resource with
    | Some result => (store, result)
    | None =>
        let result := getConfiguration (List.length (requested store)) resource in
        ({| hasConfigurationCapability := hasConfigurationCapability store;
            globalSettings := globalSettings store;
            documentSettings := Map_set (documentSettings store) resource result;
            requested := (requested store ++ [resource])%list |},
         result)
    end.

(** [documents.onDidClose]: only keep settings for open documents. *)
Definition onDidClose (store : SettingsStore) (uri : string) : SettingsStore :=
  {| hasConfigurationCapability := hasConfigurationCapability store;
     globalSettings := globalSettings store;
     documentSettings := Map_delete (documentSettings store) uri;
     requested := requested store |}.

(** [documents.onDidChangeContent]: [validateTextDocument] calls
    [getDocumentSettings] before its first [await]. *)
Definition onDidChangeContent (store : SettingsStore) (uri : string) : SettingsStore :=
  fst (getDocumentSettings store uri).

(** [connection.onDidChangeConfiguration] on [change.settings] and the URIs
    of [documents.all()], each of which is revalidated.  [settings] is [None]
    when the notification carries [null] for it, and [Some None] when it
    carries an object without a [defi] section; reading [.defi] of [null]
    throws before anything is assigned.  The result is the store the handler
    leaves when it returns. *)
Definition onDidChangeConfiguration (store : SettingsStore)
    (settings : option (option DefiSettings)) (all : list string)
  : Result SettingsStore :=
  store <-
    (if hasConfigurationCapability store then
       (* Reset all cached document settings *)
       Ok {| hasConfigurationCapability := hasConfigurationCapability store;
             globalSettings := globalSettings store;
             documentSettings := [];
             requested := requested store |}
     else
       match settings with
       | None => Throw "TypeError: Cannot read property 'defi' of null"
       | Some defi =>
           Ok {| hasConfigurationCapability := hasConfigurationCapability store;
                 globalSettings :=
                   match defi with Some defi => defi | None => defaultSettings end;
                 documentSettings := documentSettings store;
                 requested := requested store |}
       end) ;;
  (* Revalidate all open text documents *)
  Ok (fold_left onDidChangeContent all store).

Definition notify (store : SettingsStore) (notification : Notification) : SettingsStore :=
  match notification with
  | DidChangeContent uri => onDidChangeContent store uri
  | DidClose uri => onDidClose store uri
  | DidChangeConfiguration settings all =>
      (* a handler that throws has changed nothing *)
      match onDidChangeConfiguration store settings all with
      | Ok store => store
      | Throw _ => store
      end
  end.

Definition notifyAll (store : SettingsStore) (notifications : list Notification)
  : SettingsStore :=
  fold_left notify notifications store.

End Settings.

(** The store when the module is loaded, after [onInitialize] set the
    capability flag. *)
Definition initialSettings (capability : bool) : SettingsStore :=
  {| hasConfigurationCapability := capability;
     globalSettings := defaultSettings;
     documentSettings := [];
     requested := [] |}.

(** A notification that leaves the cached settings of [resource] alone. *)
Definition keepsSettingsOf (resource : string) (notification : Notification) : Prop :=
  match notification with
  | DidChangeContent _ => True
  | DidClose uri => uri <> resource
  | DidChangeConfiguration _ _ => False
  end.

(** The [defi] section of the last configuration change that carried
    settings, the defaults if it had no such section, and [settings] if there
    was no such change. *)
Definition lastPushedSettings (settings : DefiSettings) (notifications : list Notification)
  : DefiSettings :=
  fold_left
    (fun settings notification =>
       match notification with
       | DidChangeConfiguration (Some (Some defi)) _ => defi
       | DidChangeConfiguration (Some None) _ => defaultSettings
       | _ => settings
       end)
    notifications settings.

(** ** Completion *)

Inductive CompletionItemKind := Value | Snippet.

(** [data] is the token of a token item and [undefined] for a snippet;
    [sortText] and [additionalTextEdits] are optional properties. *)
Record CompletionItem := {
  label : string;
  item_kind : CompletionItemKind;
  data : option Token;
  textEdit : TextEdit;
  sortText : option string;
  additionalTextEdits : option (list TextEdit)
}.

Definition nl : string := String (ascii_of_nat 10) EmptyString.
Definition tab : string := String (ascii_of_nat 9) EmptyString.

(** [String(sortOrder)] on a non-negative integer. *)
Definition String_of_number (n : nat) : string := NilZero.string_of_uint (Nat.to_uint n).

(** [s.includes(search)] *)
Fixpoint includes (s search : string) : bool :=
  startsWith s search
  || match s with
     | String _ rest => includes rest search
     | EmptyString => false
     end.

Section Completion.

Context {web3 : Web3Utils}.

(** [try { return toChecksumAddress(address) } catch (e) { return address }] *)
Definition getChecksumAddress (address : string) : string :=
  match toChecksumAddress address with
  | Ok checksumAddress => checksumAddress
  | Throw _ => address
  end.

(** [insertSnippet] on [documents.get(uri)] and the position of the
    request: the array after [completionItems.push(completionItem)]. *)
Definition insertSnippet (textDocument : option TextDocument) (position : Position)
    (snippetText : string) (completionItems : list CompletionItem)
    (imports : option string) (label : string) (sortOrder : nat)
  : list CompletionItem :=
  let textEdit :=
    {| edit_range := {| start := position; end_ := position |};
       newText := snippetText |} in
  (* check if imports should be added *)
  let textDocumentContents := option_map getText textDocument in
  let additionalTextEdits :=
    match imports with
    | Some imports =>
        if match textDocumentContents with
           | None => true
           | Some contents => negb (includes contents imports)
           end
        then
          Some [ {| edit_range := {| start := {| line := 0; character := 0 |};
                                     end_ := {| line := 0; character := 0 |} |};
                    newText := imports |} ]
        else None
    | None => None
    end in
  (completionItems
     ++ [ {| label := label;
             item_kind := Snippet;
             data := None;
             textEdit := textEdit;
             sortText := Some (String_of_number sortOrder);
             additionalTextEdits := additionalTextEdits |} ])%list.

(** The [onCompletion] handler on the tokens that [await getTopTokens()]
    gave, [documents.get(uri)] and the position of the request. *)
Definition onCompletion (tokens : list Token) (textDocument : option TextDocument)
    (position : Position) : list CompletionItem :=
  let completionItems := [] in
  (* Token completion items *)
  let completionItems :=
    fold_left
      (fun completionItems token =>
         let textEdit :=
           {| edit_range := {| start := position; end_ := position |};
              newText := getChecksumAddress (token_address token) |} in
         (completionItems
            ++ [ {| label := "Token: " ++ token_name token ++ " (" ++ token_symbol token ++ ")";
                    item_kind := Value;
                    data := Some token;
                    textEdit := textEdit;
                    sortText := None;
                    additionalTextEdits := None |} ])%list)
      tokens completionItems in
  (* Snippets *)
  (* Uniswap token *)
  let completionItems :=
    let snippet :=
      ("const token = new Token(ChainId.MAINNET, '0xc0FFee0000000000000000000000000000000000', 18, 'HOT', 'Caffeine')" ++ nl) in
    let imports := "import { ChainId, Token, TokenAmount, Pair, TradeType, Route } from '@uniswap/sdk'" ++ nl in
    insertSnippet textDocument position snippet completionItems (Some imports)
      "DeFi: Uniswap token" 0 in
  (* Uniswap pair *)
  let completionItems :=
    let snippet :=
      ("const HOT = new Token(ChainId.MAINNET, '0xc0FFee0000000000000000000000000000000000', 18, 'HOT', 'Caffeine')" ++ nl) ++
      ("const NOT = new Token(ChainId.MAINNET, '0xDeCAf00000000000000000000000000000000000', 18, 'NOT', 'Caffeine')" ++ nl) ++
      (nl) ++
      ("const pair = new Pair(new TokenAmount(HOT, '2000000000000000000'), new TokenAmount(NOT, '1000000000000000000'))" ++ nl) in
    let imports := "import { ChainId, Token, TokenAmount, Pair, TradeType, Route } from '@uniswap/sdk'" ++ nl in
    insertSnippet textDocument position snippet completionItems (Some imports)
      "DeFi: Uniswap pair" 1 in
  (* Uniswap route *)
  let completionItems :=
    let snippet :=
      ("const HOT = new Token(ChainId.MAINNET, '0xc0FFee0000000000000000000000000000000000', 18, 'HOT', 'Caffeine')" ++ nl) ++
      ("const NOT = new Token(ChainId.MAINNET, '0xDeCAf00000000000000000000000000000000000', 18, 'NOT', 'Caffeine')" ++ nl) ++
      ("const HOT_NOT = new Pair(new TokenAmount(HOT, '2000000000000000000'), new TokenAmount(NOT, '1000000000000000000'))" ++ nl) ++
      (nl) ++
      ("const route = new Route([HOT_NOT], NOT)" ++ nl) in
    let imports := "import { ChainId, Token, TokenAmount, Pair, TradeType, Route } from '@uniswap/sdk'" ++ nl in
    insertSnippet textDocument position snippet completionItems (Some imports)
      "DeFi: Uniswap route" 2 in
  (* Uniswap trade *)
  let completionItems :=
    let snippet :=
      ("const HOT = new Token(ChainId.MAINNET, '0xc0FFee0000000000000000000000000000000000', 18, 'HOT', 'Caffeine')" ++ nl) ++
      ("const NOT = new Token(ChainId.MAINNET, '0xDeCAf00000000000000000000000000000000000', 18, 'NOT', 'Caffeine')" ++ nl) ++
      ("const HOT_NOT = new Pair(new TokenAmount(HOT, '2000000000000000000'), new TokenAmount(NOT, '1000000000000000000'))" ++ nl) ++
      ("const NOT_TO_HOT = new Route([HOT_NOT], NOT)" ++ nl) ++
      (nl) ++
      ("const trade = new Trade(NOT_TO_HOT, new TokenAmount(NOT, '1000000000000000'), TradeType.EXACT_INPUT)" ++ nl) in
    let imports := "import { ChainId, Token, TokenAmount, Pair, TradeType, Route } from '@uniswap/sdk'" ++ nl in
    insertSnippet textDocument position snippet completionItems (Some imports)
      "DeFi: Uniswap trade" 3 in
  (* pTokens *)
  let completionItems :=
    let snippet :=
      ("const ptokens = new pTokens({" ++ nl) ++
      (tab ++ "pbtc: {" ++ nl) ++
      (tab ++ tab ++ "ethPrivateKey: 'Eth private key'," ++ nl) ++
      (tab ++ tab ++ "ethProvider: 'Eth provider'," ++ nl) ++
      (tab ++ tab ++ "btcNetwork: 'testnet',  //'testnet' or 'bitcoin', default 'testnet'" ++ nl) ++
      (tab ++ tab ++ "defaultEndpoint: 'https://......' //optional" ++ nl) ++
      (tab ++ "}" ++ nl) ++
      ("})" ++ nl) in
    let imports := "import pTokens from 'ptokens'" ++ nl in
    insertSnippet textDocument position snippet completionItems (Some imports)
      "DeFi: pTokens" 4 in
  (* pTokens (web3) *)
  let completionItems :=
    let snippet :=
      ("if (window.web3) {" ++ nl) ++
      (tab ++ "const ptokens = new pTokens({" ++ nl) ++
      (tab ++ tab ++ "pbtc: {" ++ nl) ++
      (tab ++ tab ++ tab ++ "ethProvider: window.web3.currentProvider," ++ nl) ++
      (tab ++ tab ++ tab ++ "btcNetwork: 'bitcoin'" ++ nl) ++
      (tab ++ tab ++ "}" ++ nl) ++
      (tab ++ "})" ++ nl) ++
      ("} else {" ++ nl) ++
      (tab ++ "console.log('No web3 detected')" ++ nl) ++
      ("}" ++ nl) in
    let imports := "import pTokens from 'ptokens'" ++ nl in
    insertSnippet textDocument position snippet completionItems (Some imports)
      "DeFi: pTokens (web3)" 5 in
  (* pTokens (pBTC deposit address) *)
  let completionItems :=
    let snippet :=
      ("const depositAddress = await ptokens.pbtc.getDepositAddress(ethAddress)" ++ nl) ++
      ("console.log(depositAddress.toString())" ++ nl) ++
      (nl) ++
      ("//fund the BTC address just generated (not ptokens.js stuff)" ++ nl) ++
      (nl) ++
      ("depositAddress.waitForDeposit()" ++ nl) ++
      (tab ++ ".once('onBtcTxBroadcasted', tx => ... )" ++ nl) ++
      (tab ++ ".once('onBtcTxConfirmed', tx => ...)" ++ nl) ++
      (tab ++ ".once('onNodeReceivedTx', tx => ...)" ++ nl) ++
      (tab ++ ".once('onNodeBroadcastedTx', tx => ...)" ++ nl) ++
      (tab ++ ".once('onEthTxConfirmed', tx => ...)" ++ nl) ++
      (tab ++ ".then(res => ...))" ++ nl) in
    let imports := "import pTokens from 'ptokens'" ++ nl in
    insertSnippet textDocument position snippet completionItems (Some imports)
      "DeFi: pTokens (pBTC deposit address)" 6 in
  completionItems.

End Completion.

(** The text [search] occurs in [s]. *)
Definition occursIn (search s : string) : Prop :=
  exists before after, s = before ++ search ++ after.

(** An edit that inserts at the cursor and replaces nothing. *)
Definition insertsAt (position : Position) (edit : TextEdit) : Prop :=
  edit_range edit = {| start := position; end_ := position |}.

(** One edit, which inserts at the top of the file an import line that the
    open document does not contain. *)
Definition addsMissingImport (textDocument : option TextDocument) (edits : list TextEdit)
  : Prop :=
  exists imports,
    edits = [ {| edit_range := {| start := {| line := 0; character := 0 |};
                                  end_ := {| line := 0; character := 0 |} |};
                 newText := imports |} ]
    /\ ~ (exists document,
            textDocument = Some document /\ occursIn imports (getText document)).

(** A completion item that overwrites nothing and repeats no import. *)
Definition onlyInserts (textDocument : option TextDocument) (position : Position)
    (item : CompletionItem) : Prop :=
  insertsAt position (textEdit item)
  /\ forall edits, additionalTextEdits item = Some edits ->
                   addsMissingImport textDocument edits.

(** ** Further fixtures *)

Module Examples.

(** Three lines: an address, an ENS name, and a private key without its
    [0x] prefix. *)
Definition note : TextDocumentLines :=
  Lines.createTextDocument "file:///note.txt"
    ("pay " ++ Fixtures.lowerAddress ++ " now" ++ String Lines.LF
       ("send to vitalik.eth soon" ++ String Lines.LF
          ("key: " ++ Fixtures.privateKey ++ String Lines.LF EmptyString))).

(** The server after a pass with Infura credentials, on a naming service
    with one record. *)
Definition configured : Server :=
  configure (fun _ => Fixtures.oneRecord) initialServer Fixtures.capOne.

(** A token lookup that finds no token. *)
Definition noToken : string -> Result (option Token) := fun _ => Ok None.

(** Hover text that only names the address. *)
Definition plainMarkdown : string -> Result string :=
  fun address => Ok ("Address: " ++ address).

(** A client that answers the first configuration request and rejects
    every later one. *)
Definition answers : nat -> string -> Result DefiSettings :=
  fun sent _ => if Nat.eqb sent 0 then Ok Fixtures.capOne else Throw "request failed".

(** The settings store once [file:///one.txt] was opened by a client with
    the configuration capability. *)
Definition opened : SettingsStore :=
  fst (getDocumentSettings answers (initialSettings true) "file:///one.txt").

(** Another document is opened and closed, then the first one changes. *)
Definition traffic : list Notification :=
  [ DidChangeContent "file:///two.txt"; DidClose "file:///two.txt";
    DidChangeContent "file:///one.txt" ].

(** The candidate of [Fixtures.oneAddress]. *)
Definition candidate : StringLocation :=
  {| range := {| start := {| line := 0; character := 6 |};
                 end_ := {| line := 0; character := 48 |} |};
     content := Fixtures.lowerAddress |}.

End Examples.

(** * Properties *)

(** A closed statement about a concrete run is settled by evaluation. *)
Ltac run := vm_compute; repeat apply conj; reflexivity.

(** A call that returns: name the value it reduces to. *)
Ltac returns := eexists; reflexivity.

(** ** The reference implementations against published vectors *)

Example keccak_empty :
  Keccak.sha3 "" = "c5d2460186f7233c927e7db2dcc703c0e500b653ca82273b7bfad8045d85a470".
Proof. run. Qed.

Example keccak_abc :
  Keccak.sha3 "abc" = "4e03657aea45a94fc7d47ba826c8d667c0d1e6e33a64a036ec44f58fa12d6c45".
Proof. run. Qed.

Example eip55_vectors :
  map Reference.toChecksumAddress
      [ "0x5aaeb6053f3e94c9b9a09f33669435e7ef1beaed";
        "0xFB6916095CA1DF60BB79CE92CE3EA74C37C5D359";
        "0xd8da6bf26964af9d7eed9e03e53415d37aa96045";
        "0xb8ce9ab6943e0eced004cde8e3bbed6568b2fa01" ]
  = [ Ok "0x5aAeb6053F3E94C9b9A09f33669435E7Ef1BeAed";
      Ok "0xfB6916095ca1df60bB79Ce92cE3Ea74c37c5d359";
      Ok "0xd8dA6BF26964aF9D7eEd9e03E53415D37aA96045";
      Ok "0xb8CE9ab6943e0eCED004cDe8e3bBed6568B2Fa01" ].
Proof. run. Qed.

Lemma reference_checksum_accepts_addresses (address : string) :
  Reference.isAddress address = true ->
  exists checksum, Reference.toChecksumAddress address = Ok checksum.
Proof.
  unfold Reference.isAddress, Reference.toChecksumAddress.
  destruct (Reference.addressShaped address); cbn [negb]; [|discriminate].
  intros _. returns.
Qed.

(** ** Strings *)

Lemma length_append (s t : string) :
  String.length (s ++ t) = String.length s + String.length t.
Proof. induction s as [|c s IH]; simpl; [reflexivity | now rewrite IH]. Qed.

Lemma substringFrom_append (s t : string) :
  substringFrom (String.length s) (s ++ t) = t.
Proof. induction s as [|c s IH]; simpl; auto. Qed.

Lemma takeString_append (s t : string) :
  takeString (String.length s) (s ++ t) = s.
Proof. induction s as [|c s IH]; simpl; [now destruct t | now rewrite IH]. Qed.

Lemma substringFrom_add (n k : nat) (s : string) :
  substringFrom k (substringFrom n s) = substringFrom (n + k) s.
Proof.
  revert s; induction n as [|n IH]; intros s; simpl; [reflexivity|].
  destruct s as [|c s]; [now destruct k | apply IH].
Qed.

Lemma substringFrom_length (n : nat) (s : string) :
  String.length (substringFrom n s) = String.length s - n.
Proof.
  revert s; induction n as [|n IH]; intros s; simpl; [lia|].
  destruct s as [|c s]; simpl; [reflexivity | apply IH].
Qed.

Lemma startsWith_append (p s : string) : startsWith (p ++ s) p = true.
Proof.
  induction p as [|c p IH]; simpl; [reflexivity|].
  now rewrite Ascii.eqb_refl, IH.
Qed.

Lemma startsWith_inv (s p : string) :
  startsWith s p = true -> s = p ++ substringFrom (String.length p) s.
Proof.
  revert s; induction p as [|c p IH]; intros s H; simpl in *.
  - reflexivity.
  - destruct s as [|d s]; [discriminate|].
    apply andb_prop in H as [Hc Hp]. apply Ascii.eqb_eq in Hc as ->.
    simpl. f_equal. now apply IH.
Qed.

(** ** The scanners *)

Lemma hexDigits_spec (n : nat) (s m rest : string) :
  hexDigits n s = Some (m, rest) ->
  s = m ++ rest /\ String.length m = n /\ allChars isHexDigit m = true.
Proof.
  revert s m rest; induction n as [|n IH]; intros s m rest H; simpl in H.
  - injection H as <- <-. auto.
  - destruct s as [|c s]; [discriminate|].
    destruct (isHexDigit c) eqn:Hc; [|discriminate].
    destruct (hexDigits n s) as [[m' rest']|] eqn:Hn; [|discriminate].
    injection H as <- <-.
    destruct (IH _ _ _ Hn) as (-> & <- & Hall).
    simpl. rewrite Hc, Hall. auto.
Qed.

Lemma matchShape_length (p : Pattern) (m : string) :
  matchShape p m -> String.length m = matchLength p.
Proof.
  destruct p; simpl.
  - intros (digits & -> & Hlen & _). simpl. now rewrite Hlen.
  - now intros [H _].
Qed.

Lemma matchHere_spec (p : Pattern) (s m : string) :
  matchHere p s = Some m ->
  matchShape p m /\ exists rest, s = m ++ rest.
Proof.
  intros H; destruct p; unfold matchHere in H; unfold matchShape.
  - destruct s as [|c0 [|c1 s]]; [discriminate| |].
    + destruct c0 as [[] [] [] [] [] [] [] []]; cbv beta iota in H; discriminate.
    + destruct c0 as [[] [] [] [] [] [] [] []]; cbv beta iota in H; try discriminate;
        destruct c1 as [[] [] [] [] [] [] [] []]; cbv beta iota in H; try discriminate.
      destruct (hexDigits 40 s) as [[digits rest]|] eqn:Hd; [|discriminate].
      destruct (wordBoundary _ _); [|discriminate].
      injection H as <-.
      destruct (hexDigits_spec _ _ _ _ Hd) as (-> & Hlen & Hall).
      split; [now exists digits | now exists rest].
  - destruct (hexDigits 64 s) as [[digits rest]|] eqn:Hd; [|discriminate].
    destruct (wordBoundary _ _); [|discriminate].
    injection H as <-.
    destruct (hexDigits_spec _ _ _ _ Hd) as (-> & Hlen & Hall).
    split; [now split | now exists rest].
Qed.

Lemma search_spec (p : Pattern) (s : string) (i index : nat) (m : string) :
  search p s i = Some (index, m) ->
  exists k, index = i + k /\ matchHere p (substringFrom k s) = Some m.
Proof.
  revert i; induction s as [|c s IH]; intros i H; simpl in H.
  - destruct (matchHere p "") eqn:Hm; [|discriminate].
    injection H as <- <-. exists 0. split; [lia | exact Hm].
  - destruct (matchHere p (String c s)) eqn:Hm.
    + injection H as <- <-. exists 0. split; [lia | exact Hm].
    + destruct (IH _ H) as (k & -> & Hk). exists (S k). split; [lia | exact Hk].
Qed.

(** A successful [exec] reports a match of the pattern at [index], at or
    after [lastIndex], and leaves [lastIndex] just past it, inside the text. *)
Lemma exec_spec (p : Pattern) (text : string) (lastIndex index lastIndex' : nat) (m : string) :
  exec p text lastIndex = (Some (index, m), lastIndex') ->
  lastIndex <= index
  /\ lastIndex' = index + matchLength p
  /\ lastIndex' <= String.length text
  /\ matchShape p m
  /\ exists rest, substringFrom index text = m ++ rest.
Proof.
  unfold exec. destruct (Nat.ltb _ _) eqn:Hlt; [discriminate|].
  destruct (search p _ lastIndex) as [[i m']|] eqn:Hs; [|discriminate].
  intros H; injection H as -> -> <-.
  destruct (search_spec _ _ _ _ _ Hs) as (k & -> & Hk).
  rewrite substringFrom_add in Hk.
  destruct (matchHere_spec _ _ _ Hk) as [Hshape [rest Hrest]].
  pose proof (matchShape_length _ _ Hshape) as Hlen.
  pose proof (f_equal String.length Hrest) as Hl.
  rewrite substringFrom_length, length_append in Hl.
  repeat split; try lia; try assumption.
  - destruct p; simpl in *; lia.
  - now exists rest.
Qed.

(** A property of the spans that holds for every match holds for the result. *)
Lemma scanLoop_Forall (P : StringLocation -> Prop) (p : Pattern)
    (contentOf : string -> string) (textDocument : TextDocument) :
  (forall index m rest,
      matchShape p m -> substringFrom index (getText textDocument) = m ++ rest ->
      P (locationOf contentOf textDocument index m)) ->
  forall fuel lastIndex problems locations result,
    Forall P locations ->
    scanLoop fuel p contentOf textDocument lastIndex problems locations = Some result ->
    Forall P result.
Proof.
  intros HP; induction fuel as [|fuel IH]; intros lastIndex problems locations result Hl H;
    simpl in H; [discriminate|].
  destruct (exec p (getText textDocument) lastIndex) as [[[index m]|] lastIndex'] eqn:He.
  - destruct (Nat.ltb problems 100).
    + apply IH in H; [exact H|].
      apply Forall_app; split; [exact Hl|]. constructor; [|constructor].
      destruct (exec_spec _ _ _ _ _ _ He) as (_ & _ & _ & Hshape & rest & Hrest).
      exact (HP _ _ _ Hshape Hrest).
    + now injection H as <-.
  - now injection H as <-.
Qed.

(** The loop leaves by itself: [exec] moves [lastIndex] forward at every
    match, so it is left before the fuel of [scan] is used up. *)
Lemma scanLoop_returns (p : Pattern) (contentOf : string -> string)
    (textDocument : TextDocument) :
  forall fuel lastIndex problems locations,
    String.length (getText textDocument) - lastIndex < fuel ->
    exists result,
      scanLoop fuel p contentOf textDocument lastIndex problems locations = Some result.
Proof.
  induction fuel as [|fuel IH]; intros lastIndex problems locations Hfuel; [lia|].
  simpl.
  destruct (exec p (getText textDocument) lastIndex) as [[[index m]|] lastIndex'] eqn:He.
  - destruct (Nat.ltb problems 100); [|eauto].
    destruct (exec_spec _ _ _ _ _ _ He) as (Hle & -> & Hin & _).
    apply IH. destruct p; simpl in *; lia.
  - eauto.
Qed.

Lemma scan_returns (p : Pattern) (contentOf : string -> string) (textDocument : TextDocument) :
  scanLoop (S (String.length (getText textDocument))) p contentOf textDocument 0 0 []
  = Some (scan p contentOf textDocument).
Proof.
  unfold scan.
  destruct (scanLoop_returns p contentOf textDocument
              (S (String.length (getText textDocument))) 0 0 []) as [result ->]; [lia|].
  reflexivity.
Qed.

Lemma scan_Forall (P : StringLocation -> Prop) (p : Pattern)
    (contentOf : string -> string) (textDocument : TextDocument) :
  (forall index m rest,
      matchShape p m -> substringFrom index (getText textDocument) = m ++ rest ->
      P (locationOf contentOf textDocument index m)) ->
  Forall P (scan p contentOf textDocument).
Proof.
  intros HP.
  eapply (scanLoop_Forall P p contentOf textDocument HP); [|apply scan_returns].
  constructor.
Qed.

(** *** Texts of separated tokens *)

Lemma append_assoc (s t u : string) : (s ++ t) ++ u = s ++ t ++ u.
Proof. induction s as [|c s IH]; simpl; [reflexivity | now rewrite IH]. Qed.

Lemma append_empty_r (s : string) : s ++ "" = s.
Proof. induction s as [|c s IH]; simpl; [reflexivity | now rewrite IH]. Qed.

Lemma hex_is_word (c : ascii) : isHexDigit c = true -> isWordChar c = true.
Proof. destruct c as [[] [] [] [] [] [] [] []]; vm_compute; congruence. Qed.

Lemma lastChar_hex (digits : string) :
  allChars isHexDigit digits = true -> digits <> "" -> isWord (lastChar digits) = true.
Proof.
  induction digits as [|c digits IH]; intros Hall Hne; [now destruct Hne|].
  cbn [allChars] in Hall. apply andb_prop in Hall as [Hc Hall].
  destruct digits as [|d digits]; [exact (hex_is_word c Hc)|].
  change (lastChar (String c (String d digits))) with (lastChar (String d digits)).
  apply IH; [exact Hall | discriminate].
Qed.

Lemma hexDigits_complete (digits rest : string) :
  allChars isHexDigit digits = true ->
  hexDigits (String.length digits) (digits ++ rest) = Some (digits, rest).
Proof.
  induction digits as [|c digits IH]; intros Hall; [reflexivity|].
  cbn [allChars] in Hall. apply andb_prop in Hall as [Hc Hall].
  cbn [String.length append hexDigits]. now rewrite Hc, (IH Hall).
Qed.

(** A token followed by something that is not a word character is a match. *)
Lemma matchHere_token (token rest : string) :
  matchShape AddressPattern token -> isWord (firstChar rest) = false ->
  matchHere AddressPattern (token ++ rest) = Some token.
Proof.
  intros (digits & -> & Hlen & Hall) Hrest.
  unfold matchHere. cbn [append]. cbv beta iota.
  rewrite <- Hlen, (hexDigits_complete digits rest Hall).
  unfold wordBoundary. rewrite Hrest, lastChar_hex; [reflexivity | exact Hall|].
  intros ->. discriminate Hlen.
Qed.

(** No match starts at a character that is not a word character. *)
Lemma matchHere_gap (c : ascii) (s : string) :
  isWordChar c = false -> matchHere AddressPattern (String c s) = None.
Proof.
  intros Hc. destruct (matchHere AddressPattern (String c s)) as [m|] eqn:Hm; [|reflexivity].
  destruct (matchHere_spec _ _ _ Hm) as [(digits & -> & _) [rest Hrest]].
  injection Hrest as -> _. discriminate Hc.
Qed.

Lemma search_gap (gap s : string) (index : nat) :
  isGap gap = true ->
  search AddressPattern (gap ++ s) index = search AddressPattern s (index + String.length gap).
Proof.
  revert index; induction gap as [|c gap IH]; intros index Hgap.
  - cbn [append String.length]. now rewrite Nat.add_0_r.
  - unfold isGap in Hgap. cbn [allChars] in Hgap. apply andb_prop in Hgap as [Hc Hgap].
    apply negb_true_iff in Hc.
    cbn [append search String.length]. rewrite (matchHere_gap c _ Hc), (IH _ Hgap).
    f_equal. lia.
Qed.

Lemma isGap_firstChar (gap rest : string) :
  isGap gap = true -> gap <> "" -> isWord (firstChar (gap ++ rest)) = false.
Proof.
  destruct gap as [|c gap]; intros Hgap Hne; [now destruct Hne|].
  unfold isGap in Hgap. cbn [allChars] in Hgap. apply andb_prop in Hgap as [Hc _].
  now apply negb_true_iff in Hc.
Qed.

Lemma exec_search (p : Pattern) (text : string) (lastIndex : nat) :
  exec p text lastIndex
  = match search p (substringFrom lastIndex text) lastIndex with
    | Some (index, m) => (Some (index, m), index + String.length m)
    | None => (None, 0)
    end.
Proof.
  unfold exec. destruct (Nat.ltb_spec (String.length text) lastIndex) as [Hlt|_]; [|reflexivity].
  assert (Hempty : substringFrom lastIndex text = "").
  { pose proof (substringFrom_length lastIndex text) as Hl.
    destruct (substringFrom lastIndex text); [reflexivity | simpl in Hl; lia]. }
  rewrite Hempty. now destruct p.
Qed.

Lemma wellSeparated_length (pieces : list (string * string)) :
  wellSeparated pieces -> List.length pieces <= String.length (render pieces).
Proof.
  induction pieces as [|[token gap] pieces IH]; [simpl; lia|].
  intros (Htoken & _ & _ & Hrest). cbn [render List.length].
  rewrite !length_append, (matchShape_length _ _ Htoken). specialize (IH Hrest).
  simpl. lia.
Qed.

(** The loop on a text that continues, from [lastIndex], with a gap and
    separated tokens: every token is pushed, whatever their number. *)
Lemma scanLoop_separated (textDocument : TextDocument) :
  forall pieces fuel lastIndex locations gap,
    substringFrom lastIndex (getText textDocument) = gap ++ render pieces ->
    isGap gap = true -> wellSeparated pieces -> List.length pieces < fuel ->
    scanLoop fuel AddressPattern (fun m => m) textDocument lastIndex 0 locations
    = Some (locations
            ++ expectedSpans textDocument (lastIndex + String.length gap) pieces)%list.
Proof.
  induction pieces as [|[token gap'] pieces IH];
    intros fuel lastIndex locations gap Htext Hgap Hwf Hfuel;
    (destruct fuel as [|fuel]; [simpl in Hfuel; lia|]);
    cbn [scanLoop]; rewrite exec_search, Htext, search_gap by exact Hgap.
  - cbn [render search]. change (matchHere AddressPattern "") with (@None string).
    cbn [expectedSpans]. now rewrite app_nil_r.
  - destruct Hwf as (Htoken & Hgap' & Hlast & Hwf).
    pose proof (matchShape_length _ _ Htoken) as Hlen. cbn [matchLength] in Hlen.
    assert (Hmatch : matchHere AddressPattern (render ((token, gap') :: pieces)) = Some token).
    { cbn [render]. apply matchHere_token; [exact Htoken|].
      destruct gap' as [|c gap']; [|now apply isGap_firstChar].
      now rewrite (Hlast eq_refl). }
    destruct (render ((token, gap') :: pieces)) eqn:Hrender;
      cbn [search]; rewrite Hmatch; cbn [Nat.ltb Nat.leb];
      rewrite Hlen;
      (rewrite (IH fuel _ _ gap' ); [ | | exact Hgap' | exact Hwf | simpl in Hfuel; lia ]).
    1,3: cbn [expectedSpans]; unfold locationOf; rewrite Hlen, <- app_assoc; reflexivity.
    all: rewrite <- Hrender in *; cbn [render] in Htext;
      rewrite <- !append_assoc in Htext;
      replace (lastIndex + String.length gap + 42)
        with (lastIndex + String.length ((gap ++ token)%string))
        by (rewrite length_append; lia);
      rewrite <- substringFrom_add, Htext; rewrite append_assoc; apply substringFrom_append.
Qed.

(** X1. On a text of separated address tokens (each [0x] and 40 hex digits,
    followed by characters that are not word characters)
    [findPossibleEthereumAddresses] returns the span of every token, in
    order, with the token as content and its offsets as range; their number
    is the number of tokens, however large. *)
Theorem scanner_finds_every_separated_token (textDocument : TextDocument)
    (gap : string) (pieces : list (string * string)) :
  getText textDocument = gap ++ render pieces ->
  isGap gap = true ->
  wellSeparated pieces ->
  findPossibleEthereumAddresses textDocument
  = expectedSpans textDocument (String.length gap) pieces
  /\ List.length (findPossibleEthereumAddresses textDocument) = List.length pieces.
Proof.
  intros Htext Hgap Hwf.
  assert (Hscan : findPossibleEthereumAddresses textDocument
                  = expectedSpans textDocument (String.length gap) pieces).
  { unfold findPossibleEthereumAddresses, scan.
    rewrite (scanLoop_separated textDocument pieces _ 0 [] gap); [reflexivity| | | |].
    - exact Htext.
    - exact Hgap.
    - exact Hwf.
    - pose proof (wellSeparated_length pieces Hwf) as Hlen.
      rewrite Htext, length_append. lia. }
  split; [exact Hscan|]. rewrite Hscan. clear.
  generalize (String.length gap). induction pieces as [|[token gap'] pieces IH]; intros offset;
    cbn [expectedSpans List.length]; [reflexivity | now rewrite IH].
Qed.

Lemma hex_not_0x_prefixed (m : string) :
  allChars isHexDigit m = true -> startsWith m "0x" = false.
Proof.
  destruct m as [|a [|b m]]; intros H; cbn [startsWith].
  - reflexivity.
  - apply andb_false_r.
  - cbn [allChars] in H.
    apply andb_prop in H as [_ H]. apply andb_prop in H as [H _].
    destruct (Ascii.eqb "x" b) eqn:Hb.
    + apply Ascii.eqb_eq in Hb as <-. discriminate H.
    + now rewrite andb_false_r.
Qed.

Lemma normalizeHex_hex (m : string) :
  allChars isHexDigit m = true -> normalizeHex m = "0x" ++ m.
Proof. intros H. unfold normalizeHex. now rewrite (hex_not_0x_prefixed m H). Qed.

Lemma slice_match (index n : nat) (text m rest : string) :
  substringFrom index text = m ++ rest -> String.length m = n ->
  slice index (index + n) text = m.
Proof.
  intros Hm <-. unfold slice.
  replace (index + String.length m - index) with (String.length m) by lia.
  rewrite Hm. apply takeString_append.
Qed.

(** C10. Every span of [findPossiblePrivateKeys] has as content [0x] followed
    by the 64 hex digits that were matched, while its range covers those 64
    characters only; the content is therefore never the text at the range.
    A span of [findPossibleEthereumAddresses] has the matched text itself as
    content. *)
Theorem private_key_span_content_is_prefixed (textDocument : TextDocument) :
  Forall (fun location =>
            exists index m,
              range location = {| start := positionAt textDocument index;
                                  end_ := positionAt textDocument (index + 64) |}
              /\ slice index (index + 64) (getText textDocument) = m
              /\ String.length m = 64 /\ allChars isHexDigit m = true
              /\ content location = "0x" ++ m
              /\ content location <> slice index (index + 64) (getText textDocument))
         (findPossiblePrivateKeys textDocument)
  /\ Forall (fun location =>
               exists index,
                 range location = {| start := positionAt textDocument index;
                                     end_ := positionAt textDocument (index + 42) |}
                 /\ content location = slice index (index + 42) (getText textDocument))
            (findPossibleEthereumAddresses textDocument).
Proof.
  split.
  - apply scan_Forall. intros index m rest [Hlen Hall] Hm.
    exists index, m. unfold locationOf; simpl. rewrite Hlen.
    pose proof (slice_match _ _ _ _ _ Hm Hlen) as Hs.
    rewrite Hs, (normalizeHex_hex m Hall).
    repeat split; try assumption.
    intros Heq. apply (f_equal String.length) in Heq. simpl in Heq. lia.
  - apply scan_Forall. intros index m rest Hshape Hm.
    pose proof (matchShape_length _ _ Hshape) as Hlen. simpl in Hlen.
    exists index. unfold locationOf; simpl. rewrite Hlen.
    now rewrite (slice_match _ _ _ _ _ Hm Hlen).
Qed.

(** ** ENS lookups *)

Section Lookups.

Context {web3 : Web3Utils}.

Lemma ENSLookup_absorbs_rejection (client : ENS) (name : string) (found : Resolver) :
  resolver client name = Ok found ->
  (exists answer, ENSLookup (Some client) name = Ok answer)
  /\ (forall e, resolver_addr found = Throw e -> ENSLookup (Some client) name = Ok "")
  /\ (resolver_addr found = Ok ZERO_ADDRESS -> ENSLookup (Some client) name = Ok "")
  /\ (forall answer,
        ENSLookup (Some client) name = Ok answer -> answer <> "" ->
        resolver_addr found = Ok answer /\ answer <> ZERO_ADDRESS).
Proof.
  intros Hfound. unfold ENSLookup; cbv zeta. rewrite Hfound. cbn [bind].
  destruct (resolver_addr found) as [addr|e] eqn:Hr; simpl.
  - destruct (String.eqb_spec addr ZERO_ADDRESS) as [->|Hz]; simpl.
    + split; [eauto|]. split; [discriminate|]. split; [reflexivity|].
      intros answer H Hne. injection H as <-. now destruct Hne.
    + split; [eauto|]. split; [discriminate|]. split.
      * intros H. injection H as ->. now destruct Hz.
      * intros answer H _. now injection H as <-.
  - split; [eauto|]. split; [reflexivity|]. split; [discriminate|].
    intros answer H Hne. injection H as <-. now destruct Hne.
Qed.

(** C5. [ENSLookup] does throw.  The [.catch] handler absorbs the rejection
    of the promise of [addr()] only; the call [ens.resolver(name)] is
    evaluated before that promise exists.  A server that has no ENS client
    yet throws the [TypeError] of reading [ens.resolver] for every name, and
    with a client whatever the call [ens.resolver(name)] throws is thrown by
    [ENSLookup]: the freshly started server fails on [vitalik.eth], and a
    client that refuses names it cannot normalise fails on [foo_bar.eth] and
    on a blank.  Only when the call returns a resolver is a failure absorbed:
    a rejected promise and the zero address then give the empty string. *)
Theorem ENSLookup_throws_before_the_promise :
  (forall name, ENSLookup None name = Throw (ensUndefined "resolver"))
  /\ (forall client name e,
        resolver client name = Throw e -> ENSLookup (Some client) name = Throw e)
  /\ ENSLookup (ens initialServer) "vitalik.eth"
     = Throw "TypeError: Cannot read property 'resolver' of undefined"
  /\ ENSLookup (Some Fixtures.refusing) "foo_bar.eth"
     = Throw "Error: Illegal char in foo_bar.eth"
  /\ ENSLookup (Some Fixtures.refusing) " " = Throw "Error: Illegal char in  "
  /\ ENSLookup (Some Fixtures.refusing) "nobody.eth" = Ok ""
  /\ (forall client name found,
        resolver client name = Ok found ->
        (forall e, resolver_addr found = Throw e -> ENSLookup (Some client) name = Ok "")
        /\ (resolver_addr found = Ok ZERO_ADDRESS -> ENSLookup (Some client) name = Ok "")).
Proof.
  split; [reflexivity|].
  split; [intros client name e H; unfold ENSLookup; cbv zeta; now rewrite H|].
  split; [reflexivity|]. split; [reflexivity|]. split; [reflexivity|].
  split; [reflexivity|].
  intros client name found Hfound.
  destruct (ENSLookup_absorbs_rejection client name found Hfound) as (_ & H1 & H2 & _).
  now split.
Qed.

Lemma reverseENSLookup_returns (client : ENS) (address : string) :
  exists name, reverseENSLookup (Some client) address = Ok name.
Proof.
  unfold reverseENSLookup, catch, bind; cbv zeta.
  destruct (reverse_name client address) as [name|]; [|returns].
  destruct (ENSLookup (Some client) name) as [addr|]; [|returns].
  destruct (toChecksumAddress address); [|returns].
  destruct (toChecksumAddress addr); returns.
Qed.

(** C4. With an ENS client in place, [reverseENSLookup] always returns, and
    it returns a non-empty name exactly when the reverse record gave that
    name and the forward lookup of the name gave an address with the same
    checksum form as the queried address.  In particular a forward lookup
    that failed (it then yields the empty string, which [toChecksumAddress]
    rejects) makes the result empty. *)
Theorem reverse_lookup_is_confirmed_by_forward_lookup (client : ENS) (address : string) :
  (exists answer, reverseENSLookup (Some client) address = Ok answer)
  /\ (forall name,
        name <> "" ->
        reverseENSLookup (Some client) address = Ok name <->
        reverse_name client address = Ok name
        /\ exists addr checksum,
             ENSLookup (Some client) name = Ok addr
             /\ toChecksumAddress address = Ok checksum
             /\ toChecksumAddress addr = Ok checksum)
  /\ (forall name e,
        toChecksumAddress "" = Throw e ->
        reverse_name client address = Ok name ->
        ENSLookup (Some client) name = Ok "" ->
        reverseENSLookup (Some client) address = Ok "").
Proof.
  split; [apply reverseENSLookup_returns|]. split.
  - intros name Hne. unfold reverseENSLookup, catch, bind; cbv zeta.
    destruct (reverse_name client address) as [name'|e] eqn:Hrev.
    2:{ split; [intros H; injection H as <-; now destruct Hne | intros [H _]; discriminate]. }
    destruct (ENSLookup (Some client) name') as [addr|e] eqn:Hfwd.
    2:{ split; [intros H; injection H as <-; now destruct Hne|].
        intros [H (addr & c & Ha & _)]. injection H as ->. congruence. }
    destruct (toChecksumAddress address) as [mine|e] eqn:Hmine.
    2:{ split; [intros H; injection H as <-; now destruct Hne|].
        intros [_ (addr' & c & _ & Hc & _)]. discriminate. }
    destruct (toChecksumAddress addr) as [theirs|e] eqn:Htheirs.
    2:{ split; [intros H; injection H as <-; now destruct Hne|].
        intros [H (addr' & c & Ha & _ & Hc)]. injection H as ->. congruence. }
    destruct (String.eqb_spec mine theirs) as [->|Hdiff].
    + split.
      * intros H. injection H as ->. split; [reflexivity|]. now exists addr, theirs.
      * now intros [H _].
    + split; [intros H; injection H as <-; now destruct Hne|].
      intros [H (addr' & c & Ha & Hc1 & Hc2)]. injection H as ->. congruence.
  - intros name e Hempty Hrev Hfwd. unfold reverseENSLookup, catch, bind; cbv zeta.
    rewrite Hrev, Hfwd.
    destruct (toChecksumAddress address); [|reflexivity].
    now rewrite Hempty.
Qed.

End Lookups.

(** ** Private keys *)


(** ** Quick fixes *)

(** A loop that only pushes: the array afterwards is the array before,
    followed by what each element contributed. *)
Lemma fold_left_push {A B : Type} (step : list B -> A -> list B) (f : A -> list B) :
  (forall acc x, step acc x = (acc ++ f x)%list) ->
  forall l acc, fold_left step l acc = (acc ++ flat_map f l)%list.
Proof.
  intros Hstep; induction l as [|x l IH]; intros acc; simpl.
  - now rewrite app_nil_r.
  - now rewrite IH, Hstep, <- app_assoc.
Qed.

Lemma pushQuickFix_app (textDocument : TextDocument) (codeActions : list CodeAction)
    (diagnostic : Diagnostic) :
  pushQuickFix textDocument codeActions diagnostic
  = (codeActions ++ pushQuickFix textDocument [] diagnostic)%list.
Proof.
  unfold pushQuickFix.
  destruct (startsWith _ DIAGNOSTIC_TYPE_NOT_CHECKSUM_ADDRESS); [reflexivity|].
  destruct (startsWith _ DIAGNOSTIC_TYPE_CONVERT_ENS_NAME); [reflexivity|].
  now rewrite app_nil_r.
Qed.

Lemma getCodeActions_flat_map (diagnostics : list Diagnostic) (textDocument : TextDocument) :
  getCodeActions diagnostics textDocument
  = flat_map (fun diagnostic => getCodeActions [diagnostic] textDocument) diagnostics.
Proof.
  unfold getCodeActions.
  rewrite (fold_left_push _ (pushQuickFix textDocument [])) by apply pushQuickFix_app.
  reflexivity.
Qed.

(** No string starts with both prefixes. *)
Lemma prefixes_exclusive (s : string) :
  startsWith s DIAGNOSTIC_TYPE_NOT_CHECKSUM_ADDRESS = true ->
  startsWith s DIAGNOSTIC_TYPE_CONVERT_ENS_NAME = false.
Proof.
  destruct s as [|c s]; [discriminate|].
  unfold DIAGNOSTIC_TYPE_NOT_CHECKSUM_ADDRESS, DIAGNOSTIC_TYPE_CONVERT_ENS_NAME.
  cbn [startsWith]. intros H. apply andb_prop in H as [H _].
  apply Ascii.eqb_eq in H as <-. reflexivity.
Qed.

(** C7. For an open document the handler answers with [getCodeActions].
    The actions for a list of diagnostics are the actions of each, in
    order.  A diagnostic whose code is a recognized prefix followed by
    [replacement] gives exactly one quick fix, whose edit holds the single
    replacement of the diagnostic's range by [replacement], under the
    document's URI; a diagnostic whose code starts with neither prefix
    gives none. *)
Theorem quick_fix_replaces_diagnostic_range (textDocument : TextDocument) :
  (forall diagnostics,
      onCodeAction (Some textDocument) diagnostics = getCodeActions diagnostics textDocument)
  /\ (forall diagnostics,
      getCodeActions diagnostics textDocument
      = flat_map (fun diagnostic => getCodeActions [diagnostic] textDocument) diagnostics)
  /\ (forall diagnostic prefix replacement,
        In prefix [DIAGNOSTIC_TYPE_NOT_CHECKSUM_ADDRESS; DIAGNOSTIC_TYPE_CONVERT_ENS_NAME] ->
        String_ (code diagnostic) = prefix ++ replacement ->
        exists title,
          getCodeActions [diagnostic] textDocument
          = [ {| title := title;
                 kind := QuickFix;
                 edit := {| changes :=
                              [ (uri textDocument,
                                 [ {| edit_range := diag_range diagnostic;
                                      newText := replacement |} ]) ] |};
                 action_diagnostics := [diagnostic] |} ])
  /\ (forall diagnostic,
        startsWith (String_ (code diagnostic)) DIAGNOSTIC_TYPE_NOT_CHECKSUM_ADDRESS = false ->
        startsWith (String_ (code diagnostic)) DIAGNOSTIC_TYPE_CONVERT_ENS_NAME = false ->
        getCodeActions [diagnostic] textDocument = []).
Proof.
  split; [reflexivity|].
  split; [intros; apply getCodeActions_flat_map|]. split.
  - intros diagnostic prefix replacement Hin Hcode.
    unfold getCodeActions, pushQuickFix; cbn [fold_left]; cbv zeta.
    destruct Hin as [<-|[<-|[]]].
    + rewrite Hcode, startsWith_append, substringFrom_append.
      returns.
    + pose proof (startsWith_append DIAGNOSTIC_TYPE_CONVERT_ENS_NAME replacement) as Hens.
      rewrite Hcode.
      destruct (startsWith _ DIAGNOSTIC_TYPE_NOT_CHECKSUM_ADDRESS) eqn:Hsum.
      * apply prefixes_exclusive in Hsum. congruence.
      * rewrite Hens, substringFrom_append. returns.
  - intros diagnostic Hsum Hens.
    unfold getCodeActions, pushQuickFix; cbn [fold_left]; cbv zeta.
    now rewrite Hsum, Hens.
Qed.

(** ** Code lenses *)

Lemma isPrivateKey_returns {keys : KeyLibrary} (possiblePrivateKey : string) :
  exists answer, isPrivateKey possiblePrivateKey = Ok answer.
Proof.
  unfold isPrivateKey, catch, bind.
  destruct (toBuffer possiblePrivateKey) as [buffer|]; [|returns].
  destruct (fromPrivateKey buffer); returns.
Qed.

Lemma pushEthereumAddressCodeLenses_app (codeLensType : string) (range : Range)
    (content : string) (codeLenses : list CodeLens) :
  pushEthereumAddressCodeLenses codeLensType range content codeLenses
  = (codeLenses ++ lensPerNetwork codeLensType range content)%list.
Proof.
  unfold pushEthereumAddressCodeLenses, lensPerNetwork, NETWORKS.
  cbn [fold_left map]. now rewrite <- !app_assoc.
Qed.

Section CodeLenses.

Context {web3 : Web3Utils} {keys : KeyLibrary}.

Lemma pushAddressLenses_app (codeLenses : list CodeLens) (element : StringLocation) :
  pushAddressLenses codeLenses element = (codeLenses ++ addressLenses element)%list.
Proof.
  unfold pushAddressLenses, addressLenses.
  destruct (isValidEthereumAddress (content element)).
  - apply pushEthereumAddressCodeLenses_app.
  - now rewrite app_nil_r.
Qed.

Lemma pushPrivateKeyLenses_app (codeLenses : list CodeLens) (element : StringLocation) :
  (isPrivateKey (content element) = Ok true ->
   exists address, toPublicKey (content element) = Ok address) ->
  pushPrivateKeyLenses (Ok codeLenses) element
  = Ok (codeLenses ++ privateKeyLenses element)%list.
Proof.
  intros Hderive. unfold pushPrivateKeyLenses, privateKeyLenses, bind.
  destruct (isPrivateKey_returns (content element)) as [[|] Hkey]; rewrite Hkey.
  - destruct (Hderive Hkey) as [address ->].
    now rewrite pushEthereumAddressCodeLenses_app.
  - now rewrite app_nil_r.
Qed.

Lemma fold_pushPrivateKeyLenses (elements : list StringLocation) :
  (forall element,
      In element elements -> isPrivateKey (content element) = Ok true ->
      exists address, toPublicKey (content element) = Ok address) ->
  forall codeLenses,
    fold_left pushPrivateKeyLenses elements (Ok codeLenses)
    = Ok (codeLenses ++ flat_map privateKeyLenses elements)%list.
Proof.
  induction elements as [|element elements IH]; intros Hderive codeLenses;
    cbn [fold_left flat_map].
  - now rewrite app_nil_r.
  - rewrite pushPrivateKeyLenses_app by (apply Hderive; now left).
    rewrite IH, <- app_assoc; [reflexivity|].
    intros e He. apply Hderive. now right.
Qed.

(** C8. When every private-key span that passes [isPrivateKey] derives to an
    address, the code-lens handler returns, for an open document, the lenses
    of the valid address spans followed by those of the private-key spans,
    in scan order: for each such span one lens per network of [NETWORKS],
    five in all, each on the span's range and without a command (the
    handler takes no ENS client and no market API: names and tokens are
    looked up when a lens is resolved). *)
Theorem code_lens_per_network (textDocument : TextDocument) :
  (forall element,
      In element (findPossiblePrivateKeys textDocument) ->
      isPrivateKey (content element) = Ok true ->
      exists address, toPublicKey (content element) = Ok address) ->
  onCodeLens (Some textDocument)
  = Ok (flat_map addressLenses (findPossibleEthereumAddresses textDocument)
        ++ flat_map privateKeyLenses (findPossiblePrivateKeys textDocument))%list
  /\ (forall element,
        isValidEthereumAddress (content element) = true ->
        addressLenses element
        = lensPerNetwork CODE_LENS_TYPE_ETH_ADDRESS (range element) (content element))
  /\ (forall element address,
        isPrivateKey (content element) = Ok true ->
        toPublicKey (content element) = Ok address ->
        privateKeyLenses element
        = lensPerNetwork CODE_LENS_TYPE_ETH_PRIVATE_KEY (range element) address)
  /\ (forall codeLensType range content,
        lensPerNetwork codeLensType range content
        = map (fun network =>
                 {| lens_range := range; lens_command := None;
                    lens_data := [codeLensType; network; content] |})
              ["mainnet"; "ropsten"; "kovan"; "rinkeby"; "goerli"]).
Proof.
  intros Hderive. split; [|split; [|split]].
  - unfold onCodeLens.
    rewrite (fold_left_push _ addressLenses) by apply pushAddressLenses_app.
    now rewrite fold_pushPrivateKeyLenses.
  - intros element Hvalid. unfold addressLenses. now rewrite Hvalid.
  - intros element address Hkey Haddress. unfold privateKeyLenses.
    now rewrite Hkey, Haddress.
  - reflexivity.
Qed.

End CodeLenses.

(** ** The validation pass *)

Section Validation.

Context {web3 : Web3Utils}.

(** An iteration only pushes: what it adds does not depend on the array. *)
Lemma validateElement_app (server : Server) (textDocument : TextDocument)
    (diagnostics : list Diagnostic) (element : StringLocation) :
  validateElement server textDocument diagnostics element
  = (contribution <- validateElement server textDocument [] element ;;
     Ok (diagnostics ++ contribution)%list).
Proof.
  unfold validateElement, addDiagnostic, bind.
  destruct (isValidEthereumAddress (content element)); cbn [negb].
  2:{ reflexivity. }
  destruct (toChecksumAddress (content element)) as [checksumAddress|]; [|reflexivity].
  destruct (reverseENSLookup (ens server) (content element)) as [ensName|]; [|reflexivity].
  destruct (negb (String.eqb (content element) checksumAddress)),
           (negb (String.eqb ensName "")); cbn [app];
    now rewrite <- ?app_assoc, ?app_nil_r.
Qed.

(** An iteration adds at most two diagnostics. *)
Lemma validateElement_length (server : Server) (textDocument : TextDocument)
    (element : StringLocation) (contribution : list Diagnostic) :
  validateElement server textDocument [] element = Ok contribution ->
  List.length contribution <= 2.
Proof.
  unfold validateElement, addDiagnostic, bind.
  destruct (isValidEthereumAddress (content element)); cbn [negb].
  2:{ intros H; injection H as <-. simpl. lia. }
  destruct (toChecksumAddress (content element)) as [checksumAddress|]; [|discriminate].
  destruct (reverseENSLookup (ens server) (content element)) as [ensName|]; [|discriminate].
  destruct (negb (String.eqb (content element) checksumAddress)),
           (negb (String.eqb ensName "")); intros H; injection H as <-; simpl; lia.
Qed.

(** The pass as a whole: the elements under the cap each contribute, in scan
    order, and nothing else reaches the array. *)
Lemma validateLoop_contributions (server : Server) (textDocument : TextDocument) (cap : Z) :
  forall elements problems diagnostics result,
    validateLoop server textDocument cap elements problems diagnostics = Ok result ->
    exists contributions,
      result = (diagnostics ++ concat contributions)%list
      /\ Forall2 (fun element contribution =>
                    validateElement server textDocument [] element = Ok contribution)
                 (firstn (Z.to_nat cap - problems) elements) contributions.
Proof.
  induction elements as [|element elements IH]; intros problems diagnostics result H;
    cbn [validateLoop] in H.
  - injection H as <-. exists []. rewrite firstn_nil, app_nil_r. split; [reflexivity|constructor].
  - destruct (Z.ltb_spec (Z.of_nat problems) cap) as [Hlt|Hge].
    + rewrite validateElement_app in H. unfold bind in H.
      destruct (validateElement server textDocument [] element) as [contribution|] eqn:He;
        [|discriminate].
      destruct (IH _ _ _ H) as (contributions & -> & Hall).
      exists (contribution :: contributions).
      replace (Z.to_nat cap - problems) with (S (Z.to_nat cap - S problems)) by lia.
      cbn [firstn concat]. split; [now rewrite <- app_assoc|].
      constructor; assumption.
    + destruct (IH _ _ _ H) as (contributions & -> & Hall).
      replace (Z.to_nat cap - problems) with 0 in * by lia.
      rewrite firstn_O in Hall. inversion Hall; subst.
      exists []. split; [reflexivity|constructor].
Qed.

(** Elements past the cap are not looked at. *)
Lemma validateLoop_firstn (server : Server) (textDocument : TextDocument) (cap : Z) :
  forall elements problems diagnostics,
    validateLoop server textDocument cap elements problems diagnostics
    = validateLoop server textDocument cap
        (firstn (Z.to_nat cap - problems) elements) problems diagnostics.
Proof.
  induction elements as [|element elements IH]; intros problems diagnostics.
  - now rewrite firstn_nil.
  - cbn [validateLoop].
    destruct (Z.ltb_spec (Z.of_nat problems) cap) as [Hlt|Hge].
    + replace (Z.to_nat cap - problems) with (S (Z.to_nat cap - S problems)) by lia.
      cbn [firstn validateLoop].
      destruct (Z.ltb_spec (Z.of_nat problems) cap) as [_|]; [|lia].
      unfold bind. destruct (validateElement _ _ _ _); [apply IH | reflexivity].
    + replace (Z.to_nat cap - problems) with 0 by lia.
      rewrite IH. replace (Z.to_nat cap - problems) with 0 by lia.
      now rewrite !firstn_O.
Qed.

Lemma concat_length_bound {A : Type} (n : nat) (ls : list (list A)) :
  Forall (fun l => List.length l <= n) ls ->
  List.length (concat ls) <= n * List.length ls.
Proof.
  induction 1 as [|l ls Hl _ IH]; simpl; [lia|].
  rewrite length_app. nia.
Qed.

Lemma Forall2_nth_error_left {A B : Type} (R : A -> B -> Prop) (l : list A) (l' : list B) :
  Forall2 R l l' ->
  forall n a, nth_error l n = Some a -> exists b, nth_error l' n = Some b /\ R a b.
Proof.
  induction 1 as [|x y l l' Hxy _ IH]; intros n a Hn.
  - now destruct n.
  - destruct n as [|n]; simpl in *.
    + injection Hn as <-. now exists y.
    + now apply IH.
Qed.

(** What a pass that publishes has published. *)
Lemma published_contributions (net : Network) (server : Server) (settings : DefiSettings)
    (textDocument : TextDocument) (params : PublishDiagnosticsParams) :
  snd (validateTextDocument net server settings textDocument) = Ok params ->
  exists contributions,
    diagnostics params = concat contributions
    /\ Forall2 (fun element contribution =>
                  validateElement (configure net server settings) textDocument [] element
                  = Ok contribution)
               (firstn (Z.to_nat (maxNumberOfProblems settings))
                       (findPossibleEthereumAddresses textDocument))
               contributions.
Proof.
  unfold validateTextDocument; cbn [snd]; unfold bind. intros H.
  destruct (validateLoop _ _ _ _ 0 []) as [result|] eqn:Hloop; [|discriminate].
  injection H as <-. cbn [diagnostics].
  destruct (validateLoop_contributions _ _ _ _ _ _ _ Hloop) as (contributions & -> & Hall).
  rewrite Nat.sub_0_r in Hall. now exists contributions.
Qed.

(** With an ENS client in place nothing in an iteration throws, whatever
    the naming service answers, as long as [toChecksumAddress] accepts what
    [isAddress] accepts. *)
Lemma validateElement_returns (server : Server) (textDocument : TextDocument)
    (diagnostics : list Diagnostic) (element : StringLocation) (client : ENS) :
  ens server = Some client ->
  (forall address, isAddress address = true ->
                   exists checksum, toChecksumAddress address = Ok checksum) ->
  exists result, validateElement server textDocument diagnostics element = Ok result.
Proof.
  intros Hens Hsum. unfold validateElement, isValidEthereumAddress, bind.
  destruct (isAddress (content element)) eqn:Hvalid; cbn [negb]; [|returns].
  destruct (Hsum _ Hvalid) as [checksum ->].
  rewrite Hens. destruct (reverseENSLookup_returns client (content element)) as [name ->].
  returns.
Qed.

Lemma validateLoop_returns (server : Server) (textDocument : TextDocument) (cap : Z)
    (client : ENS) :
  ens server = Some client ->
  (forall address, isAddress address = true ->
                   exists checksum, toChecksumAddress address = Ok checksum) ->
  forall elements problems diagnostics,
    exists result,
      validateLoop server textDocument cap elements problems diagnostics = Ok result.
Proof.
  intros Hens Hsum; induction elements as [|element elements IH]; intros problems diagnostics;
    cbn [validateLoop].
  - returns.
  - destruct (Z.ltb (Z.of_nat problems) cap); [|apply IH].
    destruct (validateElement_returns server textDocument diagnostics element client Hens Hsum)
      as [result ->].
    cbn [bind]. apply IH.
Qed.

(** X2. A pass whose server holds an ENS client publishes, whatever the
    naming service answers or fails to answer. *)
Lemma pass_publishes_with_ens_client (net : Network) (server : Server)
    (settings : DefiSettings) (textDocument : TextDocument) (client : ENS) :
  ens (configure net server settings) = Some client ->
  (forall address, isAddress address = true ->
                   exists checksum, toChecksumAddress address = Ok checksum) ->
  exists params, snd (validateTextDocument net server settings textDocument) = Ok params.
Proof.
  intros Hens Hsum. unfold validateTextDocument; cbn [snd].
  destruct (validateLoop_returns _ textDocument (maxNumberOfProblems settings) client Hens Hsum
              (findPossibleEthereumAddresses textDocument) 0 []) as [result ->].
  returns.
Qed.

(** The pass installs a client as soon as the project id is set. *)
Lemma configure_installs_client (net : Network) (server : Server) (settings : DefiSettings) :
  infuraProjectId settings <> "" ->
  exists client, ens (configure net server settings) = Some client.
Proof.
  intros Hid. unfold configure.
  destruct (String.eqb_spec (infuraProjectId settings) "") as [Heq|_]; [now destruct Hid|].
  cbn [orb]. destruct (String.eqb (amberdataApiKey settings) ""); returns.
Qed.

(** Without a client the pass is rejected at the first candidate that is a
    valid address, provided the cap lets it be examined. *)
Lemma pass_without_client_aborts (net : Network) (server : Server) (settings : DefiSettings)
    (textDocument : TextDocument) (element : StringLocation) (rest : list StringLocation)
    (checksum : string) :
  ens (configure net server settings) = None ->
  findPossibleEthereumAddresses textDocument = element :: rest ->
  (0 < maxNumberOfProblems settings)%Z ->
  isAddress (content element) = true ->
  toChecksumAddress (content element) = Ok checksum ->
  snd (validateTextDocument net server settings textDocument)
  = Throw (ensUndefined "reverse").
Proof.
  intros Hens Hscan Hcap Hvalid Hsum. unfold validateTextDocument; cbn [snd].
  rewrite Hscan. cbn [validateLoop].
  destruct (Z.ltb_spec (Z.of_nat 0) (maxNumberOfProblems settings)) as [_|]; [|simpl in *; lia].
  unfold validateElement, isValidEthereumAddress.
  rewrite Hvalid; cbn [negb]. rewrite Hsum; cbn [bind]. rewrite Hens. reflexivity.
Qed.

(** A server started without a project id has no client, and keeps none. *)
Lemma configure_without_id (net : Network) (server : Server) (settings : DefiSettings) :
  infuraProjectId settings = "" -> ens (configure net server settings) = ens server.
Proof.
  intros Hid. unfold configure. rewrite Hid. cbn [String.eqb orb].
  now destruct (String.eqb (amberdataApiKey settings) "").
Qed.

End Validation.

Section ValidationTheorems.

Context {web3 : Web3Utils}.

(** C2 (amended). The cap counts candidates, not diagnostics.  A pass that
    publishes has examined the first [maxNumberOfProblems] candidates of the
    scan and no other: the published list is what those candidates
    contributed, in scan order, each at most two diagnostics (one error, or a
    warning and a hint), so at most twice [maxNumberOfProblems] in all; and
    the loop over all candidates is the loop over those under the cap, so
    the later ones are skipped rather than cut from a longer list. *)
Theorem problem_cap_limits_examined_candidates (net : Network) (server : Server)
    (settings : DefiSettings) (textDocument : TextDocument)
    (params : PublishDiagnosticsParams) :
  snd (validateTextDocument net server settings textDocument) = Ok params ->
  let cap := Z.to_nat (maxNumberOfProblems settings) in
  let candidates := findPossibleEthereumAddresses textDocument in
  let server' := configure net server settings in
  List.length (diagnostics params) <= 2 * cap
  /\ (exists contributions,
        diagnostics params = concat contributions
        /\ Forall2 (fun element contribution =>
                      validateElement server' textDocument [] element = Ok contribution)
                   (firstn cap candidates) contributions)
  /\ validateLoop server' textDocument (maxNumberOfProblems settings) candidates 0 []
     = validateLoop server' textDocument (maxNumberOfProblems settings)
         (firstn cap candidates) 0 [].
Proof.
  intros H cap candidates server'.
  destruct (published_contributions _ _ _ _ _ H) as (contributions & Hpub & Hall).
  fold cap candidates server' in Hall.
  split; [|split].
  - rewrite Hpub. transitivity (2 * List.length contributions).
    + apply concat_length_bound.
      clear Hpub. induction Hall as [|e c es cs Hc _ IH]; constructor; [|exact IH].
      exact (validateElement_length _ _ _ _ Hc).
    + apply Forall2_length in Hall. rewrite <- Hall, length_firstn. lia.
  - now exists contributions.
  - rewrite validateLoop_firstn, Nat.sub_0_r. reflexivity.
Qed.

(** C6 (amended). The published list is what the candidates under the cap
    contributed, one after the other in scan order.  In a pass that
    publishes, a candidate under the cap that is a valid address but not
    written in its checksum form contributes exactly one warning: on the
    candidate's range, with the code [NotChecksumAddress] followed by the
    checksum form, so that the text after the prefix is the checksum form. *)
Theorem checksum_warning_for_examined_candidate (net : Network) (server : Server)
    (settings : DefiSettings) (textDocument : TextDocument)
    (params : PublishDiagnosticsParams) (index : nat) (element : StringLocation)
    (checksumAddress : string) :
  snd (validateTextDocument net server settings textDocument) = Ok params ->
  nth_error (findPossibleEthereumAddresses textDocument) index = Some element ->
  (Z.of_nat index < maxNumberOfProblems settings)%Z ->
  isValidEthereumAddress (content element) = true ->
  toChecksumAddress (content element) = Ok checksumAddress ->
  content element <> checksumAddress ->
  let server' := configure net server settings in
  exists contributions contribution,
    diagnostics params = concat contributions
    /\ Forall2 (fun element contribution =>
                  validateElement server' textDocument [] element = Ok contribution)
               (firstn (Z.to_nat (maxNumberOfProblems settings))
                       (findPossibleEthereumAddresses textDocument))
               contributions
    /\ nth_error contributions index = Some contribution
    /\ validateElement server' textDocument [] element = Ok contribution
    /\ filter isWarning contribution
       = [ makeDiagnostic server' textDocument element
             (content element ++ " is not a checksum address")
             "Use a checksum address as a best practice to ensure the address is valid."
             Warning (DIAGNOSTIC_TYPE_NOT_CHECKSUM_ADDRESS ++ checksumAddress) ]
    /\ substringFrom (String.length DIAGNOSTIC_TYPE_NOT_CHECKSUM_ADDRESS)
                     (DIAGNOSTIC_TYPE_NOT_CHECKSUM_ADDRESS ++ checksumAddress)
       = checksumAddress.
Proof.
  intros H Hnth Hcap Hvalid Hsum Hdiff server'.
  destruct (published_contributions _ _ _ _ _ H) as (contributions & Hpub & Hall).
  fold server' in Hall.
  assert (Hin : nth_error (firstn (Z.to_nat (maxNumberOfProblems settings))
                             (findPossibleEthereumAddresses textDocument)) index
                = Some element).
  { rewrite nth_error_firstn.
    destruct (Nat.ltb_spec index (Z.to_nat (maxNumberOfProblems settings))); [exact Hnth | lia]. }
  destruct (Forall2_nth_error_left _ _ _ Hall _ _ Hin) as (contribution & Hc & He).
  exists contributions, contribution.
  split; [exact Hpub|]. split; [exact Hall|]. split; [exact Hc|]. split; [exact He|]. split.
  - revert He. unfold validateElement, addDiagnostic, bind.
    rewrite Hvalid, Hsum. cbn [negb].
    destruct (String.eqb_spec (content element) checksumAddress) as [Heq|_];
      [now destruct Hdiff|]. cbn [negb app].
    destruct (reverseENSLookup (ens server') (content element)) as [ensName|]; [|discriminate].
    destruct (negb (String.eqb ensName "")); intros He; injection He as <-; reflexivity.
  - apply substringFrom_append.
Qed.

End ValidationTheorems.

(** ** Runs on concrete documents *)

(** A valid key; too short; not hexadecimal; without [0x]; zero; above the
    order of the curve. *)
Example key_checks :
  map (@isPrivateKey Reference.keys)
      [ "0x" ++ Fixtures.privateKey; "0x1234"; "zz"; Fixtures.privateKey;
        "0x" ++ Fixtures.repeatString 64 "0"; "0x" ++ Fixtures.repeatString 64 "f" ]
  = [ Ok true; Ok false; Ok false; Ok false; Ok false; Ok false ].
Proof. run. Qed.

(** An inconsistent pair of records yields no name, a consistent one does,
    and a naming service that cannot be reached yields none. *)
Example spoofed_reverse_record_is_dropped :
  @reverseENSLookup Reference.web3 (Some Fixtures.spoofed) Fixtures.otherLowerAddress = Ok ""
  /\ @reverseENSLookup Reference.web3 (Some Fixtures.oneRecord) Fixtures.lowerAddress
     = Ok "vitalik.eth"
  /\ @reverseENSLookup Reference.web3 (Some Fixtures.unreachable) Fixtures.lowerAddress = Ok "".
Proof. run. Qed.

(** The address in its checksum form gets no warning, only the hint when it
    has a name; one wrong capital makes it an invalid address, an error. *)
Example checksum_form_and_wrong_capital :
  mapResult (fun params => map severity (diagnostics params))
    (snd (@validateTextDocument Reference.web3 (fun _ => Fixtures.oneRecord) initialServer
            Fixtures.capOne Fixtures.checksumForm))
  = Ok [Hint]
  /\ mapResult (fun params => map (fun diagnostic => (severity diagnostic, code diagnostic))
                                 (diagnostics params))
       (snd (@validateTextDocument Reference.web3 (fun _ => Fixtures.unreachable) initialServer
               Fixtures.capOne Fixtures.wrongCapital))
     = Ok [(Error, Some (CodeString "NotValidAddress"))].
Proof. run. Qed.

(** C1. A server that has not been given an Infura project id has no ENS
    client.  On a document with a valid address its pass is rejected at
    [ens.reverse], before [sendDiagnostics]: the checksum warning that the
    address deserves is never published. *)
Theorem pass_aborts_without_ens_client (net : Network) :
  snd (@validateTextDocument Reference.web3 net initialServer defaultSettings
         Fixtures.oneAddress)
  = Throw (ensUndefined "reverse")
  /\ map content (findPossibleEthereumAddresses Fixtures.oneAddress) = [Fixtures.lowerAddress]
  /\ @isValidEthereumAddress Reference.web3 Fixtures.lowerAddress = true
  /\ Reference.toChecksumAddress Fixtures.lowerAddress = Ok Fixtures.checksumAddress.
Proof. run. Qed.

(** C3. The scanners never count: on a document of 101 address tokens
    [findPossibleEthereumAddresses] returns 101 spans, past the 100 its loop
    guard names and past any smaller configured cap; on two tokens it
    returns both, whatever [maxNumberOfProblems] says.  And a token followed
    by the letter g, which is no hex digit, is not returned: [\b] asks for a
    character that is not a word character. *)
Theorem scanner_is_not_capped :
  List.length (findPossibleEthereumAddresses Fixtures.manyAddresses) = 101
  /\ List.length (findPossibleEthereumAddresses Fixtures.twoAddresses) = 2
  /\ maxNumberOfProblems Fixtures.capOne = 1%Z
  /\ findPossibleEthereumAddresses Fixtures.followedByLetter = [].
Proof. run. Qed.

(** C2, as stated, fails: with [maxNumberOfProblems = 1] a single address
    that is not in checksum form and has an ENS name gets a warning and a
    hint, two diagnostics. *)
Lemma one_problem_two_diagnostics :
  mapResult (fun params => map severity (diagnostics params))
    (snd (@validateTextDocument Reference.web3 (fun _ => Fixtures.oneRecord) initialServer
            Fixtures.capOne Fixtures.oneAddress))
  = Ok [Warning; Hint]
  /\ maxNumberOfProblems Fixtures.capOne = 1%Z.
Proof. run. Qed.

(** The pass of [one_problem_two_diagnostics] publishes, within the bound. *)
Lemma problem_cap_limits_examined_candidates_witness :
  exists params,
    snd (@validateTextDocument Reference.web3 (fun _ => Fixtures.oneRecord) initialServer
           Fixtures.capOne Fixtures.oneAddress) = Ok params
    /\ List.length (diagnostics params) <= 2 * Z.to_nat (maxNumberOfProblems Fixtures.capOne).
Proof.
  destruct (snd (@validateTextDocument Reference.web3 (fun _ => Fixtures.oneRecord)
                   initialServer Fixtures.capOne Fixtures.oneAddress))
    as [params|e] eqn:H; [|vm_compute in H; discriminate H].
  exists params. split; [reflexivity|].
  exact (proj1 (@problem_cap_limits_examined_candidates Reference.web3
                  (fun _ => Fixtures.oneRecord) initialServer Fixtures.capOne
                  Fixtures.oneAddress params H)).
Defined.

(** C6, as stated, fails: with [maxNumberOfProblems = 1] the second of two
    addresses, valid and not in checksum form, gets no diagnostic at all;
    the only published diagnostic is on the first one's range. *)
Lemma no_warning_past_the_cap :
  map content (findPossibleEthereumAddresses Fixtures.twoAddresses)
  = [Fixtures.lowerAddress; Fixtures.otherLowerAddress]
  /\ map range (findPossibleEthereumAddresses Fixtures.twoAddresses)
     = [ {| start := {| line := 0; character := 0 |};
            end_ := {| line := 0; character := 42 |} |};
         {| start := {| line := 1; character := 0 |};
            end_ := {| line := 1; character := 42 |} |} ]
  /\ @isValidEthereumAddress Reference.web3 Fixtures.otherLowerAddress = true
  /\ Reference.toChecksumAddress Fixtures.otherLowerAddress
     = Ok "0x5aAeb6053F3E94C9b9A09f33669435E7Ef1BeAed"
  /\ mapResult (fun params => map diag_range (diagnostics params))
       (snd (@validateTextDocument Reference.web3 (fun _ => Fixtures.unreachable)
               initialServer Fixtures.capOne Fixtures.twoAddresses))
     = Ok [ {| start := {| line := 0; character := 0 |};
               end_ := {| line := 0; character := 42 |} |} ].
Proof. run. Qed.

(** The first of the two addresses is under the cap and gets its warning. *)
Lemma checksum_warning_for_examined_candidate_witness :
  exists params contributions contribution,
    snd (@validateTextDocument Reference.web3 (fun _ => Fixtures.unreachable) initialServer
           Fixtures.capOne Fixtures.twoAddresses) = Ok params
    /\ diagnostics params = concat contributions
    /\ nth_error contributions 0 = Some contribution
    /\ map (fun diagnostic => (diag_range diagnostic, code diagnostic))
           (filter isWarning contribution)
       = [ ({| start := {| line := 0; character := 0 |};
               end_ := {| line := 0; character := 42 |} |},
            Some (CodeString ("NotChecksumAddress" ++ Fixtures.checksumAddress))) ].
Proof.
  destruct (snd (@validateTextDocument Reference.web3 (fun _ => Fixtures.unreachable)
                   initialServer Fixtures.capOne Fixtures.twoAddresses))
    as [params|e] eqn:H; [|vm_compute in H; discriminate H].
  destruct (@checksum_warning_for_examined_candidate Reference.web3
              (fun _ => Fixtures.unreachable) initialServer Fixtures.capOne
              Fixtures.twoAddresses params 0
              {| range := {| start := {| line := 0; character := 0 |};
                             end_ := {| line := 0; character := 42 |} |};
                 content := Fixtures.lowerAddress |}
              Fixtures.checksumAddress H)
    as (contributions & contribution & Hpub & _ & Hnth & _ & Hwarning & _);
    [ vm_compute; reflexivity | reflexivity | vm_compute; reflexivity
    | vm_compute; reflexivity | vm_compute; discriminate | ].
  exists params, contributions, contribution.
  split; [reflexivity|]. split; [exact Hpub|]. split; [exact Hnth|].
  rewrite Hwarning. reflexivity.
Defined.

(** A document with one address and one private key: five lenses each. *)
Lemma code_lens_per_network_witness :
  @onCodeLens Reference.web3 Reference.keys (Some Fixtures.addressAndKey)
  = Ok (flat_map (@addressLenses Reference.web3)
          (findPossibleEthereumAddresses Fixtures.addressAndKey)
        ++ flat_map (@privateKeyLenses Reference.keys)
             (findPossiblePrivateKeys Fixtures.addressAndKey))%list
  /\ List.length (flat_map (@addressLenses Reference.web3)
                    (findPossibleEthereumAddresses Fixtures.addressAndKey)) = 5
  /\ List.length (flat_map (@privateKeyLenses Reference.keys)
                    (findPossiblePrivateKeys Fixtures.addressAndKey)) = 5.
Proof.
  split; [|split; vm_compute; reflexivity].
  refine (proj1 (@code_lens_per_network Reference.web3 Reference.keys
                   Fixtures.addressAndKey _)).
  intros element Hin Hkey.
  assert (Hkeys : findPossiblePrivateKeys Fixtures.addressAndKey
                  = [ {| range := {| start := {| line := 0; character := 50 |};
                                     end_ := {| line := 0; character := 114 |} |};
                         content := "0x" ++ Fixtures.privateKey |} ])
    by (vm_compute; reflexivity).
  rewrite Hkeys in Hin. destruct Hin as [<-|[]].
  eexists. vm_compute. reflexivity.
Defined.

(** Two tokens separated by a line feed. *)
Lemma scanner_finds_every_separated_token_witness :
  findPossibleEthereumAddresses Fixtures.twoAddresses
  = expectedSpans Fixtures.twoAddresses 0
      [ (Fixtures.lowerAddress, String (ascii_of_nat 10) EmptyString);
        (Fixtures.otherLowerAddress, EmptyString) ]
  /\ List.length (findPossibleEthereumAddresses Fixtures.twoAddresses) = 2.
Proof.
  apply (scanner_finds_every_separated_token Fixtures.twoAddresses EmptyString
           [ (Fixtures.lowerAddress, String (ascii_of_nat 10) EmptyString);
             (Fixtures.otherLowerAddress, EmptyString) ]).
  - reflexivity.
  - reflexivity.
  - repeat split; try reflexivity; try discriminate.
    + now exists "d8da6bf26964af9d7eed9e03e53415d37aa96045".
    + now exists "5aaeb6053f3e94c9b9a09f33669435e7ef1beaed".
Defined.

(** Credentials set and a naming service that rejects every call. *)
Lemma pass_publishes_with_ens_client_witness :
  ens (@configure (fun _ => Fixtures.unreachable) initialServer Fixtures.capOne)
  = Some Fixtures.unreachable
  /\ exists params,
       snd (@validateTextDocument Reference.web3 (fun _ => Fixtures.unreachable) initialServer
              Fixtures.capOne Fixtures.twoAddresses) = Ok params.
Proof.
  split; [reflexivity|].
  apply (@pass_publishes_with_ens_client Reference.web3 (fun _ => Fixtures.unreachable)
           initialServer Fixtures.capOne Fixtures.twoAddresses Fixtures.unreachable).
  - reflexivity.
  - exact reference_checksum_accepts_addresses.
Defined.

(** * Further properties *)

(** ** The scanners, completely *)

Lemma matchHere_empty (p : Pattern) : matchHere p "" = None.
Proof. now destruct p. Qed.

Lemma substringFrom_past (k : nat) (s : string) :
  String.length s <= k -> substringFrom k s = "".
Proof.
  intros Hk. pose proof (substringFrom_length k s) as Hl.
  destruct (substringFrom k s); [reflexivity | simpl in Hl; lia].
Qed.

(** [search] finds the first position that matches, and fails only when no
    position matches. *)
Lemma search_first (p : Pattern) (s : string) (i : nat) :
  match search p s i with
  | Some (index, m) =>
      exists k, index = i + k
                /\ matchHere p (substringFrom k s) = Some m
                /\ forall j, j < k -> matchHere p (substringFrom j s) = None
  | None => forall j, matchHere p (substringFrom j s) = None
  end.
Proof.
  revert i; induction s as [|c s IH]; intros i; cbn [search].
  - rewrite matchHere_empty. intros j. destruct j; apply matchHere_empty.
  - destruct (matchHere p (String c s)) as [m|] eqn:Hm.
    + exists 0. split; [lia|]. split; [exact Hm|]. intros j Hj; lia.
    + specialize (IH (S i)). destruct (search p s (S i)) as [[index m]|].
      * destruct IH as (k & -> & Hk & Hbefore). exists (S k).
        split; [lia|]. split; [exact Hk|].
        intros [|j] Hj; [exact Hm | apply Hbefore; lia].
      * intros [|j]; [exact Hm | apply IH].
Qed.

Lemma scanLoop_leftmost (p : Pattern) (contentOf : string -> string)
    (textDocument : TextDocument) :
  forall fuel lastIndex problems locations result,
    problems < 100 ->
    scanLoop fuel p contentOf textDocument lastIndex problems locations = Some result ->
    exists matches,
      result = (locations
                ++ map (fun im => locationOf contentOf textDocument (fst im) (snd im)) matches)%list
      /\ leftmostFrom p (getText textDocument) lastIndex matches.
Proof.
  induction fuel as [|fuel IH]; intros lastIndex problems locations result Hp H;
    [discriminate|].
  cbn [scanLoop] in H. rewrite exec_search in H.
  pose proof (search_first p (substringFrom lastIndex (getText textDocument)) lastIndex) as Hs.
  destruct (search p (substringFrom lastIndex (getText textDocument)) lastIndex)
    as [[index m]|].
  - destruct Hs as (k & -> & Hk & Hbefore). rewrite substringFrom_add in Hk.
    destruct (Nat.ltb_spec problems 100) as [_|]; [|lia].
    destruct (IH _ _ _ _ Hp H) as (matches & -> & Hrest).
    exists ((lastIndex + k, m) :: matches). split.
    + cbn [map fst snd]. unfold locationOf at 2. now rewrite <- app_assoc.
    + cbn [leftmostFrom]. split; [lia|]. split; [|split; assumption].
      intros j Hj. replace j with (lastIndex + (j - lastIndex)) by lia.
      rewrite <- substringFrom_add. apply Hbefore. lia.
  - injection H as <-. exists []. split; [now rewrite app_nil_r|].
    cbn [leftmostFrom]. intros j Hj. replace j with (lastIndex + (j - lastIndex)) by lia.
    rewrite <- substringFrom_add. apply Hs.
Qed.

(** X3. Both scanners return exactly the matches of their pattern taken
    leftmost first and without overlap, all of them: each span is the first
    match at or after the end of the previous span, no position in between
    or after the last span matches, the range is [positionAt] of the match's
    two ends, and the content is the match (after [normalizeHex] for a
    private key). *)
Theorem scanners_return_the_leftmost_matches (textDocument : TextDocument) :
  (exists matches,
      findPossibleEthereumAddresses textDocument
      = map (fun im => locationOf (fun m => m) textDocument (fst im) (snd im)) matches
      /\ leftmostFrom AddressPattern (getText textDocument) 0 matches)
  /\ (exists matches,
        findPossiblePrivateKeys textDocument
        = map (fun im => locationOf normalizeHex textDocument (fst im) (snd im)) matches
        /\ leftmostFrom PrivateKeyPattern (getText textDocument) 0 matches).
Proof.
  split.
  - destruct (scanLoop_leftmost AddressPattern (fun m => m) textDocument _ 0 0 [] _
                ltac:(lia) (scan_returns _ _ _)) as (matches & H & Hl).
    exists matches. split; [exact H | exact Hl].
  - destruct (scanLoop_leftmost PrivateKeyPattern normalizeHex textDocument _ 0 0 [] _
                ltac:(lia) (scan_returns _ _ _)) as (matches & H & Hl).
    exists matches. split; [exact H | exact Hl].
Qed.

(** The matches of such a list lie inside the text, one after the other. *)
Lemma leftmostFrom_bounds (p : Pattern) (text : string) :
  forall matches from,
    leftmostFrom p text from matches ->
    Forall (fun im => from <= fst im
                      /\ fst im + String.length (snd im) <= String.length text
                      /\ matchShape p (snd im)
                      /\ slice (fst im) (fst im + String.length (snd im)) text = snd im)
           matches
    /\ StronglySorted (fun a b => fst a + String.length (snd a) <= fst b) matches.
Proof.
  induction matches as [|[index m] matches IH]; intros from H.
  - split; constructor.
  - destruct H as (Hfrom & _ & Hm & Hrest).
    destruct (matchHere_spec _ _ _ Hm) as [Hshape [rest Hsuffix]].
    destruct (IH _ Hrest) as [Hall Hsorted].
    assert (Hend : index + String.length m <= String.length text).
    { pose proof (f_equal String.length Hsuffix) as Hl.
      rewrite substringFrom_length, length_append in Hl.
      pose proof (matchShape_length _ _ Hshape). destruct p; simpl in *; lia. }
    split.
    + constructor.
      * cbn [fst snd]. repeat split; try assumption.
        exact (slice_match _ _ _ _ _ Hsuffix eq_refl).
      * eapply Forall_impl; [|exact Hall]. cbn. intros [i m'] (Hi & Hrest'). cbn in *.
        split; [lia | exact Hrest'].
    + constructor; [exact Hsorted|].
      eapply Forall_impl; [|exact Hall]. cbn. intros [i m'] (Hi & _). cbn in *. exact Hi.
Qed.

Lemma scan_inside_disjoint (p : Pattern) (contentOf : string -> string)
    (textDocument : TextDocument) :
  exists matches,
    scan p contentOf textDocument
    = map (fun im => locationOf contentOf textDocument (fst im) (snd im)) matches
    /\ Forall (fun im =>
                 fst im + matchLength p <= String.length (getText textDocument)
                 /\ matchShape p (snd im)
                 /\ slice (fst im) (fst im + matchLength p) (getText textDocument) = snd im)
              matches
    /\ StronglySorted (fun a b => fst a + matchLength p <= fst b) matches.
Proof.
  destruct (scanLoop_leftmost p contentOf textDocument _ 0 0 [] _
              ltac:(lia) (scan_returns _ _ _)) as (matches & H & Hl).
  destruct (leftmostFrom_bounds _ _ _ _ Hl) as [Hall Hsorted].
  exists matches. split; [exact H|]. clear H Hl. split.
  - eapply Forall_impl; [|exact Hall]. intros [i m] (_ & Hend & Hshape & Hslice).
    cbn [fst snd] in *. rewrite (matchShape_length _ _ Hshape) in *. auto.
  - induction Hsorted as [|[i m] l _ IH Ha].
    + constructor.
    + inversion Hall as [|? ? (_ & _ & Hshape & _) Hall']; subst.
      constructor; [exact (IH Hall')|].
      cbn [fst snd] in *. now rewrite <- (matchShape_length _ _ Hshape).
Qed.

(** X4. The spans of both scanners lie inside the text and do not overlap:
    each is the slice of the text between its two offsets, has the shape of
    its pattern, ends at or before the end of the text, and starts at or
    after the end of the span before it. *)
Theorem scanner_spans_are_inside_and_disjoint (textDocument : TextDocument) :
  (exists matches,
      findPossibleEthereumAddresses textDocument
      = map (fun im => locationOf (fun m => m) textDocument (fst im) (snd im)) matches
      /\ Forall (fun im =>
                   fst im + 42 <= String.length (getText textDocument)
                   /\ matchShape AddressPattern (snd im)
                   /\ slice (fst im) (fst im + 42) (getText textDocument) = snd im)
                matches
      /\ StronglySorted (fun a b => fst a + 42 <= fst b) matches)
  /\ (exists matches,
        findPossiblePrivateKeys textDocument
        = map (fun im => locationOf normalizeHex textDocument (fst im) (snd im)) matches
        /\ Forall (fun im =>
                     fst im + 64 <= String.length (getText textDocument)
                     /\ matchShape PrivateKeyPattern (snd im)
                     /\ slice (fst im) (fst im + 64) (getText textDocument) = snd im)
                  matches
        /\ StronglySorted (fun a b => fst a + 64 <= fst b) matches).
Proof.
  split.
  - exact (scan_inside_disjoint AddressPattern (fun m => m) textDocument).
  - exact (scan_inside_disjoint PrivateKeyPattern normalizeHex textDocument).
Qed.

(** ** The validation pass, further *)

Section ValidationFurther.

Context {web3 : Web3Utils}.

Lemma validateLoop_invalid (server : Server) (textDocument : TextDocument) (cap : Z) :
  forall elements problems diagnostics,
    Forall (fun element => isAddress (content element) = false)
           (firstn (Z.to_nat cap - problems) elements) ->
    validateLoop server textDocument cap elements problems diagnostics
    = Ok (diagnostics
          ++ map (fun element =>
                    makeDiagnostic server textDocument element
                      (content element ++ " is not a valid Ethereum address")
                      "The string appears to be an Ethereum address but fails checksum."
                      Error DIAGNOSTIC_TYPE_NOT_VALID_ADDRESS)
                 (firstn (Z.to_nat cap - problems) elements))%list.
Proof.
  induction elements as [|element elements IH]; intros problems diagnostics Hall.
  - rewrite firstn_nil. cbn [validateLoop map]. now rewrite app_nil_r.
  - cbn [validateLoop]. destruct (Z.ltb_spec (Z.of_nat problems) cap) as [Hlt|Hge].
    + replace (Z.to_nat cap - problems) with (S (Z.to_nat cap - S problems)) in * by lia.
      cbn [firstn map] in *. inversion Hall as [|? ? Hinvalid Hrest]; subst.
      unfold validateElement, isValidEthereumAddress. rewrite Hinvalid. cbn [negb bind].
      rewrite (IH _ _ Hrest). unfold addDiagnostic. now rewrite <- app_assoc.
    + replace (Z.to_nat cap - problems) with 0 in * by lia.
      rewrite (IH problems diagnostics).
      * replace (Z.to_nat cap - problems) with 0 by lia. now rewrite !firstn_O.
      * replace (Z.to_nat cap - problems) with 0 by lia. rewrite firstn_O. constructor.
Qed.

(** X5. When none of the candidates under the cap is a valid address, the
    pass publishes, with or without an ENS client: exactly one error per
    candidate under the cap, in scan order, with the code [NotValidAddress]. *)
Theorem invalid_candidates_need_no_client (net : Network) (server : Server)
    (settings : DefiSettings) (textDocument : TextDocument) :
  Forall (fun element => isAddress (content element) = false)
         (firstn (Z.to_nat (maxNumberOfProblems settings))
                 (findPossibleEthereumAddresses textDocument)) ->
  snd (validateTextDocument net server settings textDocument)
  = Ok {| pub_uri := uri textDocument;
          diagnostics :=
            map (fun element =>
                   makeDiagnostic (configure net server settings) textDocument element
                     (content element ++ " is not a valid Ethereum address")
                     "The string appears to be an Ethereum address but fails checksum."
                     Error DIAGNOSTIC_TYPE_NOT_VALID_ADDRESS)
                (firstn (Z.to_nat (maxNumberOfProblems settings))
                        (findPossibleEthereumAddresses textDocument)) |}.
Proof.
  intros Hall. unfold validateTextDocument; cbn [snd].
  rewrite validateLoop_invalid by (now rewrite Nat.sub_0_r).
  cbn [bind app]. now rewrite Nat.sub_0_r.
Qed.

(** X6. A candidate that is a valid address contributes a hint exactly when
    the reverse lookup returned a non-empty name; the hint is on the
    candidate's range and its code is [ConvertENSName] followed by that
    name.  A candidate that is not a valid address contributes no hint. *)
Theorem hint_carries_the_looked_up_name (server : Server) (textDocument : TextDocument)
    (element : StringLocation) (contribution : list Diagnostic) :
  validateElement server textDocument [] element = Ok contribution ->
  (isAddress (content element) = false -> filter isHint contribution = [])
  /\ (isAddress (content element) = true ->
      exists ensName,
        reverseENSLookup (ens server) (content element) = Ok ensName
        /\ filter isHint contribution
           = if String.eqb ensName "" then []
             else [ makeDiagnostic server textDocument element
                      (content element ++ " can be converted to its ENS name "
                         ++ dquote ++ ensName ++ dquote)
                      "Convert the Ethereum address to its ENS name for better readability."
                      Hint (DIAGNOSTIC_TYPE_CONVERT_ENS_NAME ++ ensName) ]).
Proof.
  unfold validateElement, isValidEthereumAddress, addDiagnostic, bind.
  destruct (isAddress (content element)); cbn [negb].
  - destruct (toChecksumAddress (content element)) as [checksumAddress|]; [|discriminate].
    destruct (reverseENSLookup (ens server) (content element)) as [ensName|]; [|discriminate].
    intros H; injection H as <-. split; [discriminate|]. intros _.
    exists ensName. split; [reflexivity|].
    destruct (String.eqb (content element) checksumAddress), (String.eqb ensName "");
      reflexivity.
  - intros H; injection H as <-. split; [reflexivity | discriminate].
Qed.

Lemma not_valid_code_has_no_prefix :
  startsWith DIAGNOSTIC_TYPE_NOT_VALID_ADDRESS DIAGNOSTIC_TYPE_NOT_CHECKSUM_ADDRESS = false
  /\ startsWith DIAGNOSTIC_TYPE_NOT_VALID_ADDRESS DIAGNOSTIC_TYPE_CONVERT_ENS_NAME = false.
Proof. split; reflexivity. Qed.

Lemma quick_fix_of_warning (server : Server) (textDocument target : TextDocument)
    (element : StringLocation) (message details : string) (severity : DiagnosticSeverity)
    (checksumAddress : string) :
  map (fun action => changes (edit action))
      (getCodeActions
         [makeDiagnostic server textDocument element message details severity
            (DIAGNOSTIC_TYPE_NOT_CHECKSUM_ADDRESS ++ checksumAddress)] target)
  = [replacement target (range element) checksumAddress].
Proof.
  unfold getCodeActions, pushQuickFix; cbn [fold_left code makeDiagnostic String_ diag_range].
  now rewrite startsWith_append, substringFrom_append.
Qed.

Lemma quick_fix_of_hint (server : Server) (textDocument target : TextDocument)
    (element : StringLocation) (message details : string) (severity : DiagnosticSeverity)
    (ensName : string) :
  map (fun action => changes (edit action))
      (getCodeActions
         [makeDiagnostic server textDocument element message details severity
            (DIAGNOSTIC_TYPE_CONVERT_ENS_NAME ++ ensName)] target)
  = [replacement target (range element) ensName].
Proof.
  unfold getCodeActions, pushQuickFix; cbn [fold_left code makeDiagnostic String_ diag_range].
  destruct (startsWith (DIAGNOSTIC_TYPE_CONVERT_ENS_NAME ++ ensName)
              DIAGNOSTIC_TYPE_NOT_CHECKSUM_ADDRESS) eqn:Hsum.
  - apply prefixes_exclusive in Hsum. now rewrite startsWith_append in Hsum.
  - now rewrite startsWith_append, substringFrom_append.
Qed.

(** X7. The quick fixes offered for what one candidate contributed undo
    what was reported: none for an invalid address; for a valid one, the
    replacement of the candidate's range by its checksum form when the text
    differs from it, then the replacement by the ENS name when one was
    found, and nothing else. *)
Theorem quick_fixes_of_a_candidate (server : Server) (textDocument target : TextDocument)
    (element : StringLocation) (contribution : list Diagnostic) :
  validateElement server textDocument [] element = Ok contribution ->
  (isAddress (content element) = false -> getCodeActions contribution target = [])
  /\ (isAddress (content element) = true ->
      exists checksumAddress ensName,
        toChecksumAddress (content element) = Ok checksumAddress
        /\ reverseENSLookup (ens server) (content element) = Ok ensName
        /\ map (fun action => changes (edit action)) (getCodeActions contribution target)
           = ((if String.eqb (content element) checksumAddress then []
               else [replacement target (range element) checksumAddress])
              ++ (if String.eqb ensName "" then []
                  else [replacement target (range element) ensName]))%list).
Proof.
  unfold validateElement, isValidEthereumAddress, addDiagnostic, bind.
  destruct (isAddress (content element)); cbn [negb].
  - destruct (toChecksumAddress (content element)) as [checksumAddress|]; [|discriminate].
    destruct (reverseENSLookup (ens server) (content element)) as [ensName|]; [|discriminate].
    intros H; injection H as <-. split; [discriminate|]. intros _.
    exists checksumAddress, ensName. split; [reflexivity|]. split; [reflexivity|].
    rewrite getCodeActions_flat_map.
    destruct (String.eqb (content element) checksumAddress), (String.eqb ensName "");
      cbn [negb app flat_map]; rewrite ?app_nil_r, ?map_app;
      now rewrite ?quick_fix_of_warning, ?quick_fix_of_hint.
  - intros H; injection H as <-. split; [|discriminate]. intros _. reflexivity.
Qed.

(** X8. What a pass does to the server's variables.  A project id that is
    not empty installs a client for the URL built from secret and id, also
    when the secret is empty (the test reads the id twice); an empty id
    leaves the client of an earlier pass in place, so a client is never
    removed; the API key variable is never the empty string unless it
    already was; and the capability flag is not touched. *)
Theorem configure_effects (net : Network) (server : Server) (settings : DefiSettings) :
  (infuraProjectId settings <> "" ->
   ens (configure net server settings)
   = Some (net ("https://:" ++ infuraProjectSecret settings ++ "@mainnet.infura.io/v3/"
                  ++ infuraProjectId settings)))
  /\ (infuraProjectId settings = "" -> ens (configure net server settings) = ens server)
  /\ (ens server <> None -> ens (configure net server settings) <> None)
  /\ (amberdataApiKeySetting server <> Some "" ->
      amberdataApiKeySetting (configure net server settings) <> Some "")
  /\ hasDiagnosticRelatedInformationCapability (configure net server settings)
     = hasDiagnosticRelatedInformationCapability server.
Proof.
  unfold configure.
  destruct (String.eqb_spec (infuraProjectId settings) "") as [Hid|Hid];
    destruct (String.eqb_spec (amberdataApiKey settings) "") as [Hkey|Hkey];
    cbn [orb ens amberdataApiKeySetting hasDiagnosticRelatedInformationCapability];
    repeat split; try congruence; try discriminate.
Qed.

End ValidationFurther.

(** ** Resolving code lenses *)

Section ResolveTheorems.

Context {web3 : Web3Utils}.

Lemma resolve_testnet (getToken : string -> Result (option Token))
    (server : Server) (range : Range) (unresolved : option Command)
    (codeLensType network address : string) :
  In network [ROPSTEN; KOVAN; RINKEBY; GOERLI] ->
  onCodeLensResolve getToken server
    {| lens_range := range; lens_command := unresolved;
       lens_data := [codeLensType; network; address] |}
  = Ok {| lens_range := range;
          lens_command :=
            Some (Command_create ("(" ++ network ++ ")") "etherscan.show.url"
                    ["https://" ++ network ++ ".etherscan.io/address/" ++ address]);
          lens_data := [codeLensType; network; address] |}.
Proof.
  intros [<-|[<-|[<-|[<-|[]]]]]; reflexivity.
Qed.

(** X9. A lens of one of the four test networks is resolved without any
    lookup: whatever the server's state and whatever the token lookup would
    do, the handler returns the lens with the command [etherscan.show.url],
    the network in brackets as title, and the address page of that
    network's explorer as argument. *)
Theorem testnet_lens_resolves_without_lookup (getToken : string -> Result (option Token))
    (server : Server) (range : Range) (unresolved : option Command)
    (codeLensType network address : string) :
  In network [ROPSTEN; KOVAN; RINKEBY; GOERLI] ->
  onCodeLensResolve getToken server
    {| lens_range := range; lens_command := unresolved;
       lens_data := [codeLensType; network; address] |}
  = Ok {| lens_range := range;
          lens_command :=
            Some (Command_create ("(" ++ network ++ ")") "etherscan.show.url"
                    ["https://" ++ network ++ ".etherscan.io/address/" ++ address]);
          lens_data := [codeLensType; network; address] |}.
Proof. apply resolve_testnet. Qed.

Lemma resolve_mainnet (getToken : string -> Result (option Token))
    (server : Server) (client : ENS) (range : Range) (unresolved : option Command)
    (codeLensType address : string) (token : option Token) :
  ens server = Some client ->
  getToken address = Ok token ->
  In codeLensType [CODE_LENS_TYPE_ETH_ADDRESS; CODE_LENS_TYPE_ETH_PRIVATE_KEY] ->
  exists ensName,
    reverseENSLookup (Some client) address = Ok ensName
    /\ onCodeLensResolve getToken server
         {| lens_range := range; lens_command := unresolved;
            lens_data := [codeLensType; MAINNET; address] |}
       = Ok {| lens_range := range;
               lens_command :=
                 Some (Command_create (mainnetTitle ensName token codeLensType address)
                         "etherscan.show.url" ["https://etherscan.io/address/" ++ address]);
               lens_data := [codeLensType; MAINNET; address] |}.
Proof.
  intros Hens Htoken Htype.
  destruct (reverseENSLookup_returns client address) as [ensName Hname].
  exists ensName. split; [exact Hname|].
  unfold onCodeLensResolve, mainnetTitle. cbn [dataAt lens_data nth_error isString].
  change (String.eqb MAINNET MAINNET) with true. cbv iota.
  rewrite Hens, Hname, Htoken. cbn [bind].
  unfold withCommand, getTokenName; cbn [lens_range lens_data].
  destruct Htype as [<-|[<-|[]]];
    [change (String.eqb CODE_LENS_TYPE_ETH_ADDRESS CODE_LENS_TYPE_ETH_ADDRESS) with true
    |change (String.eqb CODE_LENS_TYPE_ETH_PRIVATE_KEY CODE_LENS_TYPE_ETH_ADDRESS) with false;
     change (String.eqb CODE_LENS_TYPE_ETH_PRIVATE_KEY CODE_LENS_TYPE_ETH_PRIVATE_KEY)
       with true];
    cbv iota; destruct (String.eqb ensName ""), token as [token|]; cbn [negb];
    do 3 f_equal; cbn [append];
    rewrite ?append_assoc; cbn [append]; rewrite ?append_assoc; reflexivity.
Qed.

(** X10. With an ENS client in place and a token lookup that returns, a
    mainnet lens of either type always resolves.  Its title is made of the
    confirmed ENS name and the token's name and symbol, each followed by a
    bar and only when there is one, then the kind of lens, and ends with the
    address; its argument is the address page of etherscan.io. *)
Theorem mainnet_lens_title (getToken : string -> Result (option Token))
    (server : Server) (client : ENS) (range : Range) (unresolved : option Command)
    (codeLensType address : string) (token : option Token) :
  ens server = Some client ->
  getToken address = Ok token ->
  In codeLensType [CODE_LENS_TYPE_ETH_ADDRESS; CODE_LENS_TYPE_ETH_PRIVATE_KEY] ->
  exists ensName,
    reverseENSLookup (Some client) address = Ok ensName
    /\ onCodeLensResolve getToken server
         {| lens_range := range; lens_command := unresolved;
            lens_data := [codeLensType; MAINNET; address] |}
       = Ok {| lens_range := range;
               lens_command :=
                 Some (Command_create
                         ((if String.eqb ensName "" then "" else ensName ++ " | ")
                            ++ match token with
                               | Some token =>
                                   token_name token ++ " (" ++ token_symbol token ++ ") | "
                               | None => ""
                               end
                            ++ (if String.eqb codeLensType CODE_LENS_TYPE_ETH_ADDRESS then ""
                                else "Private key for ")
                            ++ "Ethereum "
                            ++ match token with Some _ => "token" | None => "address" end
                            ++ " (mainnet): " ++ address)
                         "etherscan.show.url" ["https://etherscan.io/address/" ++ address]);
               lens_data := [codeLensType; MAINNET; address] |}.
Proof.
  intros Hens Htoken Htype.
  destruct (resolve_mainnet getToken server client range unresolved codeLensType address
              token Hens Htoken Htype) as (ensName & Hname & Hresolve).
  exists ensName. split; [exact Hname | exact Hresolve].
Qed.

End ResolveTheorems.

Section ResolveEmitted.

Context {web3 : Web3Utils} {keys : KeyLibrary}.

Lemma lensPerNetwork_emitted (codeLensType : string) (range : Range) (content : string) :
  In codeLensType [CODE_LENS_TYPE_ETH_ADDRESS; CODE_LENS_TYPE_ETH_PRIVATE_KEY] ->
  Forall emittedLens (lensPerNetwork codeLensType range content).
Proof.
  intros Htype. unfold lensPerNetwork. apply Forall_forall. intros codeLens Hin.
  apply in_map_iff in Hin as (network & <- & Hnet).
  exists codeLensType, network, content. auto.
Qed.

Lemma fold_pushPrivateKeyLenses_throw (elements : list StringLocation) (e : string) :
  fold_left pushPrivateKeyLenses elements (Throw e) = Throw e.
Proof. induction elements as [|element elements IH]; [reflexivity | exact IH]. Qed.

Lemma fold_pushPrivateKeyLenses_emitted (elements : list StringLocation) :
  forall codeLenses result,
    Forall emittedLens codeLenses ->
    fold_left pushPrivateKeyLenses elements (Ok codeLenses) = Ok result ->
    Forall emittedLens result.
Proof.
  induction elements as [|element elements IH]; intros codeLenses result Hall H.
  - now injection H as <-.
  - cbn [fold_left] in H. unfold pushPrivateKeyLenses at 2 in H. cbn [bind] in H.
    destruct (isPrivateKey (content element)) as [[|]|e]; cbn [bind] in H.
    + destruct (toPublicKey (content element)) as [address|e]; cbn [bind] in H.
      * refine (IH _ _ _ H).
        rewrite pushEthereumAddressCodeLenses_app. apply Forall_app. split; [exact Hall|].
        apply lensPerNetwork_emitted. right; now left.
      * now rewrite fold_pushPrivateKeyLenses_throw in H.
    + exact (IH _ _ Hall H).
    + now rewrite fold_pushPrivateKeyLenses_throw in H.
Qed.

Lemma onCodeLens_emitted (textDocument : option TextDocument) (codeLenses : list CodeLens) :
  onCodeLens textDocument = Ok codeLenses -> Forall emittedLens codeLenses.
Proof.
  destruct textDocument as [textDocument|]; cbn [onCodeLens].
  - apply fold_pushPrivateKeyLenses_emitted.
    rewrite (fold_left_push _ addressLenses) by apply pushAddressLenses_app.
    cbn [app]. apply Forall_flat_map, Forall_forall. intros element _.
    unfold addressLenses. destruct (isValidEthereumAddress (content element)); [|constructor].
    apply lensPerNetwork_emitted. now left.
  - intros H; injection H as <-. constructor.
Qed.

(** X11. Every lens that [onCodeLens] returns can be resolved.  With an ENS
    client in place and a token lookup that returns, [onCodeLensResolve]
    gives it, on the same range and with the same data, the command
    [etherscan.show.url] whose single argument is the page of the lens's
    address on the explorer of the lens's network. *)
Theorem every_emitted_lens_resolves (getToken : string -> Result (option Token))
    (server : Server) (client : ENS) (textDocument : option TextDocument)
    (codeLenses : list CodeLens) (codeLens : CodeLens) :
  onCodeLens textDocument = Ok codeLenses ->
  In codeLens codeLenses ->
  ens server = Some client ->
  (forall address, exists token, getToken address = Ok token) ->
  exists codeLensType network address title,
    lens_data codeLens = [codeLensType; network; address]
    /\ In network NETWORKS
    /\ onCodeLensResolve getToken server codeLens
       = Ok {| lens_range := lens_range codeLens;
               lens_command :=
                 Some (Command_create title "etherscan.show.url"
                         [etherscanUrl network address]);
               lens_data := lens_data codeLens |}.
Proof.
  intros Hlenses Hin Hens Htoken.
  pose proof (onCodeLens_emitted _ _ Hlenses) as Hall.
  rewrite Forall_forall in Hall.
  destruct (Hall _ Hin) as (codeLensType & network & address & Htype & Hnet & Hcmd & Hdata).
  destruct codeLens as [range unresolved data]. cbn [lens_data lens_command lens_range] in *.
  subst data unresolved.
  exists codeLensType, network, address.
  destruct Hnet as [<-|Htestnet].
  - destruct (Htoken address) as [token Ht].
    destruct (resolve_mainnet getToken server client range None codeLensType address token
                Hens Ht Htype) as (ensName & _ & ->).
    eexists. split; [reflexivity|]. split; [now left|]. reflexivity.
  - exists ("(" ++ network ++ ")"). split; [reflexivity|]. split; [now right|].
    rewrite (resolve_testnet getToken server range None codeLensType
               network address Htestnet).
    destruct Htestnet as [<-|[<-|[<-|[<-|[]]]]]; reflexivity.
Qed.

End ResolveEmitted.

Section ResolveEdges.

Context {web3 : Web3Utils}.

(** X12. What [onCodeLensResolve] does outside the lenses it can resolve.
    A lens whose network is none of the five is returned untouched, without
    any lookup; a mainnet lens whose type is neither of the two is returned
    untouched as well, after both lookups; a lens with fewer than three data
    entries is rejected; and so is every mainnet lens when the server has no
    ENS client. *)
Theorem unresolvable_lenses (getToken : string -> Result (option Token))
    (server : Server) (codeLens : CodeLens) :
  (forall codeLensType network address rest,
      lens_data codeLens = codeLensType :: network :: address :: rest ->
      ~ In network NETWORKS ->
      onCodeLensResolve getToken server codeLens = Ok codeLens)
  /\ (forall codeLensType address rest client token,
        lens_data codeLens = codeLensType :: MAINNET :: address :: rest ->
        ~ In codeLensType [CODE_LENS_TYPE_ETH_ADDRESS; CODE_LENS_TYPE_ETH_PRIVATE_KEY] ->
        ens server = Some client ->
        getToken address = Ok token ->
        onCodeLensResolve getToken server codeLens = Ok codeLens)
  /\ (List.length (lens_data codeLens) < 3 ->
      exists e, onCodeLensResolve getToken server codeLens = Throw e)
  /\ (forall codeLensType address rest,
        lens_data codeLens = codeLensType :: MAINNET :: address :: rest ->
        ens server = None ->
        onCodeLensResolve getToken server codeLens = Throw (ensUndefined "reverse")).
Proof.
  assert (Hneq : forall a b, a <> b -> String.eqb a b = false)
    by (intros a b; apply String.eqb_neq).
  split; [|split; [|split]].
  - intros codeLensType network address rest Hdata Hnet.
    unfold onCodeLensResolve, dataAt. rewrite Hdata. cbn [nth_error isString].
    unfold NETWORKS in Hnet. cbn [In] in Hnet.
    rewrite !Hneq by (intros ->; tauto). reflexivity.
  - intros codeLensType address rest client token Hdata Htype Hens Htoken.
    unfold onCodeLensResolve, dataAt. rewrite Hdata. cbn [nth_error isString].
    change (String.eqb MAINNET MAINNET) with true. cbv iota.
    rewrite Hens. destruct (reverseENSLookup_returns client address) as [ensName ->].
    rewrite Htoken. cbn [bind]. cbn [In] in Htype.
    rewrite !Hneq by (intros ->; tauto). reflexivity.
  - intros Hshort. unfold onCodeLensResolve, dataAt.
    destruct (lens_data codeLens) as [|a [|b [|c rest]]]; cbn [nth_error];
      try (eexists; reflexivity). simpl in Hshort. lia.
  - intros codeLensType address rest Hdata Hens.
    unfold onCodeLensResolve, dataAt. rewrite Hdata. cbn [nth_error isString].
    change (String.eqb MAINNET MAINNET) with true. cbv iota.
    now rewrite Hens.
Qed.

End ResolveEdges.

(** ** The word under the cursor *)

Lemma takeString_full (s : string) : takeString (String.length s) s = s.
Proof. induction s as [|c s IH]; simpl; [reflexivity | now rewrite IH]. Qed.

Lemma takeString_add (a b : string) (k : nat) :
  takeString (String.length a + k) (a ++ b) = a ++ takeString k b.
Proof. induction a as [|c a IH]; simpl; [reflexivity | now rewrite IH]. Qed.

Lemma takeString_within (k : nat) (w rest : string) :
  k <= String.length w -> takeString k (w ++ rest) = takeString k w.
Proof.
  revert w; induction k as [|k IH]; intros w Hk; [now destruct w|].
  destruct w as [|c w]; simpl in *; [lia|]. rewrite IH by lia. reflexivity.
Qed.

Lemma substringFrom_within (k : nat) (w rest : string) :
  k <= String.length w -> substringFrom k (w ++ rest) = substringFrom k w ++ rest.
Proof.
  revert w; induction k as [|k IH]; intros w Hk; [reflexivity|].
  destruct w as [|c w]; simpl in *; [lia|]. apply IH. lia.
Qed.

Lemma substringFrom_skip (a b : string) (k : nat) :
  substringFrom (String.length a + k) (a ++ b) = substringFrom k b.
Proof. now rewrite <- substringFrom_add, substringFrom_append. Qed.

Lemma takeString_length (k : nat) (s : string) :
  String.length (takeString k s) = Nat.min k (String.length s).
Proof.
  revert s; induction k as [|k IH]; intros s; [now destruct s|].
  destruct s as [|c s]; simpl; [reflexivity | now rewrite IH].
Qed.

Lemma allChars_takeString (p : ascii -> bool) (k : nat) (s : string) :
  allChars p s = true -> allChars p (takeString k s) = true.
Proof.
  revert s; induction k as [|k IH]; intros s H; [now destruct s|].
  destruct s as [|c s]; [reflexivity|]. cbn [allChars takeString] in *.
  apply andb_prop in H as [-> H]. now rewrite IH.
Qed.

Lemma allChars_substringFrom (p : ascii -> bool) (k : nat) (s : string) :
  allChars p s = true -> allChars p (substringFrom k s) = true.
Proof.
  revert s; induction k as [|k IH]; intros s H; [exact H|].
  destruct s as [|c s]; [reflexivity|]. cbn [allChars substringFrom] in *.
  apply andb_prop in H as [_ H]. now apply IH.
Qed.

Lemma firstIndexWhere_none (isMatch : ascii -> bool) (w : string) :
  allChars (fun c => negb (isMatch c)) w = true -> firstIndexWhere isMatch w = None.
Proof.
  induction w as [|c w IH]; intros H; [reflexivity|]. cbn [allChars firstIndexWhere] in *.
  apply andb_prop in H as [Hc H]. apply negb_true_iff in Hc. now rewrite Hc, IH.
Qed.

Lemma firstIndexWhere_after (isMatch : ascii -> bool) (w : string) (b : ascii) (rest : string) :
  allChars (fun c => negb (isMatch c)) w = true -> isMatch b = true ->
  firstIndexWhere isMatch (w ++ String b rest) = Some (String.length w).
Proof.
  intros Hw Hb. induction w as [|c w IH]; cbn [append firstIndexWhere String.length].
  - now rewrite Hb.
  - cbn [allChars] in Hw. apply andb_prop in Hw as [Hc Hw]. apply negb_true_iff in Hc.
    now rewrite Hc, IH.
Qed.

Lemma lastIndexWhere_none (isMatch : ascii -> bool) (w : string) :
  allChars (fun c => negb (isMatch c)) w = true -> lastIndexWhere isMatch w = None.
Proof.
  induction w as [|c w IH]; intros H; [reflexivity|]. cbn [allChars lastIndexWhere] in *.
  apply andb_prop in H as [Hc H]. apply negb_true_iff in Hc. now rewrite IH, Hc.
Qed.

Lemma lastIndexWhere_before (isMatch : ascii -> bool) (x w : string) :
  allChars (fun c => negb (isMatch c)) w = true ->
  lastIndexWhere isMatch (x ++ w) = lastIndexWhere isMatch x.
Proof.
  intros Hw. induction x as [|c x IH]; cbn [append lastIndexWhere].
  - now apply lastIndexWhere_none.
  - now rewrite IH.
Qed.

Lemma lastIndexWhere_last (isMatch : ascii -> bool) (x : string) (c : ascii) :
  isMatch c = true -> lastIndexWhere isMatch (x ++ String c "") = Some (String.length x).
Proof.
  intros Hc. induction x as [|d x IH]; cbn [append lastIndexWhere String.length].
  - now rewrite Hc.
  - now rewrite IH.
Qed.

(** The word starts right after the last boundary before the cursor. *)
Lemma first_of_word (before w : string) :
  endsAtBoundary before -> isWordText w = true ->
  (lastIndexOfRegex (before ++ w) isBoundaryChar + 1)%Z = Z.of_nat (String.length before).
Proof.
  intros Hbefore Hw. unfold lastIndexOfRegex.
  rewrite (lastIndexWhere_before isBoundaryChar before w Hw).
  destruct Hbefore as [->|(before' & c & -> & Hc)].
  - reflexivity.
  - rewrite (lastIndexWhere_last isBoundaryChar before' c Hc), length_append. simpl. lia.
Qed.

Lemma clampIndex_inside (len n : nat) : n <= len -> clampIndex len (Z.of_nat n) = n.
Proof. intros H. unfold clampIndex. lia. Qed.

Lemma substring_inside (s : string) (i j : nat) :
  i <= j -> j <= String.length s ->
  substring s (Z.of_nat i) (Z.of_nat j) = slice i j s.
Proof.
  intros Hij Hj. unfold substring.
  rewrite !clampIndex_inside by lia. now rewrite Nat.min_l, Nat.max_r by lia.
Qed.

Lemma slice_prefix (n : nat) (s : string) : slice 0 n s = takeString n s.
Proof. unfold slice. now rewrite Nat.sub_0_r. Qed.

Lemma slice_suffix (n : nat) (s : string) :
  slice n (String.length s) s = substringFrom n s.
Proof.
  unfold slice. rewrite <- (substringFrom_length n s). apply takeString_full.
Qed.

Lemma getWord_inside (before word : string) (b : ascii) (after : string) (k : nat)
    (index : Z) :
  endsAtBoundary before ->
  isWordText word = true ->
  isBoundaryChar b = true ->
  k <= String.length word ->
  index = Z.of_nat (String.length before + k) ->
  getWord (before ++ word ++ String b after) index = word.
Proof.
  intros Hbefore Hword Hb Hk ->.
  remember (before ++ word ++ String b after) as text eqn:Htext.
  assert (Hlen : String.length text
                 = String.length before + String.length word + S (String.length after)).
  { subst text. rewrite !length_append. simpl. lia. }
  assert (Hbegin : substring text 0 (Z.of_nat (String.length before + k))
                   = before ++ takeString k word).
  { change 0%Z with (Z.of_nat 0). rewrite substring_inside, slice_prefix by lia.
    subst text. now rewrite takeString_add, takeString_within. }
  assert (Hend : substring text (Z.of_nat (String.length before + k))
                   (Z.of_nat (String.length text))
                 = substringFrom k word ++ String b after).
  { rewrite substring_inside, slice_suffix by lia.
    subst text. now rewrite substringFrom_skip, substringFrom_within. }
  unfold getWord. rewrite Hbegin, Hend.
  rewrite (first_of_word before (takeString k word) Hbefore)
    by (apply allChars_takeString; exact Hword).
  unfold indexOfRegex.
  rewrite (firstIndexWhere_after isBoundaryChar (substringFrom k word) b after)
    by (try apply allChars_substringFrom; assumption).
  rewrite substringFrom_length.
  destruct (Z.eqb_spec (Z.of_nat (String.length before)) (-1)) as [|_]; [lia|].
  destruct (Z.eqb_spec (Z.of_nat (String.length before + k)
                        + Z.of_nat (String.length word - k)) (-1)) as [|_]; [lia|].
  cbn [negb].
  replace (Z.of_nat (String.length before + k) + Z.of_nat (String.length word - k))%Z
    with (Z.of_nat (String.length before + String.length word)) by lia.
  rewrite substring_inside by lia.
  apply (slice_match _ _ _ _ (String b after)); [|reflexivity].
  subst text. now rewrite substringFrom_append.
Qed.

(** X13. With the cursor anywhere in a word, or at one of its ends, and a
    boundary character somewhere after it, [getWord] returns the word: the
    whole run of alphanumeric characters and dots around the cursor. *)
Theorem getWord_returns_the_word_around_the_cursor (before word : string) (b : ascii)
    (after : string) (k : nat) :
  endsAtBoundary before ->
  isWordText word = true ->
  isBoundaryChar b = true ->
  k <= String.length word ->
  getWord (before ++ word ++ String b after) (Z.of_nat (String.length before + k)) = word.
Proof.
  intros Hbefore Hword Hb Hk. now apply (getWord_inside before word b after k).
Qed.

Lemma indexOfRegex_none (w : string) :
  isWordText w = true -> indexOfRegex w isBoundaryChar = (-1)%Z.
Proof.
  intros Hw. unfold indexOfRegex. now rewrite (firstIndexWhere_none isBoundaryChar w Hw).
Qed.

(** X14. When no boundary character follows the cursor (the last word of a
    text that does not end in a separator), [getWord] does not return the
    word under the cursor.  With the cursor [k >= 1] characters into the
    word it returns the first [k - 1] characters of the word; at the start
    of the word it returns the boundary character before it, or the word
    without its last character when the word starts the text. *)
Theorem getWord_cuts_the_last_word (before word : string) (k : nat) :
  endsAtBoundary before ->
  isWordText word = true ->
  word <> "" ->
  k <= String.length word ->
  getWord (before ++ word) (Z.of_nat (String.length before + k)) <> word
  /\ (1 <= k ->
      getWord (before ++ word) (Z.of_nat (String.length before + k))
      = takeString (k - 1) word)
  /\ (k = 0 -> before = "" ->
      getWord (before ++ word) (Z.of_nat (String.length before + k))
      = takeString (String.length word - 1) word)
  /\ (k = 0 ->
      forall before' c, before = before' ++ String c "" ->
      getWord (before ++ word) (Z.of_nat (String.length before + k)) = String c "").
Proof.
  intros Hbefore Hword Hne Hk.
  assert (Hwl : 1 <= String.length word) by (destruct word; [now destruct Hne | simpl; lia]).
  remember (before ++ word) as text eqn:Htext.
  assert (Hlen : String.length text = String.length before + String.length word)
    by (subst text; apply length_append).
  assert (Hbegin : substring text 0 (Z.of_nat (String.length before + k))
                   = before ++ takeString k word).
  { change 0%Z with (Z.of_nat 0). rewrite substring_inside, slice_prefix by lia.
    subst text. now rewrite takeString_add. }
  assert (Hend : substring text (Z.of_nat (String.length before + k))
                   (Z.of_nat (String.length text))
                 = substringFrom k word).
  { rewrite substring_inside, slice_suffix by lia.
    subst text. now rewrite substringFrom_skip. }
  assert (Hword_at : substringFrom (String.length before) text = word ++ "")
    by (subst text; now rewrite substringFrom_append, append_empty_r).
  assert (Hget : getWord text (Z.of_nat (String.length before + k))
                 = substring text (Z.of_nat (String.length before))
                     (if negb (Z.of_nat (String.length before + k) + -1 =? -1)%Z
                      then (Z.of_nat (String.length before + k) + -1)%Z
                      else (Z.of_nat (String.length text) - 1)%Z)).
  { unfold getWord. rewrite Hbegin, Hend.
    rewrite (first_of_word before (takeString k word) Hbefore)
      by (apply allChars_takeString; exact Hword).
    rewrite indexOfRegex_none by (apply allChars_substringFrom; exact Hword).
    destruct (Z.eqb_spec (Z.of_nat (String.length before)) (-1)) as [|_]; [lia|].
    reflexivity. }
  assert (Hcase1 : 1 <= k ->
                   getWord text (Z.of_nat (String.length before + k))
                   = takeString (k - 1) word).
  { intros Hk1. rewrite Hget.
    destruct (Z.eqb_spec (Z.of_nat (String.length before + k) + -1) (-1)) as [|_]; [lia|].
    cbn [negb].
    replace (Z.of_nat (String.length before + k) + -1)%Z
      with (Z.of_nat (String.length before + (k - 1))) by lia.
    rewrite substring_inside by lia. unfold slice.
    replace (String.length before + (k - 1) - String.length before) with (k - 1) by lia.
    rewrite Hword_at, append_empty_r. reflexivity. }
  assert (Hcase2 : k = 0 -> before = "" ->
                   getWord text (Z.of_nat (String.length before + k))
                   = takeString (String.length word - 1) word).
  { intros -> ->. rewrite Hget.
    cbn [String.length Nat.add Z.of_nat Z.add Z.eqb Z.pos_sub Pos.eqb negb].
    cbn [String.length] in Hlen, Hword_at. cbn [substringFrom] in Hword_at.
    replace (Z.of_nat (String.length text) - 1)%Z
      with (Z.of_nat (String.length word - 1)) by lia.
    change 0%Z with (Z.of_nat 0). rewrite substring_inside, slice_prefix by lia.
    rewrite Hword_at, append_empty_r. reflexivity. }
  assert (Hcase3 : k = 0 -> forall before' c, before = before' ++ String c "" ->
                   getWord text (Z.of_nat (String.length before + k)) = String c "").
  { intros -> before' c Hb. rewrite Hget.
    assert (Hbl : String.length before = S (String.length before'))
      by (rewrite Hb, length_append; simpl; lia).
    destruct (Z.eqb_spec (Z.of_nat (String.length before + 0) + -1) (-1)) as [|_]; [lia|].
    cbn [negb].
    replace (Z.of_nat (String.length before + 0) + -1)%Z
      with (Z.of_nat (String.length before')) by lia.
    unfold substring. rewrite !clampIndex_inside by lia.
    rewrite Nat.min_r, Nat.max_l by lia. rewrite Hbl.
    replace (S (String.length before')) with (String.length before' + 1) by lia.
    apply (slice_match (String.length before') 1 text (String c "") word);
      [|reflexivity].
    subst text before. now rewrite append_assoc, substringFrom_append. }
  split; [|split; [|split]]; try assumption.
  destruct k as [|k].
  - destruct Hbefore as [Hempty|(before' & c & Hb & Hc)].
    + rewrite (Hcase2 eq_refl Hempty). intros Heq.
      apply (f_equal String.length) in Heq. rewrite takeString_length in Heq. lia.
    + rewrite (Hcase3 eq_refl _ _ Hb). intros Heq.
      destruct word as [|d word]; [discriminate|]. injection Heq as <- _.
      unfold isWordText in Hword. cbn [allChars] in Hword.
      apply andb_prop in Hword as [Hd _]. rewrite Hc in Hd. discriminate.
  - rewrite Hcase1 by lia. intros Heq.
    apply (f_equal String.length) in Heq. rewrite takeString_length in Heq. lia.
Qed.

(** ** Hovering *)

Section HoverTheorems.

Context {web3 : Web3Utils} {keys : KeyLibrary}.
Variable getHoverMarkdownForAddress : string -> Result string.

Lemma hoveredWord_inside (textDocument : TextDocumentLines) (position : Position)
    (word : string) :
  cursorInWord textDocument position word ->
  hoveredWord textDocument position = word.
Proof.
  intros (before & b & after & k & Htext & Hoffset & Hbefore & Hword & Hb & Hk).
  unfold hoveredWord. fold (lineOf position). rewrite Htext.
  apply (getWord_inside before word b after k); try assumption.
  change {| line := line position; character := 0 |} with (start (lineOf position)).
  rewrite Hoffset. lia.
Qed.

(** X15. Hovering anywhere in a word that is a valid Ethereum address
    shows what [getHoverMarkdownForAddress] gives for that address, and
    fails only if that fails; neither the key library nor the naming
    service is consulted, whatever the state of the server. *)
Theorem hover_shows_the_address_under_the_cursor (server : Server)
    (textDocument : TextDocumentLines) (position : Position) (word : string) :
  cursorInWord textDocument position word ->
  isValidEthereumAddress word = true ->
  onHover getHoverMarkdownForAddress server (Some textDocument) position
  = mapResult (fun buf => {| contents := buf |}) (getHoverMarkdownForAddress word).
Proof.
  intros Hcursor Hvalid. unfold onHover.
  rewrite (hoveredWord_inside _ _ _ Hcursor), Hvalid.
  now destruct (getHoverMarkdownForAddress word).
Qed.

(** X16. Hovering in a word that is neither an address nor a private key
    treats the word as an ENS name.  While the naming client is not set the
    handler throws the [TypeError] of reading [ens.resolver], and with a
    client it throws what the call [ens.resolver(word)] throws.  When that
    call returns, a lookup that is rejected, or that gives the empty string
    or the zero address, leaves the hover empty; any other answer is shown
    as an address. *)
Theorem hover_looks_up_a_name (server : Server) (textDocument : TextDocumentLines)
    (position : Position) (word : string) :
  cursorInWord textDocument position word ->
  isValidEthereumAddress word = false ->
  isPrivateKey (normalizeHex word) = Ok false ->
  onHover getHoverMarkdownForAddress server (Some textDocument) position
  = match ens server with
    | None => Throw (ensUndefined "resolver")
    | Some client =>
        match resolver client word with
        | Throw e => Throw e
        | Ok found =>
            match resolver_addr found with
            | Throw _ => Ok {| contents := "" |}
            | Ok address =>
                if String.eqb address "" || String.eqb address ZERO_ADDRESS
                then Ok {| contents := "" |}
                else mapResult (fun buf => {| contents := buf |})
                       (getHoverMarkdownForAddress address)
            end
        end
    end.
Proof.
  intros Hcursor Hvalid Hkey. unfold onHover.
  rewrite (hoveredWord_inside _ _ _ Hcursor), Hvalid, Hkey.
  cbn [bind]. unfold ENSLookup.
  destruct (ens server) as [client|]; [|reflexivity].
  destruct (resolver client word) as [found|e]; [|reflexivity].
  cbn [bind].
  destruct (resolver_addr found) as [address|e]; [|reflexivity].
  cbn [catch bind].
  destruct (String.eqb address ZERO_ADDRESS) eqn:Hzero; cbn [negb bind].
  - rewrite orb_true_r. reflexivity.
  - rewrite orb_false_r. destruct (String.eqb address ""); cbn [negb]; [reflexivity|].
    now destruct (getHoverMarkdownForAddress address).
Qed.

(** X17. Hovering in a word that is not an address but is a private key
    once [normalizeHex] gave it its [0x] prefix shows what
    [getHoverMarkdownForAddress] gives for the address of that key; the naming
    service is not consulted. *)
Theorem hover_shows_the_address_of_a_private_key (server : Server)
    (textDocument : TextDocumentLines) (position : Position) (word : string) :
  cursorInWord textDocument position word ->
  isValidEthereumAddress word = false ->
  isPrivateKey (normalizeHex word) = Ok true ->
  onHover getHoverMarkdownForAddress server (Some textDocument) position
  = (address <- toPublicKey (normalizeHex word) ;;
     mapResult (fun buf => {| contents := buf |}) (getHoverMarkdownForAddress address))%js.
Proof.
  intros Hcursor Hvalid Hkey. unfold onHover.
  rewrite (hoveredWord_inside _ _ _ Hcursor), Hvalid, Hkey.
  cbn [bind]. destruct (toPublicKey (normalizeHex word)) as [address|e]; [|reflexivity].
  cbn [bind]. now destruct (getHoverMarkdownForAddress address).
Qed.

End HoverTheorems.

(** ** Document settings *)

Lemma Map_get_set_same {V : Type} (m : Map V) (key : string) (value : V) :
  Map_get (Map_set m key value) key = Some value.
Proof.
  induction m as [|[k v] m IH]; simpl.
  - now rewrite String.eqb_refl.
  - destruct (String.eqb k key) eqn:Hk; simpl; now rewrite Hk.
Qed.

Lemma Map_get_set_other {V : Type} (m : Map V) (key other : string) (value : V) :
  other <> key -> Map_get (Map_set m other value) key = Map_get m key.
Proof.
  intros Hne. induction m as [|[k v] m IH]; simpl.
  - destruct (String.eqb_spec other key); [contradiction | reflexivity].
  - destruct (String.eqb_spec k other) as [->|Hk]; simpl.
    + destruct (String.eqb_spec other key); [contradiction | reflexivity].
    + now rewrite IH.
Qed.

Lemma Map_get_delete_same {V : Type} (m : Map V) (key : string) :
  Map_get (Map_delete m key) key = None.
Proof.
  induction m as [|[k v] m IH]; simpl; [reflexivity|].
  destruct (String.eqb k key) eqn:Hk; simpl; [exact IH | now rewrite Hk].
Qed.

Lemma Map_get_delete_other {V : Type} (m : Map V) (key other : string) :
  other <> key -> Map_get (Map_delete m other) key = Map_get m key.
Proof.
  intros Hne. induction m as [|[k v] m IH]; simpl; [reflexivity|].
  destruct (String.eqb_spec k other) as [->|Hk]; simpl.
  - destruct (String.eqb_spec other key); [contradiction | exact IH].
  - now rewrite IH.
Qed.

Lemma Map_set_absent {V : Type} (m : Map V) (key : string) (value : V) :
  Map_get m key = None -> Map_set m key value = (m ++ [(key, value)])%list.
Proof.
  induction m as [|[k v] m IH]; simpl; [reflexivity|].
  destruct (String.eqb k key); [discriminate|]. intros H. now rewrite IH.
Qed.

Lemma Map_get_absent {V : Type} (m : Map V) (key : string) :
  ~ In key (map fst m) -> Map_get m key = None.
Proof.
  induction m as [|[k v] m IH]; simpl; [reflexivity|].
  intros Hnot. destruct (String.eqb_spec k key) as [->|_]; [tauto|].
  apply IH. tauto.
Qed.

Section SettingsTheorems.

Variable getConfiguration : nat -> string -> Result DefiSettings.

Lemma getDocumentSettings_cached (store : SettingsStore) (resource : string)
    (result : Result DefiSettings) :
  hasConfigurationCapability store = true ->
  Map_get (documentSettings store) resource = Some result ->
  getDocumentSettings getConfiguration store resource = (store, result).
Proof. intros Hcap Hget. unfold getDocumentSettings. now rewrite Hcap, Hget. Qed.

Lemma getDocumentSettings_fresh (store : SettingsStore) (resource : string) :
  hasConfigurationCapability store = true ->
  Map_get (documentSettings store) resource = None ->
  getDocumentSettings getConfiguration store resource
  = ({| hasConfigurationCapability := true;
        globalSettings := globalSettings store;
        documentSettings :=
          (documentSettings store
             ++ [(resource, getConfiguration (List.length (requested store)) resource)])%list;
        requested := (requested store ++ [resource])%list |},
     getConfiguration (List.length (requested store)) resource).
Proof.
  intros Hcap Hget. unfold getDocumentSettings.
  now rewrite Hcap, Hget, (Map_set_absent _ _ _ Hget).
Qed.

Lemma getDocumentSettings_caches (store : SettingsStore) (resource : string) :
  hasConfigurationCapability store = true ->
  hasConfigurationCapability (fst (getDocumentSettings getConfiguration store resource)) = true
  /\ Map_get (documentSettings (fst (getDocumentSettings getConfiguration store resource)))
       resource
     = Some (snd (getDocumentSettings getConfiguration store resource)).
Proof.
  intros Hcap.
  destruct (Map_get (documentSettings store) resource) as [result|] eqn:Hget.
  - rewrite (getDocumentSettings_cached _ _ _ Hcap Hget). simpl. now split.
  - unfold getDocumentSettings. rewrite Hcap, Hget. simpl. split; [reflexivity|].
    apply Map_get_set_same.
Qed.

Lemma notify_keeps (store : SettingsStore) (resource : string)
    (result : Result DefiSettings) (notification : Notification) :
  hasConfigurationCapability store = true ->
  Map_get (documentSettings store) resource = Some result ->
  keepsSettingsOf resource notification ->
  hasConfigurationCapability (notify getConfiguration store notification) = true
  /\ Map_get (documentSettings (notify getConfiguration store notification)) resource
     = Some result
  /\ count_occ string_dec (requested (notify getConfiguration store notification)) resource
     = count_occ string_dec (requested store) resource.
Proof.
  intros Hcap Hget Hkeeps. destruct notification as [uri|uri|settings all]; simpl in *.
  - unfold onDidChangeContent.
    destruct (Map_get (documentSettings store) uri) as [other|] eqn:Huri.
    + rewrite (getDocumentSettings_cached _ _ _ Hcap Huri). simpl. now repeat split.
    + assert (Hne : uri <> resource) by (intros ->; congruence).
      rewrite (getDocumentSettings_fresh _ _ Hcap Huri). simpl.
      split; [reflexivity|]. split.
      * rewrite <- (Map_set_absent _ _ _ Huri). now rewrite Map_get_set_other.
      * rewrite count_occ_app. simpl.
        destruct (string_dec uri resource); [contradiction | lia].
  - split; [exact Hcap|]. split; [|reflexivity].
    now rewrite Map_get_delete_other.
  - contradiction.
Qed.

Lemma notifyAll_keeps (notifications : list Notification) (store : SettingsStore)
    (resource : string) (result : Result DefiSettings) :
  hasConfigurationCapability store = true ->
  Map_get (documentSettings store) resource = Some result ->
  Forall (keepsSettingsOf resource) notifications ->
  hasConfigurationCapability (notifyAll getConfiguration store notifications) = true
  /\ Map_get (documentSettings (notifyAll getConfiguration store notifications)) resource
     = Some result
  /\ count_occ string_dec (requested (notifyAll getConfiguration store notifications)) resource
     = count_occ string_dec (requested store) resource.
Proof.
  revert store. induction notifications as [|notification rest IH]; intros store Hcap Hget Hall.
  - now repeat split.
  - inversion Hall as [|? ? Hkeeps Hrest]; subst.
    destruct (notify_keeps store resource result notification Hcap Hget Hkeeps)
      as (Hcap' & Hget' & Hcount).
    destruct (IH _ Hcap' Hget' Hrest) as (Hcap'' & Hget'' & Hcount'').
    unfold notifyAll in *. simpl. repeat split; try assumption.
    now rewrite Hcount''.
Qed.

(** X18. With the configuration capability, the settings of a document
    are requested from the client once: the promise that
    [getDocumentSettings] returned first, settled or rejected, is returned
    again after any later changes of content and closings of other
    documents, and no further request for the document is sent meanwhile. *)
Theorem settings_are_requested_once_per_document (store : SettingsStore)
    (resource : string) (notifications : list Notification) :
  hasConfigurationCapability store = true ->
  Forall (keepsSettingsOf resource) notifications ->
  let opened := fst (getDocumentSettings getConfiguration store resource) in
  let answer := snd (getDocumentSettings getConfiguration store resource) in
  let later := notifyAll getConfiguration opened notifications in
  getDocumentSettings getConfiguration later resource = (later, answer)
  /\ count_occ string_dec (requested later) resource
     = count_occ string_dec (requested opened) resource.
Proof.
  intros Hcap Hall opened answer later.
  destruct (getDocumentSettings_caches store resource Hcap) as [Hcap' Hget'].
  destruct (notifyAll_keeps notifications _ resource _ Hcap' Hget' Hall)
    as (Hcap'' & Hget'' & Hcount).
  split; [|exact Hcount].
  now apply getDocumentSettings_cached.
Qed.

Lemma revalidate_without_capability (all : list string) (store : SettingsStore) :
  hasConfigurationCapability store = false ->
  fold_left (onDidChangeContent getConfiguration) all store = store.
Proof.
  intros Hcap. induction all as [|uri rest IH]; simpl; [reflexivity|].
  unfold onDidChangeContent at 2. unfold getDocumentSettings. rewrite Hcap. exact IH.
Qed.

Lemma notifyAll_without_capability (notifications : list Notification)
    (store : SettingsStore) :
  hasConfigurationCapability store = false ->
  hasConfigurationCapability (notifyAll getConfiguration store notifications) = false
  /\ requested (notifyAll getConfiguration store notifications) = requested store
  /\ globalSettings (notifyAll getConfiguration store notifications)
     = lastPushedSettings (globalSettings store) notifications.
Proof.
  revert store. induction notifications as [|notification rest IH]; intros store Hcap.
  - now repeat split.
  - unfold notifyAll, lastPushedSettings in *. simpl.
    destruct notification as [uri|uri|settings all]; simpl.
    + unfold onDidChangeContent, getDocumentSettings. rewrite Hcap. simpl.
      now apply IH.
    + destruct (IH (onDidClose store uri) Hcap) as (H1 & H2 & H3). now repeat split.
    + unfold onDidChangeConfiguration. rewrite Hcap.
      destruct settings as [defi|]; cbn [bind]; [|now apply IH].
      rewrite revalidate_without_capability by reflexivity.
      match goal with
      | |- context [fold_left _ rest ?s] =>
          destruct (IH s eq_refl) as (H1 & H2 & H3)
      end.
      split; [exact H1|]. split; [exact H2|].
      rewrite H3. simpl. now destruct defi.
Qed.

(** X19. Without the configuration capability the server never asks the
    client for settings: whatever notifications arrive, no request is sent,
    and every document gets the [defi] section of the last configuration
    change that carried settings (the defaults if they had no such section),
    or the settings held before if there was none.  A configuration change
    that carries no settings throws and changes nothing. *)
Theorem without_capability_settings_are_pushed (store : SettingsStore)
    (notifications : list Notification) (resource : string) :
  hasConfigurationCapability store = false ->
  let later := notifyAll getConfiguration store notifications in
  requested later = requested store
  /\ getDocumentSettings getConfiguration later resource
     = (later, Ok (lastPushedSettings (globalSettings store) notifications))
  /\ (forall all,
        onDidChangeConfiguration getConfiguration later None all
        = Throw "TypeError: Cannot read property 'defi' of null").
Proof.
  intros Hcap later.
  destruct (notifyAll_without_capability notifications store Hcap) as (H1 & H2 & H3).
  split; [exact H2|]. fold later in H1, H3. split.
  - unfold getDocumentSettings. now rewrite H1, H3.
  - intros all. unfold onDidChangeConfiguration. now rewrite H1.
Qed.

Lemma revalidate_fresh (all : list string) (store : SettingsStore) :
  hasConfigurationCapability store = true ->
  NoDup all ->
  (forall uri, In uri all -> ~ In uri (map fst (documentSettings store))) ->
  let later := fold_left (onDidChangeContent getConfiguration) all store in
  requested later = (requested store ++ all)%list
  /\ map fst (documentSettings later) = (map fst (documentSettings store) ++ all)%list
  /\ globalSettings later = globalSettings store
  /\ hasConfigurationCapability later = true.
Proof.
  revert store. induction all as [|uri rest IH]; intros store Hcap Hnodup Hfresh; simpl.
  - now rewrite !app_nil_r.
  - inversion Hnodup as [|? ? Hnotin Hrest]; subst.
    assert (Hget : Map_get (documentSettings store) uri = None)
      by (apply Map_get_absent, Hfresh; now left).
    unfold onDidChangeContent at 2 4 6 8.
    rewrite (getDocumentSettings_fresh _ _ Hcap Hget). cbn [fst].
    match goal with
    | |- context [fold_left _ rest ?s] =>
        destruct (IH s eq_refl Hrest) as (H1 & H2 & H3 & H4)
    end.
    + intros other Hin. cbn [documentSettings]. rewrite map_app, in_app_iff. simpl.
      intros [Hold|[->|[]]]; [|contradiction].
      apply (Hfresh other); [now right | exact Hold].
    + rewrite H1, H2, H3, H4. cbn [requested documentSettings globalSettings].
      rewrite map_app, <- !app_assoc. simpl. now repeat split.
Qed.

(** X20. With the configuration capability, a configuration change
    drops every cached answer and asks the client again for each open
    document, once and in the order of [documents.all()]; afterwards the
    cache holds exactly the open documents.  The settings carried by the
    notification itself are not used. *)
Theorem configuration_change_requests_open_documents (store : SettingsStore)
    (settings : option (option DefiSettings)) (all : list string) :
  hasConfigurationCapability store = true ->
  NoDup all ->
  exists later,
    onDidChangeConfiguration getConfiguration store settings all = Ok later
    /\ requested later = (requested store ++ all)%list
    /\ map fst (documentSettings later) = all
    /\ globalSettings later = globalSettings store.
Proof.
  intros Hcap Hnodup. unfold onDidChangeConfiguration. rewrite Hcap. cbn [bind].
  eexists. split; [reflexivity|].
  match goal with
  | |- context [fold_left _ all ?s] =>
      destruct (revalidate_fresh all s eq_refl Hnodup) as (H1 & H2 & H3 & _)
  end.
  - intros uri _ [].
  - rewrite H1, H2, H3. now repeat split.
Qed.

(** X21. With the configuration capability, closing a document forgets
    its settings: the next [getDocumentSettings] for it sends a new request
    and returns the client's new answer. *)
Theorem closed_document_is_requested_again (store : SettingsStore) (resource : string) :
  hasConfigurationCapability store = true ->
  let reopened :=
    getDocumentSettings getConfiguration (onDidClose store resource) resource in
  snd reopened = getConfiguration (List.length (requested store)) resource
  /\ requested (fst reopened) = (requested store ++ [resource])%list
  /\ Map_get (documentSettings (fst reopened)) resource = Some (snd reopened).
Proof.
  intros Hcap reopened. unfold reopened.
  rewrite getDocumentSettings_fresh;
    [|exact Hcap | apply Map_get_delete_same].
  cbn [fst snd requested documentSettings onDidClose]. repeat split.
  rewrite <- (Map_set_absent _ _ _ (Map_get_delete_same (documentSettings store) resource)).
  apply Map_get_set_same.
Qed.

End SettingsTheorems.

(** ** Completion *)

Lemma includes_occursIn (s search : string) :
  includes s search = true <-> occursIn search s.
Proof.
  split.
  - induction s as [|c s IH]; simpl; rewrite orb_true_iff.
    + intros [H|H]; [|discriminate].
      apply startsWith_inv in H. now exists EmptyString, (substringFrom (String.length search) EmptyString).
    + intros [H|H].
      * apply startsWith_inv in H.
        now exists EmptyString, (substringFrom (String.length search) (String c s)).
      * destruct (IH H) as (before & after & ->). now exists (String c before), after.
  - intros (before & after & ->). induction before as [|c before IH].
    + change ("" ++ search ++ after) with (search ++ after).
      destruct (search ++ after) eqn:Heq; simpl; rewrite <- Heq;
        now rewrite startsWith_append.
    + simpl. rewrite IH. apply orb_true_r.
Qed.

Section CompletionTheorems.

Context {web3 : Web3Utils}.

(** X22. A snippet's import line is added at the top of the file exactly
    when it is missing: the item that [insertSnippet] pushes carries no
    additional edit if the document is open and its text contains the
    import, and otherwise one edit that inserts the import at line 0,
    character 0.  The snippet itself is inserted at the cursor. *)
Theorem snippet_import_is_added_when_missing (textDocument : option TextDocument)
    (position : Position) (snippetText : string) (completionItems : list CompletionItem)
    (imports label : string) (sortOrder : nat) :
  exists item,
    insertSnippet textDocument position snippetText completionItems (Some imports)
      label sortOrder
    = (completionItems ++ [item])%list
    /\ textEdit item = {| edit_range := {| start := position; end_ := position |};
                          newText := snippetText |}
    /\ ((exists document,
           textDocument = Some document /\ occursIn imports (getText document))
        -> additionalTextEdits item = None)
    /\ (~ (exists document,
             textDocument = Some document /\ occursIn imports (getText document))
        -> additionalTextEdits item
           = Some [ {| edit_range := {| start := {| line := 0; character := 0 |};
                                        end_ := {| line := 0; character := 0 |} |};
                       newText := imports |} ]).
Proof.
  unfold insertSnippet. eexists. split; [reflexivity|]. split; [reflexivity|].
  cbn [additionalTextEdits]. split.
  - intros (document & -> & Hoccurs). cbn [option_map].
    apply includes_occursIn in Hoccurs. now rewrite Hoccurs.
  - intros Hnot. destruct textDocument as [document|]; cbn [option_map]; [|reflexivity].
    destruct (includes (getText document) imports) eqn:Hincludes; [|reflexivity].
    exfalso. apply Hnot. exists document. split; [reflexivity|].
    now apply includes_occursIn.
Qed.

Lemma insertSnippet_onlyInserts (textDocument : option TextDocument)
    (position : Position) (snippetText : string) (completionItems : list CompletionItem)
    (imports label : string) (sortOrder : nat) :
  Forall (onlyInserts textDocument position) completionItems ->
  Forall (onlyInserts textDocument position)
    (insertSnippet textDocument position snippetText completionItems (Some imports)
       label sortOrder).
Proof.
  intros Hitems. unfold insertSnippet. apply Forall_app. split; [exact Hitems|].
  constructor; [|constructor]. split; [reflexivity|].
  cbn [additionalTextEdits]. intros edits Hedits.
  destruct textDocument as [document|]; cbn [option_map] in Hedits.
  - destruct (includes (getText document) imports) eqn:Hincludes; [discriminate|].
    injection Hedits as <-. exists imports. split; [reflexivity|].
    intros (document' & Hsome & Hoccurs). injection Hsome as <-.
    apply includes_occursIn in Hoccurs. congruence.
  - injection Hedits as <-. exists imports. split; [reflexivity|].
    intros (document' & Hsome & _). discriminate.
Qed.

Lemma fold_left_push_one {A B : Type} (f : A -> B) (l : list A) (acc : list B) :
  fold_left (fun acc a => (acc ++ [f a])%list) l acc = (acc ++ map f l)%list.
Proof.
  revert acc. induction l as [|a l IH]; intros acc; simpl.
  - now rewrite app_nil_r.
  - now rewrite IH, <- app_assoc.
Qed.

Lemma onCompletion_tokens_first (tokens : list Token) (textDocument : option TextDocument)
    (position : Position) :
  onCompletion tokens textDocument position
  = (map (fun token =>
            {| label := "Token: " ++ token_name token ++ " (" ++ token_symbol token ++ ")";
               item_kind := Value;
               data := Some token;
               textEdit := {| edit_range := {| start := position; end_ := position |};
                              newText := getChecksumAddress (token_address token) |};
               sortText := None;
               additionalTextEdits := None |}) tokens
     ++ onCompletion [] textDocument position)%list.
Proof.
  unfold onCompletion, insertSnippet. cbv zeta.
  rewrite (fold_left_push_one _ tokens []). cbn [fold_left app].
  rewrite <- !app_assoc. reflexivity.
Qed.

(** X23. Completion offers one item per ranked token, in the order of the
    ranking, followed by the seven snippets in their sort order, also when
    the ranking is empty.  Every item inserts at the cursor and replaces
    nothing; an item's additional edit, if it has one, inserts at the top of
    the file an import that the open document does not contain. *)
Theorem completion_only_inserts (tokens : list Token) (textDocument : option TextDocument)
    (position : Position) :
  let items := onCompletion tokens textDocument position in
  List.length items = List.length tokens + 7
  /\ map data (firstn (List.length tokens) items) = map Some tokens
  /\ map (fun item => (label item, sortText item)) (skipn (List.length tokens) items)
     = [ ("DeFi: Uniswap token", Some "0");
         ("DeFi: Uniswap pair", Some "1");
         ("DeFi: Uniswap route", Some "2");
         ("DeFi: Uniswap trade", Some "3");
         ("DeFi: pTokens", Some "4");
         ("DeFi: pTokens (web3)", Some "5");
         ("DeFi: pTokens (pBTC deposit address)", Some "6") ]
  /\ Forall (onlyInserts textDocument position) items.
Proof.
  intros items. split; [|split; [|split]].
  - unfold items. rewrite onCompletion_tokens_first, length_app, length_map. reflexivity.
  - unfold items. rewrite onCompletion_tokens_first.
    rewrite <- (length_map
                  (fun token =>
                     {| label := "Token: " ++ token_name token ++ " ("
                                   ++ token_symbol token ++ ")";
                        item_kind := Value;
                        data := Some token;
                        textEdit := {| edit_range := {| start := position;
                                                        end_ := position |};
                                       newText := getChecksumAddress (token_address token) |};
                        sortText := None;
                        additionalTextEdits := None |}) tokens) at 1.
    rewrite firstn_app, Nat.sub_diag, firstn_all. cbn [firstn]. rewrite app_nil_r.
    rewrite map_map. reflexivity.
  - unfold items. rewrite onCompletion_tokens_first.
    rewrite <- (length_map
                  (fun token =>
                     {| label := "Token: " ++ token_name token ++ " ("
                                   ++ token_symbol token ++ ")";
                        item_kind := Value;
                        data := Some token;
                        textEdit := {| edit_range := {| start := position;
                                                        end_ := position |};
                                       newText := getChecksumAddress (token_address token) |};
                        sortText := None;
                        additionalTextEdits := None |}) tokens) at 1.
    rewrite skipn_app, Nat.sub_diag, skipn_all. reflexivity.
  - unfold items, onCompletion. cbv zeta.
    repeat apply insertSnippet_onlyInserts.
    rewrite (fold_left_push_one _ tokens []). cbn [app].
    apply Forall_map, Forall_forall. intros token _. split; [reflexivity|].
    cbn [additionalTextEdits]. discriminate.
Qed.

End CompletionTheorems.

(** ** The further properties on the fixtures *)

Lemma invalid_candidates_need_no_client_witness :
  match snd (@validateTextDocument Reference.web3 (fun _ => Fixtures.unreachable)
               initialServer defaultSettings Fixtures.wrongCapital) with
  | Ok params =>
      map (fun diagnostic => (severity diagnostic, code diagnostic)) (diagnostics params)
      = [(Error, Some (CodeString "NotValidAddress"))]
  | Throw _ => False
  end.
Proof.
  assert (Hcandidates :
            firstn (Z.to_nat (maxNumberOfProblems defaultSettings))
                   (findPossibleEthereumAddresses Fixtures.wrongCapital)
            = [ {| range := {| start := {| line := 0; character := 6 |};
                               end_ := {| line := 0; character := 48 |} |};
                   content := "0xD8dA6BF26964aF9D7eEd9e03E53415D37aA96045" |} ])
    by (vm_compute; reflexivity).
  assert (Hinvalid :
            Forall (fun element => @isAddress Reference.web3 (content element) = false)
              (firstn (Z.to_nat (maxNumberOfProblems defaultSettings))
                      (findPossibleEthereumAddresses Fixtures.wrongCapital))).
  { rewrite Hcandidates. constructor; [|constructor]. vm_compute. reflexivity. }
  rewrite (@invalid_candidates_need_no_client Reference.web3
             (fun _ => Fixtures.unreachable) initialServer defaultSettings
             Fixtures.wrongCapital Hinvalid).
  rewrite Hcandidates. reflexivity.
Defined.

Lemma hint_carries_the_looked_up_name_witness :
  exists contribution ensName,
    @validateElement Reference.web3 Examples.configured Fixtures.oneAddress []
      Examples.candidate = Ok contribution
    /\ @reverseENSLookup Reference.web3 (ens Examples.configured) Fixtures.lowerAddress
       = Ok ensName
    /\ map code (filter isHint contribution)
       = [Some (CodeString ("ConvertENSName" ++ ensName))].
Proof.
  destruct (@validateElement Reference.web3 Examples.configured Fixtures.oneAddress []
              Examples.candidate) as [contribution|e] eqn:H;
    [|vm_compute in H; discriminate H].
  assert (Hvalid : @isAddress Reference.web3 (content Examples.candidate) = true)
    by (vm_compute; reflexivity).
  destruct (proj2 (@hint_carries_the_looked_up_name Reference.web3 Examples.configured
                     Fixtures.oneAddress Examples.candidate contribution H) Hvalid)
    as (ensName & Hname & Hhint).
  exists contribution, ensName. split; [reflexivity|]. split; [exact Hname|].
  rewrite Hhint. vm_compute in Hname. injection Hname as <-. reflexivity.
Defined.

Lemma quick_fixes_of_a_candidate_witness :
  exists contribution,
    @validateElement Reference.web3 Examples.configured Fixtures.oneAddress []
      Examples.candidate = Ok contribution
    /\ map (fun action => changes (edit action))
           (getCodeActions contribution Fixtures.oneAddress)
       = [ replacement Fixtures.oneAddress (range Examples.candidate)
             Fixtures.checksumAddress;
           replacement Fixtures.oneAddress (range Examples.candidate) "vitalik.eth" ].
Proof.
  destruct (@validateElement Reference.web3 Examples.configured Fixtures.oneAddress []
              Examples.candidate) as [contribution|e] eqn:H;
    [|vm_compute in H; discriminate H].
  assert (Hvalid : @isAddress Reference.web3 (content Examples.candidate) = true)
    by (vm_compute; reflexivity).
  destruct (proj2 (@quick_fixes_of_a_candidate Reference.web3 Examples.configured
                     Fixtures.oneAddress Fixtures.oneAddress Examples.candidate
                     contribution H) Hvalid)
    as (checksumAddress & ensName & Hchecksum & Hname & Hfixes).
  exists contribution. split; [reflexivity|].
  rewrite Hfixes. vm_compute in Hchecksum, Hname.
  injection Hchecksum as <-. injection Hname as <-. reflexivity.
Defined.

Lemma configure_effects_witness :
  ens (configure (fun _ => Fixtures.oneRecord) initialServer Fixtures.capOne)
  = Some Fixtures.oneRecord
  /\ ens (configure (fun _ => Fixtures.unreachable) Examples.configured defaultSettings)
     = Some Fixtures.oneRecord.
Proof.
  split.
  - apply (proj1 (configure_effects (fun _ => Fixtures.oneRecord) initialServer
                    Fixtures.capOne)).
    discriminate.
  - apply (proj1 (proj2 (configure_effects (fun _ => Fixtures.unreachable)
                           Examples.configured defaultSettings))).
    reflexivity.
Defined.

Lemma testnet_lens_resolves_without_lookup_witness :
  @onCodeLensResolve Reference.web3 Examples.noToken initialServer
    {| lens_range := range Examples.candidate; lens_command := None;
       lens_data := [CODE_LENS_TYPE_ETH_ADDRESS; GOERLI; Fixtures.lowerAddress] |}
  = Ok {| lens_range := range Examples.candidate;
          lens_command :=
            Some (Command_create "(goerli)" "etherscan.show.url"
                    ["https://goerli.etherscan.io/address/" ++ Fixtures.lowerAddress]);
          lens_data := [CODE_LENS_TYPE_ETH_ADDRESS; GOERLI; Fixtures.lowerAddress] |}.
Proof.
  apply (@testnet_lens_resolves_without_lookup Reference.web3 Examples.noToken
           initialServer (range Examples.candidate) None CODE_LENS_TYPE_ETH_ADDRESS
           GOERLI Fixtures.lowerAddress).
  simpl. tauto.
Defined.

Lemma mainnet_lens_title_witness :
  exists codeLens,
    @onCodeLensResolve Reference.web3 Examples.noToken Examples.configured
      {| lens_range := range Examples.candidate; lens_command := None;
         lens_data := [CODE_LENS_TYPE_ETH_ADDRESS; MAINNET; Fixtures.lowerAddress] |}
    = Ok codeLens
    /\ option_map arguments (lens_command codeLens)
       = Some ["https://etherscan.io/address/" ++ Fixtures.lowerAddress].
Proof.
  destruct (@mainnet_lens_title Reference.web3 Examples.noToken Examples.configured
              Fixtures.oneRecord (range Examples.candidate) None
              CODE_LENS_TYPE_ETH_ADDRESS Fixtures.lowerAddress None
              eq_refl eq_refl (or_introl eq_refl))
    as (ensName & _ & Hresolved).
  eexists. split; [exact Hresolved | reflexivity].
Defined.

Lemma every_emitted_lens_resolves_witness :
  exists codeLenses codeLens,
    @onCodeLens Reference.web3 Reference.keys (Some Fixtures.addressAndKey) = Ok codeLenses
    /\ In codeLens codeLenses
    /\ exists resolved,
         @onCodeLensResolve Reference.web3 Examples.noToken Examples.configured codeLens
         = Ok resolved
         /\ lens_range resolved = lens_range codeLens
         /\ lens_data resolved = lens_data codeLens.
Proof.
  destruct (@onCodeLens Reference.web3 Reference.keys (Some Fixtures.addressAndKey))
    as [codeLenses|e] eqn:H; [|vm_compute in H; discriminate H].
  destruct codeLenses as [|codeLens rest]; [vm_compute in H; discriminate H|].
  exists (codeLens :: rest), codeLens. split; [reflexivity|]. split; [now left|].
  destruct (@every_emitted_lens_resolves Reference.web3 Reference.keys Examples.noToken
              Examples.configured Fixtures.oneRecord (Some Fixtures.addressAndKey)
              (codeLens :: rest) codeLens H (or_introl eq_refl) eq_refl
              (fun _ => ex_intro _ None eq_refl))
    as (codeLensType & network & address & title & _ & _ & Hresolved).
  eexists. split; [exact Hresolved|]. split; reflexivity.
Defined.

Lemma unresolvable_lenses_witness :
  @onCodeLensResolve Reference.web3 Examples.noToken initialServer
    {| lens_range := range Examples.candidate; lens_command := None;
       lens_data := [CODE_LENS_TYPE_ETH_ADDRESS; "sepolia"; Fixtures.lowerAddress] |}
  = Ok {| lens_range := range Examples.candidate; lens_command := None;
          lens_data := [CODE_LENS_TYPE_ETH_ADDRESS; "sepolia"; Fixtures.lowerAddress] |}
  /\ @onCodeLensResolve Reference.web3 Examples.noToken initialServer
       {| lens_range := range Examples.candidate; lens_command := None;
          lens_data := [CODE_LENS_TYPE_ETH_ADDRESS; MAINNET; Fixtures.lowerAddress] |}
     = Throw (ensUndefined "reverse").
Proof.
  split.
  - apply (proj1 (@unresolvable_lenses Reference.web3 Examples.noToken initialServer
                    {| lens_range := range Examples.candidate; lens_command := None;
                       lens_data := [CODE_LENS_TYPE_ETH_ADDRESS; "sepolia";
                                     Fixtures.lowerAddress] |})
             CODE_LENS_TYPE_ETH_ADDRESS "sepolia" Fixtures.lowerAddress []).
    + reflexivity.
    + simpl. intuition discriminate.
  - apply (proj2 (proj2 (proj2
             (@unresolvable_lenses Reference.web3 Examples.noToken initialServer
                {| lens_range := range Examples.candidate; lens_command := None;
                   lens_data := [CODE_LENS_TYPE_ETH_ADDRESS; MAINNET;
                                 Fixtures.lowerAddress] |})))
             CODE_LENS_TYPE_ETH_ADDRESS Fixtures.lowerAddress []).
    + reflexivity.
    + reflexivity.
Defined.

Lemma getWord_returns_the_word_around_the_cursor_witness :
  getWord "send to vitalik.eth soon" 11 = "vitalik.eth".
Proof.
  apply (getWord_returns_the_word_around_the_cursor "send to " "vitalik.eth" " " "soon" 3).
  - right. now exists "send to", " "%char.
  - reflexivity.
  - reflexivity.
  - simpl. lia.
Defined.

Lemma getWord_cuts_the_last_word_witness :
  getWord "send to vitalik.eth" 11 <> "vitalik.eth"
  /\ getWord "send to vitalik.eth" 11 = "vi".
Proof.
  assert (Hbefore : endsAtBoundary "send to ")
    by (right; now exists "send to", " "%char).
  assert (Hword : "vitalik.eth" <> "") by discriminate.
  assert (Hk : 3 <= String.length "vitalik.eth") by (simpl; lia).
  split.
  - exact (proj1 (getWord_cuts_the_last_word "send to " "vitalik.eth" 3
                    Hbefore eq_refl Hword Hk)).
  - apply (proj1 (proj2 (getWord_cuts_the_last_word "send to " "vitalik.eth" 3
                           Hbefore eq_refl Hword Hk))).
    lia.
Defined.

Lemma hover_shows_the_address_under_the_cursor_witness :
  @onHover Reference.web3 Reference.keys Examples.plainMarkdown initialServer
    (Some Examples.note) {| line := 0; character := 10 |}
  = Ok {| contents := "Address: " ++ Fixtures.lowerAddress |}.
Proof.
  apply (@hover_shows_the_address_under_the_cursor Reference.web3 Reference.keys
           Examples.plainMarkdown initialServer Examples.note
           {| line := 0; character := 10 |} Fixtures.lowerAddress).
  - exists "pay ", " "%char, ("now" ++ String Lines.LF ""), 6.
    split; [vm_compute; reflexivity|]. split; [vm_compute; reflexivity|].
    split; [right; now exists "pay", " "%char|].
    split; [reflexivity|]. split; [reflexivity|]. simpl. lia.
  - vm_compute. reflexivity.
Defined.

Lemma hover_looks_up_a_name_witness :
  @onHover Reference.web3 Reference.keys Examples.plainMarkdown initialServer
    (Some Examples.note) {| line := 1; character := 10 |}
  = Throw (ensUndefined "resolver")
  /\ @onHover Reference.web3 Reference.keys Examples.plainMarkdown Examples.configured
       (Some Examples.note) {| line := 1; character := 10 |}
     = Ok {| contents := "Address: " ++ Fixtures.checksumAddress |}.
Proof.
  assert (Hcursor : cursorInWord Examples.note {| line := 1; character := 10 |}
                      "vitalik.eth").
  { exists "send to ", " "%char, ("soon" ++ String Lines.LF ""), 2.
    split; [vm_compute; reflexivity|]. split; [vm_compute; reflexivity|].
    split; [right; now exists "send to", " "%char|].
    split; [reflexivity|]. split; [reflexivity|]. simpl. lia. }
  assert (Hvalid : @isValidEthereumAddress Reference.web3 "vitalik.eth" = false)
    by (vm_compute; reflexivity).
  assert (Hkey : @isPrivateKey Reference.keys (normalizeHex "vitalik.eth") = Ok false)
    by (vm_compute; reflexivity).
  split.
  - exact (@hover_looks_up_a_name Reference.web3 Reference.keys Examples.plainMarkdown
             initialServer Examples.note {| line := 1; character := 10 |} "vitalik.eth"
             Hcursor Hvalid Hkey).
  - exact (@hover_looks_up_a_name Reference.web3 Reference.keys Examples.plainMarkdown
             Examples.configured Examples.note {| line := 1; character := 10 |}
             "vitalik.eth" Hcursor Hvalid Hkey).
Defined.

Lemma hover_shows_the_address_of_a_private_key_witness :
  @onHover Reference.web3 Reference.keys Examples.plainMarkdown initialServer
    (Some Examples.note) {| line := 2; character := 20 |}
  = Ok {| contents := "Address: 0xb8CE9ab6943e0eCED004cDe8e3bBed6568B2Fa01" |}.
Proof.
  assert (Hcursor : cursorInWord Examples.note {| line := 2; character := 20 |}
                      Fixtures.privateKey).
  { exists "key: ", Lines.LF, "", 15.
    split; [vm_compute; reflexivity|]. split; [vm_compute; reflexivity|].
    split; [right; now exists "key:", " "%char|].
    split; [reflexivity|]. split; [reflexivity|]. simpl. lia. }
  assert (Hvalid : @isValidEthereumAddress Reference.web3 Fixtures.privateKey = false)
    by (vm_compute; reflexivity).
  assert (Hkey : @isPrivateKey Reference.keys (normalizeHex Fixtures.privateKey) = Ok true)
    by (vm_compute; reflexivity).
  rewrite (@hover_shows_the_address_of_a_private_key Reference.web3 Reference.keys
             Examples.plainMarkdown initialServer Examples.note
             {| line := 2; character := 20 |} Fixtures.privateKey Hcursor Hvalid Hkey).
  vm_compute. reflexivity.
Defined.

Lemma settings_are_requested_once_per_document_witness :
  snd (getDocumentSettings Examples.answers
         (notifyAll Examples.answers Examples.opened Examples.traffic) "file:///one.txt")
  = Ok Fixtures.capOne
  /\ requested (notifyAll Examples.answers Examples.opened Examples.traffic)
     = ["file:///one.txt"; "file:///two.txt"].
Proof.
  assert (Hkeeps : Forall (keepsSettingsOf "file:///one.txt") Examples.traffic)
    by (repeat constructor; discriminate).
  destruct (settings_are_requested_once_per_document Examples.answers
              (initialSettings true) "file:///one.txt" Examples.traffic eq_refl Hkeeps)
    as [Hsame _].
  split; [|reflexivity].
  change (fst (getDocumentSettings Examples.answers (initialSettings true)
                 "file:///one.txt")) with Examples.opened in Hsame.
  now rewrite Hsame.
Defined.

Lemma without_capability_settings_are_pushed_witness :
  requested
    (notifyAll Examples.answers (initialSettings false)
       [ DidChangeContent "file:///one.txt";
         DidChangeConfiguration (Some (Some Fixtures.capOne)) ["file:///one.txt"];
         DidChangeConfiguration None ["file:///one.txt"];
         DidClose "file:///one.txt" ]) = []
  /\ snd (getDocumentSettings Examples.answers
            (notifyAll Examples.answers (initialSettings false)
               [ DidChangeContent "file:///one.txt";
                 DidChangeConfiguration (Some (Some Fixtures.capOne)) ["file:///one.txt"];
                 DidChangeConfiguration None ["file:///one.txt"];
                 DidClose "file:///one.txt" ])
            "file:///two.txt")
     = Ok Fixtures.capOne.
Proof.
  destruct (without_capability_settings_are_pushed Examples.answers (initialSettings false)
              [ DidChangeContent "file:///one.txt";
                DidChangeConfiguration (Some (Some Fixtures.capOne)) ["file:///one.txt"];
                DidChangeConfiguration None ["file:///one.txt"];
                DidClose "file:///one.txt" ] "file:///two.txt" eq_refl)
    as (Hrequested & Hsettings & _).
  split; [exact Hrequested|]. now rewrite Hsettings.
Defined.

Lemma configuration_change_requests_open_documents_witness :
  exists later,
    onDidChangeConfiguration Examples.answers Examples.opened None
      ["file:///two.txt"; "file:///three.txt"] = Ok later
    /\ requested later = ["file:///one.txt"; "file:///two.txt"; "file:///three.txt"]
    /\ map fst (documentSettings later) = ["file:///two.txt"; "file:///three.txt"]
    /\ globalSettings later = defaultSettings.
Proof.
  apply (configuration_change_requests_open_documents Examples.answers Examples.opened
           None ["file:///two.txt"; "file:///three.txt"]).
  - reflexivity.
  - repeat constructor; simpl; intuition discriminate.
Defined.

Lemma closed_document_is_requested_again_witness :
  snd (getDocumentSettings Examples.answers
         (onDidClose Examples.opened "file:///one.txt") "file:///one.txt")
  = Throw "request failed"
  /\ requested (fst (getDocumentSettings Examples.answers
                       (onDidClose Examples.opened "file:///one.txt") "file:///one.txt"))
     = ["file:///one.txt"; "file:///one.txt"].
Proof.
  destruct (closed_document_is_requested_again Examples.answers Examples.opened
              "file:///one.txt" eq_refl)
    as (Hanswer & Hrequested & _).
  split; [exact Hanswer | exact Hrequested].
Defined.
